(** * Peak reducer ([src/wasm/peaks.cpp]): shallow embedding and properties

    The single exported function [compute_peaks] reduces a buffer of 32-bit
    floating-point samples to [buckets] pairs of 16-bit integers.  The
    embedding keeps the program's data as the code has it:

    - [int] and [int32_t] are [Z] with the 32-bit wrap-around written out
      ([wrap32]); [int16_t] likewise ([wrap16]);
    - [float] and [double] are IEEE-754 binary32 and binary64 values, taken
      from the standard library's executable specification [SpecFloat]
      ([prec = 24, emax = 128] and [prec = 53, emax = 1024]);
    - the two buffers are lists reached through possibly null pointers
      ([option]); an access outside a buffer and a floating-point to integer
      conversion whose value does not fit the destination type are undefined
      behaviour in C++, which the embedding renders as [None];
    - every access to the two buffers is logged as an [event], so that
      statements about what the function reads and writes can be made. *)

From Stdlib Require Import ZArith List Bool Lia Floats.SpecFloat QArith Qpower Lqa Qabs.
Import ListNotations.

Local Open Scope Z_scope.

(** ** Machine integers *)

Definition INT_MIN : Z := -2147483648.
Definition INT_MAX : Z := 2147483647.

(** Two's complement wrap-around of [int] / [int32_t] arithmetic. *)
Definition wrap32 (z : Z) : Z := (z + 2147483648) mod 4294967296 - 2147483648.

(** Narrowing conversion to [int16_t]. *)
Definition wrap16 (z : Z) : Z := (z + 32768) mod 65536 - 32768.

Definition in_int32 (z : Z) : bool := (INT_MIN <=? z) && (z <=? INT_MAX).

(** ** Floating point *)

Definition float := spec_float.

(** binary32 multiplication, as in [minVal * 32768.0f]. *)
Definition f32_mul : float -> float -> float := SFmul 24 128.

(** binary64 multiplication and division. *)
Definition f64_mul : float -> float -> float := SFmul 53 1024.
Definition f64_div : float -> float -> float := SFdiv 53 1024.

(** [static_cast<double>(n)] for an [int] [n]. *)
Definition f64_of_int (n : Z) : float := binary_normalize 53 1024 n 0 false.

(** A binary32 constant with an integral value. *)
Definition f32_of_Z (n : Z) : float := binary_normalize 24 128 n 0 false.

(** The literals [1.0f], [-1.0f], [32768.0f] and [32767.0f]. *)
Definition f32_one : float := f32_of_Z 1.
Definition f32_minus_one : float := f32_of_Z (-1).
Definition f32_32768 : float := f32_of_Z 32768.
Definition f32_32767 : float := f32_of_Z 32767.

(** [a < b] on floats: false as soon as one operand is NaN. *)
Definition f_lt (a b : float) : bool := SFltb a b.

(** Truncation toward zero of a finite float ([Z.shiftl] by a negative
    amount shifts right). *)
Definition ftrunc (f : float) : option Z :=
  match f with
  | S754_zero _ => Some 0
  | S754_finite s m e =>
      let a := Z.shiftl (Zpos m) e in
      Some (if s then - a else a)
  | S754_infinity _ => None
  | S754_nan => None
  end.

(** [static_cast<int>(f)] and [static_cast<int32_t>(f)]: the truncated
    value when it fits, undefined otherwise. *)
Definition fptosi (f : float) : option Z :=
  match ftrunc f with
  | Some z => if in_int32 z then Some z else None
  | None => None
  end.

(** ** Buffers and the access log *)

Inductive event : Type :=
| Read (i : Z)            (* samples[i] was read *)
| Write (i : Z) (v : Z).  (* outMinMax[i] = v *)

(** [samples[i]]. *)
Definition load {A : Type} (buf : list A) (i : Z) : option A :=
  if i <? 0 then None else nth_error buf (Z.to_nat i).

Fixpoint upd {A : Type} (buf : list A) (n : nat) (v : A) : list A :=
  match buf, n with
  | [], _ => []
  | _ :: tl, O => v :: tl
  | hd :: tl, S n' => hd :: upd tl n' v
  end.

(** [outMinMax[i] = v]. *)
Definition store {A : Type} (buf : list A) (i : Z) (v : A) : option (list A) :=
  if (0 <=? i) && (i <? Z.of_nat (length buf))
  then Some (upd buf (Z.to_nat i) v)
  else None.

(** ** The program *)

(** [std::min<int32_t>(32767, std::max<int32_t>(-32768, x))]. *)
Definition clamp16 (x : Z) : Z := Z.min 32767 (Z.max (-32768) x).

(** Lines 15-22: the scan range of one bucket. *)
Definition bucket_start (samplesPerBucket : float) (bucket : Z) : option Z :=
  fptosi (f64_mul (f64_of_int bucket) samplesPerBucket).

Definition bucket_raw_end (samplesPerBucket : float) (bucket : Z) : option Z :=
  fptosi (f64_mul (f64_of_int (wrap32 (bucket + 1))) samplesPerBucket).

Definition adjust_end (len startIndex endIndex : Z) : Z :=
  let endIndex := if endIndex <=? startIndex then wrap32 (startIndex + 1) else endIndex in
  if endIndex >? len then len else endIndex.

(** Lines 26-30: the scan.  The loop [for (i = startIndex; i < endIndex; ++i)]
    makes [endIndex - startIndex] iterations (none when this is not
    positive); [n] is the number of iterations left and [i] the current
    index.  The result is the two bounds and the reads made, in order. *)
Fixpoint scan (samples : list float) (n : nat) (i : Z) (minVal maxVal : float)
  : option (float * float * list event) :=
  match n with
  | O => Some (minVal, maxVal, [])
  | S n' =>
      match load samples i with
      | None => None
      | Some value =>
          let minVal := if f_lt value minVal then value else minVal in
          let maxVal := if f_lt maxVal value then value else maxVal in
          match scan samples n' (wrap32 (i + 1)) minVal maxVal with
          | None => None
          | Some (mn, mx, evs) => Some (mn, mx, Read i :: evs)
          end
      end
  end.

(** Lines 15-36: one iteration of the bucket loop. *)
Definition bucket_body (samples : list float) (len : Z) (samplesPerBucket : float)
           (bucket : Z) (out : list Z) : option (list Z * list event) :=
  match bucket_start samplesPerBucket bucket with
  | None => None
  | Some startIndex =>
  match bucket_raw_end samplesPerBucket bucket with
  | None => None
  | Some rawEnd =>
  let endIndex := adjust_end len startIndex rawEnd in
  match scan samples (Z.to_nat (endIndex - startIndex)) startIndex f32_one f32_minus_one with
  | None => None
  | Some (minVal, maxVal, reads) =>
  match fptosi (f32_mul minVal f32_32768) with
  | None => None
  | Some scaledMin =>
  match fptosi (f32_mul maxVal f32_32767) with
  | None => None
  | Some scaledMax =>
  let i0 := wrap32 (bucket * 2) in
  let v0 := wrap16 (clamp16 scaledMin) in
  match store out i0 v0 with
  | None => None
  | Some out0 =>
  let i1 := wrap32 (wrap32 (bucket * 2) + 1) in
  let v1 := wrap16 (clamp16 scaledMax) in
  match store out0 i1 v1 with
  | None => None
  | Some out1 => Some (out1, reads ++ [Write i0 v0; Write i1 v1])
  end end end end end end end.

(** Line 14: the loop [for (bucket = 0; bucket < buckets; ++bucket)] makes
    [buckets] iterations; [n] is the number of iterations left and [bucket]
    the current bucket. *)
Fixpoint bucket_loop (samples : list float) (len : Z) (samplesPerBucket : float)
         (n : nat) (bucket : Z) (out : list Z) : option (list Z * list event) :=
  match n with
  | O => Some (out, [])
  | S n' =>
      match bucket_body samples len samplesPerBucket bucket out with
      | None => None
      | Some (out1, evs1) =>
          match bucket_loop samples len samplesPerBucket n' (wrap32 (bucket + 1)) out1 with
          | None => None
          | Some (out2, evs2) => Some (out2, evs1 ++ evs2)
          end
      end
  end.

(** Line 12: [static_cast<double>(len) / static_cast<double>(buckets)]. *)
Definition samples_per_bucket (len buckets : Z) : float :=
  f64_div (f64_of_int len) (f64_of_int buckets).

(** [compute_peaks(samples, len, buckets, outMinMax)].  The result is the
    final content of the buffer behind [outMinMax] ([None] for a null
    pointer) and the log of accesses; [None] is undefined behaviour. *)
Definition compute_peaks (samples : option (list float)) (len buckets : Z)
           (outMinMax : option (list Z)) : option (option (list Z) * list event) :=
  match samples, outMinMax with
  | Some smp, Some out =>
      if (len <=? 0) || (buckets <=? 0) then Some (outMinMax, [])
      else
        let samplesPerBucket := samples_per_bucket len buckets in
        match bucket_loop smp len samplesPerBucket (Z.to_nat buckets) 0 out with
        | None => None
        | Some (out', evs) => Some (Some out', evs)
        end
  | _, _ => Some (outMinMax, [])
  end.

(** ** Derived descriptions of one bucket

    These regroup the steps of [bucket_body] so that statements can name the
    scan range, the bounds and the stored pair of a bucket; [bucket_body_eq]
    below shows that the loop body is exactly their composition. *)

(** The scan range [(startIndex, endIndex)] of a bucket after lines 17-22. *)
Definition bucket_range (len : Z) (samplesPerBucket : float) (bucket : Z)
  : option (Z * Z) :=
  match bucket_start samplesPerBucket bucket with
  | None => None
  | Some startIndex =>
      match bucket_raw_end samplesPerBucket bucket with
      | None => None
      | Some rawEnd => Some (startIndex, adjust_end len startIndex rawEnd)
      end
  end.

(** [minVal], [maxVal] and the reads of a bucket after line 30. *)
Definition bucket_bounds (samples : list float) (len : Z) (samplesPerBucket : float)
           (bucket : Z) : option (float * float * list event) :=
  match bucket_range len samplesPerBucket bucket with
  | None => None
  | Some (startIndex, endIndex) =>
      scan samples (Z.to_nat (endIndex - startIndex)) startIndex f32_one f32_minus_one
  end.

(** Lines 32-36 without the stores: the two values to store. *)
Definition scale_pair (minVal maxVal : float) : option (Z * Z) :=
  match fptosi (f32_mul minVal f32_32768) with
  | None => None
  | Some scaledMin =>
      match fptosi (f32_mul maxVal f32_32767) with
      | None => None
      | Some scaledMax =>
          Some (wrap16 (clamp16 scaledMin), wrap16 (clamp16 scaledMax))
      end
  end.

Definition bucket_result (samples : list float) (len : Z) (samplesPerBucket : float)
           (bucket : Z) : option (Z * Z * list event) :=
  match bucket_bounds samples len samplesPerBucket bucket with
  | None => None
  | Some (minVal, maxVal, reads) =>
      match scale_pair minVal maxVal with
      | None => None
      | Some (v0, v1) => Some (v0, v1, reads)
      end
  end.

(** The events of buckets [bucket, bucket + n), for a run that is defined. *)
Fixpoint bucket_events (samples : list float) (len : Z) (samplesPerBucket : float)
         (n : nat) (bucket : Z) : list event :=
  match n with
  | O => []
  | S n' =>
      match bucket_result samples len samplesPerBucket bucket with
      | None => []
      | Some (v0, v1, reads) =>
          reads ++ [Write (bucket * 2) v0; Write (bucket * 2 + 1) v1]
      end ++ bucket_events samples len samplesPerBucket n' (bucket + 1)
  end.

(** Projections of the access log. *)
Definition read_indices (evs : list event) : list Z :=
  flat_map (fun ev => match ev with Read i => [i] | Write _ _ => [] end) evs.

Definition write_indices (evs : list event) : list Z :=
  flat_map (fun ev => match ev with Read _ => [] | Write i _ => [i] end) evs.

Definition written_values (evs : list event) : list Z :=
  flat_map (fun ev => match ev with Read _ => [] | Write _ v => [v] end) evs.

(** The integers [lo, lo + 1, ..., lo + n - 1]. *)
Fixpoint zseq (lo : Z) (n : nat) : list Z :=
  match n with
  | O => []
  | S n' => lo :: zseq (lo + 1) n'
  end.

(** Sample values used in examples. *)
Definition f32_zero : float := S754_zero false.
Definition f32_half : float := S754_finite false 8388608 (-24).
Definition f32_minus_half : float := S754_finite true 8388608 (-24).
Definition f32_quarter : float := S754_finite false 8388608 (-25).

Definition f32_two : float := S754_finite false 8388608 (-22).
Definition f32_minus_two : float := S754_finite true 8388608 (-22).

Definition scenario1 : list float :=
  [f32_zero; f32_half; f32_minus_half; f32_one; f32_minus_one; f32_quarter].

(** [scenario1] with other samples in the second half. *)
Definition scenario1' : list float :=
  [f32_zero; f32_half; f32_minus_half; f32_quarter; f32_quarter; f32_quarter].

(** The log of the run on [scenario1] with 6 samples and 2 buckets. *)
Definition scenario1_events : list event :=
  [Read 0; Read 1; Read 2; Write 0 (-16384); Write 1 16383;
   Read 3; Read 4; Read 5; Write 2 (-32768); Write 3 32767].

(** ** Conditions on the samples *)

Definition is_nan (f : float) : bool :=
  match f with S754_nan => true | _ => false end.

(** A sample both of whose scaled conversions to [int32_t] are defined. *)
Definition scalable (f : float) : bool :=
  match fptosi (f32_mul f f32_32768), fptosi (f32_mul f f32_32767) with
  | Some _, Some _ => true
  | _, _ => false
  end.

(** NaN samples never become a bound, so they need not be scalable. *)
Definition sample_ok (f : float) : bool := is_nan f || scalable f.

Definition samples_ok (samples : list float) (len : Z) : bool :=
  forallb sample_ok (firstn (Z.to_nat len) samples).

(** [a <= b] on floats. *)
Definition f_le (a b : float) : bool := SFleb a b.

(** A normalized sample: a NaN, or a binary32 value between [-1.0f] and
    [1.0f], the range the initial bounds of the scan assume. *)
Definition normalized (f : float) : bool :=
  is_nan f || (valid_binary 24 128 f && f_le f32_minus_one f && f_le f f32_one).

Definition samples_normalized (samples : list float) (len : Z) : bool :=
  forallb normalized (firstn (Z.to_nat len) samples).

(** A sample whose scaled values fit [int32_t]: a NaN (never a bound), or a
    binary32 value of magnitude below 65536. *)
Definition bounded_sample (f : float) : bool :=
  is_nan f ||
  (valid_binary 24 128 f && f_lt (f32_of_Z (-65536)) f && f_lt f (f32_of_Z 65536)).

Definition samples_bounded (samples : list float) (len : Z) : bool :=
  forallb bounded_sample (firstn (Z.to_nat len) samples).

(** ** Runs *)

(** The largest bucket count whose output indices [bucket * 2 + 1] all fit
    an [int]. *)
Definition MAX_BUCKETS : Z := 1073741824.

(** The call returns normally, with some final buffer and some log. *)
Definition defined_run (samples : list float) (len buckets : Z) (out : list Z) : Prop :=
  exists out' evs,
    compute_peaks (Some samples) len buckets (Some out) = Some (Some out', evs).

(** Buffers as large as the interface requires, indices that fit an [int],
    and samples whose scaled bounds fit [int32_t]. *)
Definition well_formed_call (samples : list float) (len buckets : Z) (out : list Z)
  : Prop :=
  len <= Z.of_nat (length samples) /\
  2 * buckets <= Z.of_nat (length out) /\
  buckets <= MAX_BUCKETS /\
  samples_ok samples len = true.

(** ** Auxiliary notions for the rounding analysis *)

(** [2 ^ 53]: one more than the largest binary64 mantissa. *)
Definition P53 : Z := 9007199254740992.

(** A location [l] places the rational [num / den] within [m, m + 1), as
    [SpecFloat]'s rounding records do. *)
Definition loc_ok (num den m : Z) (l : location) : Prop :=
  m * den <= num < (m + 1) * den /\
  match l with
  | loc_Exact => num = m * den
  | loc_Inexact c => num <> m * den /\ (2 * (num - m * den) ?= den) = c
  end.

Definition rec_ok (num den : Z) (mrs : shr_record) : Prop :=
  loc_ok num den (shr_m mrs) (loc_of_shr_record mrs).

Definition pow2 (e : Z) : Q := Qpower 2 e.

(** The rational value [m * 2 ^ e] of a mantissa and an exponent. *)
Definition valQ (m e : Z) : Q := (inject_Z m * pow2 e)%Q.

(** The rational value of a finite float (0 for the other floats). *)
Definition fval (f : float) : Q :=
  match f with
  | S754_finite s m e => valQ (cond_Zopp s (Zpos m)) e
  | _ => 0%Q
  end.

(** [z] is the rational [q] rounded toward zero. *)
Definition is_trunc (q : Q) (z : Z) : Prop :=
  ((0 <= q -> inject_Z z <= q /\ q < inject_Z z + 1) /\
   (q <= 0 -> inject_Z z - 1 < q /\ q <= inject_Z z))%Q.

(** Floats other than NaN are ordered as their keys are, lexicographically
    (the comparison of [SpecFloat] reads sign, exponent and mantissa). *)
Definition fkey (f : float) : option (Z * Z * Z) :=
  match f with
  | S754_nan => None
  | S754_zero _ => Some (0, 0, 0)
  | S754_infinity s => Some (if s then -2 else 2, 0, 0)
  | S754_finite s m e => Some (if s then (-1, - e, Zneg m) else (1, e, Zpos m))
  end.

Definition key_lt (a b : Z * Z * Z) : Prop :=
  let '(a1, a2, a3) := a in
  let '(b1, b2, b3) := b in
  a1 < b1 \/ (a1 = b1 /\ (a2 < b2 \/ (a2 = b2 /\ a3 < b3))).

Definition key_le (a b : Z * Z * Z) : Prop :=
  let '(a1, a2, a3) := a in
  let '(b1, b2, b3) := b in
  a1 < b1 \/ (a1 = b1 /\ (a2 < b2 \/ (a2 = b2 /\ a3 <= b3))).

(** Case analysis on every integer comparison in sight. *)
Ltac cmp_norm :=
  repeat match goal with
         | H : _ /\ _ |- _ => destruct H
         | |- _ /\ _ => split
         | H : context [?a ?= ?b] |- _ => destruct (Z.compare_spec a b); try discriminate
         | |- context [?a ?= ?b] => destruct (Z.compare_spec a b)
         end; try reflexivity; try lia.

(** * Properties *)

(** ** Machine integers *)

Lemma wrap32_small (z : Z) : INT_MIN <= z <= INT_MAX -> wrap32 z = z.
Proof.
  unfold wrap32, INT_MIN, INT_MAX. intros H.
  rewrite Z.mod_small by lia. lia.
Qed.

Lemma wrap16_small (z : Z) : -32768 <= z <= 32767 -> wrap16 z = z.
Proof.
  unfold wrap16. intros H. rewrite Z.mod_small by lia. lia.
Qed.

Lemma clamp16_range (x : Z) : -32768 <= clamp16 x <= 32767.
Proof. unfold clamp16. lia. Qed.

Lemma wrap16_clamp16 (x : Z) : wrap16 (clamp16 x) = clamp16 x.
Proof. apply wrap16_small, clamp16_range. Qed.

(** ** Buffers *)

Lemma upd_length {A : Type} (buf : list A) (n : nat) (v : A) :
  length (upd buf n v) = length buf.
Proof.
  revert n. induction buf as [|hd tl IH]; intros [|n]; simpl; auto.
Qed.

Lemma nth_error_upd_same {A : Type} (buf : list A) (n : nat) (v : A) :
  (n < length buf)%nat -> nth_error (upd buf n v) n = Some v.
Proof.
  revert n. induction buf as [|hd tl IH]; intros [|n] H; simpl in *; try lia; auto.
  apply IH. lia.
Qed.

Lemma nth_error_upd_other {A : Type} (buf : list A) (n k : nat) (v : A) :
  n <> k -> nth_error (upd buf n v) k = nth_error buf k.
Proof.
  revert n k. induction buf as [|hd tl IH]; intros [|n] [|k] H; simpl; auto.
  congruence.
Qed.

Lemma store_some {A : Type} (buf buf' : list A) (i : Z) (v : A) :
  store buf i v = Some buf' ->
  0 <= i < Z.of_nat (length buf) /\ buf' = upd buf (Z.to_nat i) v.
Proof.
  unfold store. destruct (0 <=? i) eqn:E1; simpl; try discriminate.
  destruct (i <? Z.of_nat (length buf)) eqn:E2; try discriminate.
  intros [= <-]. split; auto. lia.
Qed.

Lemma store_defined {A : Type} (buf : list A) (i : Z) (v : A) :
  0 <= i < Z.of_nat (length buf) -> store buf i v = Some (upd buf (Z.to_nat i) v).
Proof.
  intros H. unfold store.
  replace (0 <=? i) with true by (symmetry; apply Z.leb_le; lia).
  replace (i <? Z.of_nat (length buf)) with true by (symmetry; apply Z.ltb_lt; lia).
  reflexivity.
Qed.

Lemma store_undefined {A : Type} (buf : list A) (i : Z) (v : A) :
  i < 0 -> store buf i v = None.
Proof.
  intros H. unfold store.
  replace (0 <=? i) with false by (symmetry; apply Z.leb_gt; lia).
  reflexivity.
Qed.

Lemma store_length {A : Type} (buf buf' : list A) (i : Z) (v : A) :
  store buf i v = Some buf' -> length buf' = length buf.
Proof.
  intros H. apply store_some in H as [_ ->]. apply upd_length.
Qed.

Lemma load_store_same {A : Type} (buf buf' : list A) (i : Z) (v : A) :
  store buf i v = Some buf' -> load buf' i = Some v.
Proof.
  intros H. apply store_some in H as [Hi ->]. unfold load.
  replace (i <? 0) with false by (symmetry; apply Z.ltb_ge; lia).
  apply nth_error_upd_same. lia.
Qed.

Lemma load_store_other {A : Type} (buf buf' : list A) (i j : Z) (v : A) :
  store buf i v = Some buf' -> j <> i -> load buf' j = load buf j.
Proof.
  intros H Hj. apply store_some in H as [Hi ->]. unfold load.
  destruct (j <? 0) eqn:E; auto.
  apply nth_error_upd_other. apply Z.ltb_ge in E. lia.
Qed.

Lemma load_some {A : Type} (buf : list A) (i : Z) (v : A) :
  load buf i = Some v -> 0 <= i < Z.of_nat (length buf).
Proof.
  unfold load. destruct (i <? 0) eqn:E; try discriminate.
  intros H. apply Z.ltb_ge in E.
  assert (Hn : (Z.to_nat i < length buf)%nat).
  { apply nth_error_Some. congruence. }
  lia.
Qed.

Lemma load_defined {A : Type} (buf : list A) (i : Z) :
  0 <= i < Z.of_nat (length buf) -> exists v, load buf i = Some v.
Proof.
  intros H. unfold load.
  replace (i <? 0) with false by (symmetry; apply Z.ltb_ge; lia).
  destruct (nth_error buf (Z.to_nat i)) eqn:E; eauto.
  apply nth_error_None in E. lia.
Qed.

(** ** The bucket loop *)

(** The loop body is the composition of the per-bucket descriptions and the
    two stores. *)
Lemma bucket_body_eq (smp : list float) (len : Z) (spb : float) (b : Z) (out : list Z) :
  bucket_body smp len spb b out =
  match bucket_result smp len spb b with
  | None => None
  | Some (v0, v1, rd) =>
      match store out (wrap32 (b * 2)) v0 with
      | None => None
      | Some out0 =>
          match store out0 (wrap32 (wrap32 (b * 2) + 1)) v1 with
          | None => None
          | Some out1 =>
              Some (out1, rd ++ [Write (wrap32 (b * 2)) v0;
                                 Write (wrap32 (wrap32 (b * 2) + 1)) v1])
          end
      end
  end.
Proof.
  unfold bucket_body, bucket_result, bucket_bounds, bucket_range, scale_pair.
  destruct (bucket_start spb b) as [s|]; auto.
  destruct (bucket_raw_end spb b) as [r|]; auto.
  destruct (scan smp _ s f32_one f32_minus_one) as [[[mn mx] rd]|]; auto.
  destruct (fptosi (f32_mul mn f32_32768)) as [a|]; auto.
  destruct (fptosi (f32_mul mx f32_32767)) as [c|]; auto.
Qed.

Lemma bucket_loop_spec (smp : list float) (len : Z) (spb : float) (n : nat) :
  forall (b0 : Z) (out out' : list Z) (evs : list event),
    0 <= b0 -> b0 + Z.of_nat n <= MAX_BUCKETS ->
    bucket_loop smp len spb n b0 out = Some (out', evs) ->
    length out' = length out /\
    evs = bucket_events smp len spb n b0 /\
    (n <> O -> 2 * (b0 + Z.of_nat n) <= Z.of_nat (length out)) /\
    (forall j, j < 2 * b0 \/ 2 * (b0 + Z.of_nat n) <= j -> load out' j = load out j) /\
    (forall b, b0 <= b < b0 + Z.of_nat n ->
       exists v0 v1 rd,
         bucket_result smp len spb b = Some (v0, v1, rd) /\
         load out' (2 * b) = Some v0 /\ load out' (2 * b + 1) = Some v1).
Proof.
  unfold MAX_BUCKETS.
  induction n as [|n IH]; intros b0 out out' evs Hb0 Hmax H.
  - simpl in H. injection H as <- <-. repeat split; auto; try congruence.
    intros b Hb. lia.
  - cbn [bucket_loop] in H. rewrite bucket_body_eq in H.
    destruct (bucket_result smp len spb b0) as [[[v0 v1] rd]|] eqn:Hres; try discriminate.
    rewrite (wrap32_small (b0 * 2)) in H by (unfold INT_MIN, INT_MAX; lia).
    rewrite (wrap32_small (b0 * 2 + 1)) in H by (unfold INT_MIN, INT_MAX; lia).
    rewrite (wrap32_small (b0 + 1)) in H by (unfold INT_MIN, INT_MAX; lia).
    destruct (store out (b0 * 2) v0) as [out0|] eqn:Hs0; try discriminate.
    destruct (store out0 (b0 * 2 + 1) v1) as [out1|] eqn:Hs1; try discriminate.
    destruct (bucket_loop smp len spb n (b0 + 1) out1) as [[out2 evs2]|] eqn:Hl;
      try discriminate.
    injection H as <- <-.
    apply IH in Hl as (Hlen & Hevs & Hsz & Hout & Hin); try lia.
    pose proof (store_length _ _ _ _ Hs0) as Hl0.
    pose proof (store_length _ _ _ _ Hs1) as Hl1.
    pose proof (store_some _ _ _ _ Hs1) as [Hr1 _].
    split; [congruence|].
    split; [cbn [bucket_events]; rewrite Hres, Hevs; reflexivity|].
    split; [intros _; lia|].
    split.
    + intros j Hj. rewrite Hout by lia.
      rewrite (load_store_other _ _ _ _ _ Hs1) by lia.
      apply (load_store_other _ _ _ _ _ Hs0). lia.
    + intros b Hb. destruct (Z.eq_dec b b0) as [->|Hne].
      * exists v0, v1, rd. split; auto. split.
        -- rewrite Hout by lia.
           rewrite (load_store_other _ _ _ _ _ Hs1) by lia.
           replace (2 * b0) with (b0 * 2) by lia.
           apply (load_store_same _ _ _ _ Hs0).
        -- rewrite Hout by lia.
           replace (2 * b0 + 1) with (b0 * 2 + 1) by lia.
           apply (load_store_same _ _ _ _ Hs1).
      * apply Hin. lia.
Qed.

Lemma bucket_loop_defined (smp : list float) (len : Z) (spb : float) (n : nat) :
  forall (b0 : Z) (out : list Z),
    0 <= b0 -> b0 + Z.of_nat n <= MAX_BUCKETS ->
    2 * (b0 + Z.of_nat n) <= Z.of_nat (length out) ->
    (forall b, b0 <= b < b0 + Z.of_nat n -> bucket_result smp len spb b <> None) ->
    exists out' evs, bucket_loop smp len spb n b0 out = Some (out', evs).
Proof.
  unfold MAX_BUCKETS.
  induction n as [|n IH]; intros b0 out Hb0 Hmax Hlen Hres.
  - simpl. eauto.
  - cbn [bucket_loop]. rewrite bucket_body_eq.
    destruct (bucket_result smp len spb b0) as [[[v0 v1] rd]|] eqn:E.
    2:{ exfalso. apply (Hres b0); auto. lia. }
    rewrite (wrap32_small (b0 * 2)) by (unfold INT_MIN, INT_MAX; lia).
    rewrite (wrap32_small (b0 * 2 + 1)) by (unfold INT_MIN, INT_MAX; lia).
    rewrite (wrap32_small (b0 + 1)) by (unfold INT_MIN, INT_MAX; lia).
    rewrite store_defined by lia.
    rewrite store_defined by (rewrite upd_length; lia).
    destruct (IH (b0 + 1) (upd (upd out (Z.to_nat (b0 * 2)) v0) (Z.to_nat (b0 * 2 + 1)) v1))
      as (out' & evs & ->); try lia.
    + rewrite !upd_length. lia.
    + intros b Hb. apply Hres. lia.
    + eauto.
Qed.

(** Past [MAX_BUCKETS] the index [bucket * 2] no longer fits an [int]: the
    wrapped index is negative and the store is out of bounds. *)
Lemma bucket_loop_overflow (smp : list float) (len : Z) (spb : float) (n : nat) :
  forall (b0 : Z) (out : list Z),
    0 <= b0 <= MAX_BUCKETS -> MAX_BUCKETS < b0 + Z.of_nat n ->
    bucket_loop smp len spb n b0 out = None.
Proof.
  unfold MAX_BUCKETS.
  induction n as [|n IH]; intros b0 out Hb0 Hn.
  - lia.
  - cbn [bucket_loop]. rewrite bucket_body_eq.
    destruct (bucket_result smp len spb b0) as [[[v0 v1] rd]|]; auto.
    destruct (Z.eq_dec b0 1073741824) as [->|Hne].
    + rewrite store_undefined; auto. reflexivity.
    + destruct (store out (wrap32 (b0 * 2)) v0) as [out0|]; auto.
      destruct (store out0 _ v1) as [out1|]; auto.
      rewrite (wrap32_small (b0 + 1)) by (unfold INT_MIN, INT_MAX; lia).
      rewrite IH; auto; lia.
Qed.

(** ** Rounding in [SpecFloat] *)
Lemma digits2_pos_bounds (m : positive) :
  2 ^ (Zpos (digits2_pos m) - 1) <= Zpos m < 2 ^ Zpos (digits2_pos m).
Proof.
  induction m as [m IH|m IH|]; cbn [digits2_pos].
  - rewrite Pos2Z.inj_succ.
    replace (Z.succ (Zpos (digits2_pos m)) - 1) with (Z.succ (Zpos (digits2_pos m) - 1)) by lia.
    rewrite !Z.pow_succ_r by lia. lia.
  - rewrite Pos2Z.inj_succ.
    replace (Z.succ (Zpos (digits2_pos m)) - 1) with (Z.succ (Zpos (digits2_pos m) - 1)) by lia.
    rewrite !Z.pow_succ_r by lia. lia.
  - simpl. lia.
Qed.

Lemma loc_of_rec_of (m : Z) (l : location) :
  loc_of_shr_record (shr_record_of_loc m l) = l /\ shr_m (shr_record_of_loc m l) = m.
Proof. destruct l as [|[| |]]; simpl; auto. Qed.

Lemma rec_ok_of_loc num den m l : loc_ok num den m l -> rec_ok num den (shr_record_of_loc m l).
Proof.
  unfold rec_ok. destruct (loc_of_rec_of m l) as [-> ->]. auto.
Qed.

Lemma shr_1_ok (num den : Z) (mrs : shr_record) :
  0 < den -> 0 <= num -> rec_ok num den mrs -> rec_ok num (2 * den) (shr_1 mrs).
Proof.
  intros Hden Hnum. destruct mrs as [m r s].
  unfold rec_ok, loc_ok. cbv [shr_1 loc_of_shr_record shr_m orb].
  intros [Hb Hl].
  assert (Hm : 0 <= m) by nia.
  destruct m as [|p|p]; try lia.
  - destruct r, s; cmp_norm.
  - destruct p as [p|p|]; destruct r, s; cbv [shr_m]; cmp_norm.
Qed.

Lemma iter_pos_shr_ok (p : positive) :
  forall num den mrs,
    0 < den -> 0 <= num -> rec_ok num den mrs ->
    rec_ok num (2 ^ Zpos p * den) (SpecFloat.iter_pos shr_1 p mrs).
Proof.
  induction p as [p IH|p IH|]; intros num den mrs Hden Hnum H; cbn [SpecFloat.iter_pos].
  - replace (2 ^ Zpos p~1 * den) with (2 ^ Zpos p * (2 ^ Zpos p * (2 * den))).
    + apply IH; try lia. apply IH; try lia. now apply shr_1_ok.
    + replace (Zpos p~1) with (Zpos p + Zpos p + 1) by lia.
      rewrite !Z.pow_add_r, Z.pow_1_r by lia. ring.
  - replace (2 ^ Zpos p~0 * den) with (2 ^ Zpos p * (2 ^ Zpos p * den)).
    + apply IH; try lia. apply IH; try lia. auto.
    + replace (Zpos p~0) with (Zpos p + Zpos p) by lia.
      rewrite Z.pow_add_r by lia. ring.
  - replace (2 ^ 1 * den) with (2 * den) by lia. now apply shr_1_ok.
Qed.

(** [shr]: dropping [n] low bits. *)
Lemma shr_ok (num den : Z) (mrs : shr_record) (e n : Z) :
  0 < den -> 0 <= num -> rec_ok num den mrs ->
  rec_ok num (2 ^ Z.max 0 n * den) (fst (shr mrs e n)) /\
  snd (shr mrs e n) = e + Z.max 0 n.
Proof.
  intros Hden Hnum H. destruct n as [|p|p]; cbn [shr fst snd].
  - replace (Z.max 0 0) with 0 by lia. rewrite Z.pow_0_r, Z.mul_1_l, Z.add_0_r. auto.
  - replace (Z.max 0 (Zpos p)) with (Zpos p) by lia. split; auto.
    now apply iter_pos_shr_ok.
  - replace (Z.max 0 (Zneg p)) with 0 by lia. rewrite Z.pow_0_r, Z.mul_1_l, Z.add_0_r. auto.
Qed.

Lemma round_nearest_even_ok (num den : Z) (mrs : shr_record) :
  0 < den -> rec_ok num den mrs ->
  let m1 := round_nearest_even (shr_m mrs) (loc_of_shr_record mrs) in
  shr_m mrs <= m1 <= shr_m mrs + 1 /\
  2 * m1 * den - den <= 2 * num <= 2 * m1 * den + den /\
  (loc_of_shr_record mrs = loc_Exact -> m1 * den = num).
Proof.
  intros Hden. unfold rec_ok, loc_ok. destruct mrs as [m r s]. cbn [shr_m].
  destruct (loc_of_shr_record _) as [|[| |]]; cbn [round_nearest_even]; intros [Hb Hl].
  - repeat split; lia.
  - destruct (Z.even m); cmp_norm; intros; discriminate.
  - cmp_norm; intros; discriminate.
  - cmp_norm; intros; discriminate.
Qed.

Lemma Zdigits2_bounds (m : Z) :
  0 < m -> 0 < Zdigits2 m /\ 2 ^ (Zdigits2 m - 1) <= m < 2 ^ Zdigits2 m.
Proof.
  destruct m as [|p|p]; try lia. intros _. cbn [Zdigits2].
  split; [lia|apply digits2_pos_bounds].
Qed.

Lemma Zdigits2_unique (m k : Z) :
  2 ^ (k - 1) <= m < 2 ^ k -> 0 < k -> Zdigits2 m = k.
Proof.
  intros H Hk.
  assert (Hm : 0 < m).
  { assert (0 < 2 ^ (k - 1)) by (apply Z.pow_pos_nonneg; lia). lia. }
  destruct (Zdigits2_bounds m Hm) as [Hd Hb].
  destruct (Z.lt_trichotomy (Zdigits2 m) k) as [Hlt|[Heq|Hgt]]; auto; exfalso.
  - assert (2 ^ Zdigits2 m <= 2 ^ (k - 1)) by (apply Z.pow_le_mono_r; lia). lia.
  - assert (2 ^ k <= 2 ^ (Zdigits2 m - 1)) by (apply Z.pow_le_mono_r; lia). lia.
Qed.

Section Rounding.
Variables prec emax : Z.
Hypothesis prec_pos : 0 < prec.

Lemma fexp_normal (e : Z) : emin prec emax <= e - prec -> fexp prec emax e = e - prec.
Proof. unfold fexp. lia. Qed.

(** Rounding to nearest in the normal range: the result is a float with a
    full mantissa whose value [m * 2 ^ e] differs from the exact value
    [(num / den) * 2 ^ ex] by at most the fraction [2 ^ - prec] of it. *)
Lemma binary_round_aux_normal (sx : bool) (mx ex : Z) (lx : location) (num den : Z) :
  0 < mx -> 0 < den -> loc_ok num den mx lx ->
  prec <= Zdigits2 mx ->
  emin prec emax <= Zdigits2 mx + ex - prec ->
  exists m e,
    binary_round_aux prec emax sx mx ex lx =
      (if e <=? emax - prec then S754_finite sx (Z.to_pos m) e else S754_infinity sx) /\
    2 ^ (prec - 1) <= m < 2 ^ prec /\
    ex + (Zdigits2 mx - prec) <= e <= ex + (Zdigits2 mx - prec) + 1 /\
    2 ^ prec * (m * 2 ^ (e - ex)) * den <= (2 ^ prec + 1) * num /\
    (2 ^ prec - 1) * num <= 2 ^ prec * (m * 2 ^ (e - ex)) * den.
Proof.
  intros Hmx Hden Hloc Hd Hemin.
  destruct (Zdigits2_bounds mx Hmx) as [Hdpos Hdb].
  set (d := Zdigits2 mx) in *.
  set (n1 := d - prec).
  assert (Hnum : 0 <= num) by (destruct Hloc as [[? ?] _]; nia).
  unfold binary_round_aux, shr_fexp.
  fold d. rewrite fexp_normal by lia.
  replace (d + ex - prec - ex) with n1 by (unfold n1; lia).
  destruct (shr_ok num den (shr_record_of_loc mx lx) ex n1 Hden Hnum
              (rec_ok_of_loc _ _ _ _ Hloc)) as [Hrec He'].
  destruct (shr (shr_record_of_loc mx lx) ex n1) as [mrs' e'].
  cbn [fst snd] in Hrec, He'.
  replace (Z.max 0 n1) with n1 in * by (unfold n1; lia).
  set (D := 2 ^ n1 * den) in *.
  assert (Hp1 : 0 < 2 ^ n1) by (apply Z.pow_pos_nonneg; unfold n1; lia).
  assert (HD : 0 < D) by (unfold D; nia).
  assert (Hpd : 2 ^ d = 2 ^ prec * 2 ^ n1).
  { rewrite <- Z.pow_add_r by (unfold n1; lia). f_equal. unfold n1. lia. }
  assert (Hpd1 : 2 ^ (d - 1) = 2 ^ (prec - 1) * 2 ^ n1).
  { rewrite <- Z.pow_add_r by (unfold n1; lia). f_equal. unfold n1. lia. }
  assert (Hpp : 2 ^ prec = 2 * 2 ^ (prec - 1)).
  { rewrite <- Z.pow_succ_r by lia. f_equal. lia. }
  assert (Hpp0 : 0 < 2 ^ (prec - 1)) by (apply Z.pow_pos_nonneg; lia).
  pose proof (round_nearest_even_ok num D mrs' HD Hrec) as Hr.
  cbv zeta in Hr.
  set (m1 := round_nearest_even (shr_m mrs') (loc_of_shr_record mrs')) in *.
  destruct Hr as (Hm1 & Herr & _).
  destruct Hrec as [Hb' _]. destruct Hloc as [Hb _].
  set (m' := shr_m mrs') in *.
  assert (Hm'hi : m' < 2 ^ prec).
  { assert (m' * D < 2 ^ prec * D); [|nia].
    unfold D at 2. nia. }
  assert (Hm'lo : 2 ^ (prec - 1) <= m').
  { assert (2 ^ (prec - 1) * D < (m' + 1) * D); [|nia].
    unfold D at 1. nia. }
  assert (Hbase : 2 ^ (prec - 1) * D <= num) by (unfold D; nia).
  destruct (Z.eq_dec m1 (2 ^ prec)) as [Hcarry|Hnc].
  - (* the mantissa was rounded up to [2 ^ prec] *)
    assert (Hd1 : Zdigits2 m1 = prec + 1).
    { apply Zdigits2_unique; try lia. rewrite Hcarry.
      replace (prec + 1 - 1) with prec by lia.
      rewrite Z.pow_add_r, Z.pow_1_r by lia. lia. }
    rewrite Hd1, fexp_normal by lia.
    replace (prec + 1 + e' - prec - e') with 1 by lia.
    cbn [shr SpecFloat.iter_pos].
    assert (Hr2 : rec_ok m1 (2 * 1) (shr_1 (shr_record_of_loc m1 loc_Exact))).
    { apply shr_1_ok; try lia. apply rec_ok_of_loc. unfold loc_ok. lia. }
    destruct Hr2 as [Hb2 _].
    set (m2 := shr_m (shr_1 (shr_record_of_loc m1 loc_Exact))) in *.
    assert (Hm2 : m2 = 2 ^ (prec - 1)) by lia.
    exists m2, (e' + 1).
    clearbody m2.
    split; [destruct m2 as [|p|p]; try lia; reflexivity|].
    split; [lia|]. split; [lia|].
    replace (e' + 1 - ex) with (n1 + 1) by lia.
    rewrite Z.pow_add_r, Z.pow_1_r by (unfold n1; lia).
    fold n1. split; nia.
  - assert (Hd1 : Zdigits2 m1 = prec) by (apply Zdigits2_unique; lia).
    rewrite Hd1, fexp_normal by lia.
    replace (prec + e' - prec - e') with 0 by lia.
    cbn [shr].
    destruct (loc_of_rec_of m1 loc_Exact) as [_ ->].
    exists m1, e'.
    clearbody m1.
    split; [destruct m1 as [|p|p]; try lia; reflexivity|].
    split; [lia|]. split; [lia|].
    replace (e' - ex) with n1 by lia.
    split; nia.
Qed.
End Rounding.

Section Conversion.
Variables prec emax : Z.
Hypothesis prec_pos : 0 < prec.

(** A mantissa that needs no shift is kept as it is. *)
Lemma binary_round_aux_exact (sx : bool) (mx : positive) (ex : Z) :
  fexp prec emax (Zpos (digits2_pos mx) + ex) <= ex ->
  binary_round_aux prec emax sx (Zpos mx) ex loc_Exact =
    if ex <=? emax - prec then S754_finite sx mx ex else S754_infinity sx.
Proof.
  intros H. unfold binary_round_aux, shr_fexp. cbn [Zdigits2].
  assert (Hs : forall mrs, shr mrs ex (fexp prec emax (Zpos (digits2_pos mx) + ex) - ex) = (mrs, ex)).
  { intros mrs. unfold shr.
    destruct (fexp prec emax (Zpos (digits2_pos mx) + ex) - ex) eqn:E; auto. lia. }
  rewrite Hs. cbn [shr_record_of_loc shr_m loc_of_shr_record round_nearest_even Zdigits2].
  rewrite Hs. reflexivity.
Qed.

Lemma iter_xO_spec (d : positive) (m : positive) :
  Zpos (Pos.iter xO m d) = Zpos m * 2 ^ Zpos d.
Proof.
  induction d as [|d IH] using Pos.peano_ind.
  - simpl. lia.
  - rewrite Pos.iter_succ, Pos2Z.inj_xO, IH, Pos2Z.inj_succ, Z.pow_succ_r by lia. ring.
Qed.

Lemma shl_align_spec (mx : positive) (ex ex' : Z) :
  ex' <= ex ->
  Zpos (fst (shl_align mx ex ex')) = Zpos mx * 2 ^ (ex - ex') /\
  snd (shl_align mx ex ex') = ex'.
Proof.
  intros H. unfold shl_align. destruct (ex' - ex) as [|p|p] eqn:E; cbn [fst snd]; try lia.
  - replace (ex - ex') with 0 by lia. rewrite Z.pow_0_r. lia.
  - rewrite iter_xO_spec. replace (ex - ex') with (Zpos p) by lia. auto.
Qed.

(** Conversion of a positive integer that fits the mantissa. *)
Lemma binary_normalize_pos (n : Z) :
  0 < n -> Zdigits2 n <= prec ->
  emin prec emax <= Zdigits2 n - prec -> Zdigits2 n <= emax ->
  binary_normalize prec emax n 0 false =
    S754_finite false (Z.to_pos (n * 2 ^ (prec - Zdigits2 n))) (Zdigits2 n - prec).
Proof.
  intros Hn Hd Hemin Hemax.
  destruct (Zdigits2_bounds n Hn) as [Hdpos Hb].
  destruct n as [|p|p]; try lia. cbn [binary_normalize Zdigits2] in *.
  unfold binary_round.
  set (d := Zpos (digits2_pos p)) in *.
  rewrite Z.add_0_r, fexp_normal by lia.
  destruct (shl_align_spec p 0 (d - prec)) as [Hm He]; try lia.
  destruct (shl_align p 0 (d - prec)) as [mz ez]. cbn [fst snd] in Hm, He. subst ez.
  replace (0 - (d - prec)) with (prec - d) in Hm by lia.
  assert (Hp : 0 < 2 ^ (prec - d)) by (apply Z.pow_pos_nonneg; lia).
  assert (Hdz : Zpos (digits2_pos mz) = prec).
  { change (Zdigits2 (Zpos mz) = prec). apply Zdigits2_unique; try lia.
    rewrite Hm.
    replace (2 ^ prec) with (2 ^ d * 2 ^ (prec - d))
      by (rewrite <- Z.pow_add_r by lia; f_equal; lia).
    replace (2 ^ (prec - 1)) with (2 ^ (d - 1) * 2 ^ (prec - d))
      by (rewrite <- Z.pow_add_r by lia; f_equal; lia).
    nia. }
  rewrite binary_round_aux_exact.
  - replace (d - prec <=? emax - prec) with true by (symmetry; apply Z.leb_le; lia).
    rewrite <- Hm. rewrite Pos2Z.id. reflexivity.
  - rewrite Hdz, fexp_normal by lia. lia.
Qed.

Lemma new_location_ok (m2 q r : Z) :
  0 < m2 -> 0 <= r < m2 -> loc_ok (m2 * q + r) m2 q (new_location m2 r).
Proof.
  intros Hm2 Hr. unfold loc_ok. split; [nia|].
  unfold new_location, new_location_even, new_location_odd.
  destruct (Z.even m2) eqn:Hev.
  - destruct (Z.eqb_spec r 0) as [->|Hne]; [lia|].
    split; [nia|]. f_equal. nia.
  - destruct (Z.eqb_spec r 0) as [->|Hne]; [lia|].
    split; [nia|].
    replace (2 * (m2 * q + r - q * m2)) with (2 * r) by lia.
    assert (Hodd : Z.odd m2 = true) by (rewrite <- Z.negb_even, Hev; reflexivity).
    apply Z.odd_spec in Hodd as [k Hk].
    destruct (Z.compare_spec (2 * r + 1) m2); cmp_norm.
Qed.

Lemma SFdiv_core_binary_ok (m1 e1 m2 e2 : Z) :
  0 < m1 -> 0 < m2 ->
  let e' := Z.min (fexp prec emax (Zdigits2 m1 + e1 - (Zdigits2 m2 + e2))) (e1 - e2) in
  exists q l,
    SFdiv_core_binary prec emax m1 e1 m2 e2 = (q, e', l) /\
    loc_ok (m1 * 2 ^ (e1 - e2 - e')) m2 q l.
Proof.
  intros Hm1 Hm2 e'. unfold SFdiv_core_binary. fold e'.
  set (s := e1 - e2 - e').
  assert (Hs : 0 <= s) by (unfold s, e'; lia).
  set (m' := match s with Zpos _ => Z.shiftl m1 s | Z0 => m1 | Zneg _ => 0 end).
  assert (Hm' : m' = m1 * 2 ^ s).
  { unfold m'. destruct s as [|p|p] eqn:E; try lia.
    apply Z.shiftl_mul_pow2. lia. }
  pose proof (Z_div_mod m' m2 ltac:(lia)) as Hdm.
  destruct (Z.div_eucl m' m2) as [q r]. destruct Hdm as [Hq Hr].
  exists q, (new_location m2 r). split; auto.
  rewrite <- Hm', Hq. apply new_location_ok; lia.
Qed.
End Conversion.

(** ** Rational values *)

Lemma pow2_pos (e : Z) : (0 < pow2 e)%Q.
Proof. apply Qpower_0_lt. reflexivity. Qed.

Lemma pow2_add (a b : Z) : (pow2 (a + b) == pow2 a * pow2 b)%Q.
Proof. apply Qpower_plus. discriminate. Qed.

Lemma pow2_Z (e : Z) : 0 <= e -> (pow2 e == inject_Z (2 ^ e))%Q.
Proof. intros H. unfold pow2. rewrite Zpower_Qpower by auto. reflexivity. Qed.

Lemma pow2_0 : (pow2 0 == 1)%Q.
Proof. reflexivity. Qed.

Lemma valQ_shift (m k e : Z) : 0 <= k -> (valQ (m * 2 ^ k) e == valQ m (k + e))%Q.
Proof.
  intros H. unfold valQ. rewrite pow2_add, (pow2_Z k), inject_Z_mult by auto. ring.
Qed.

Lemma valQ_le (a b e : Z) : a <= b -> (valQ a e <= valQ b e)%Q.
Proof.
  intros H. unfold valQ. apply Qmult_le_compat_r.
  - rewrite <- Zle_Qle. auto.
  - apply Qlt_le_weak, pow2_pos.
Qed.

Lemma valQ_lt (a b e : Z) : a < b -> (valQ a e < valQ b e)%Q.
Proof.
  intros H. unfold valQ. apply Qmult_lt_compat_r.
  - apply pow2_pos.
  - rewrite <- Zlt_Qlt. auto.
Qed.

Lemma valQ_0 (a : Z) : (valQ a 0 == inject_Z a)%Q.
Proof. unfold valQ. rewrite pow2_0. ring. Qed.

Lemma valQ_mul (a b ea eb : Z) : (valQ a ea * valQ b eb == valQ (a * b) (ea + eb))%Q.
Proof. unfold valQ. rewrite pow2_add, inject_Z_mult. ring. Qed.

Lemma valQ_scal (c a e : Z) : (inject_Z c * valQ a e == valQ (c * a) e)%Q.
Proof. unfold valQ. rewrite inject_Z_mult. ring. Qed.

(** Truncation of a positive finite float is the floor of its value. *)
Lemma shiftl_floor (m : positive) (e : Z) :
  (inject_Z (Z.shiftl (Zpos m) e) <= valQ (Zpos m) e)%Q /\
  (valQ (Zpos m) e < inject_Z (Z.shiftl (Zpos m) e + 1))%Q.
Proof.
  destruct (Z.le_gt_cases 0 e) as [He|He].
  - rewrite Z.shiftl_mul_pow2 by auto.
    rewrite <- (valQ_0 (Zpos m * 2 ^ e)), <- (valQ_0 (Zpos m * 2 ^ e + 1)).
    rewrite valQ_shift by auto. rewrite Z.add_0_r. split.
    + apply Qle_refl.
    + rewrite <- (Z.add_0_r e) at 1. rewrite <- valQ_shift by auto.
      apply valQ_lt. lia.
  - set (k := - e). assert (Hk : 0 < k) by (unfold k; lia).
    replace e with (- k) by (unfold k; lia).
    rewrite Z.shiftl_opp_r, Z.shiftr_div_pow2 by lia.
    assert (Hp : 0 < 2 ^ k) by (apply Z.pow_pos_nonneg; lia).
    pose proof (Z.div_mod (Zpos m) (2 ^ k) ltac:(lia)) as Hdm.
    pose proof (Z.mod_pos_bound (Zpos m) (2 ^ k) Hp) as Hmb.
    set (z := Zpos m / 2 ^ k) in *.
    assert (E : forall a, (inject_Z a == valQ (a * 2 ^ k) (- k))%Q).
    { intros a. rewrite valQ_shift by lia.
      replace (k + - k) with 0 by lia. symmetry. apply valQ_0. }
    rewrite (E z), (E (z + 1)). split.
    + apply valQ_le. nia.
    + apply valQ_lt. nia.
Qed.

(** ** The index computation in binary64 *)

(** The conversion of a positive [int] to [double] is exact. *)
Lemma f64_of_int_spec (n : Z) :
  1 <= n <= INT_MAX ->
  exists (m : positive) (d : Z),
    f64_of_int n = S754_finite false m (d - 53) /\
    1 <= d <= 31 /\
    Zpos m = n * 2 ^ (53 - d) /\
    2 ^ 52 <= Zpos m < 2 ^ 53.
Proof.
  unfold INT_MAX. intros Hn.
  destruct (Zdigits2_bounds n ltac:(lia)) as [Hdpos Hb].
  set (d := Zdigits2 n) in *.
  assert (Hd : d <= 31).
  { destruct (Z.le_gt_cases d 31) as [|Hgt]; auto. exfalso.
    assert (2 ^ 31 <= 2 ^ (d - 1)) by (apply Z.pow_le_mono_r; lia).
    change (2 ^ 31) with 2147483648 in *. lia. }
  assert (Hp : 0 < 2 ^ (53 - d)) by (apply Z.pow_pos_nonneg; lia).
  exists (Z.to_pos (n * 2 ^ (53 - d))), d.
  split.
  { unfold f64_of_int. rewrite binary_normalize_pos; fold d; auto; try lia.
    unfold emin. lia. }
  split; [lia|].
  rewrite Z2Pos.id by nia. split; auto.
  replace (2 ^ 53) with (2 ^ d * 2 ^ (53 - d))
    by (rewrite <- Z.pow_add_r by lia; f_equal; lia).
  replace (2 ^ 52) with (2 ^ (d - 1) * 2 ^ (53 - d))
    by (rewrite <- Z.pow_add_r by lia; f_equal; lia).
  nia.
Qed.

Lemma f64_of_int_value (n : Z) (m : positive) (d : Z) :
  1 <= d <= 31 -> Zpos m = n * 2 ^ (53 - d) ->
  (valQ (Zpos m) (d - 53) == inject_Z n)%Q.
Proof.
  intros Hd ->. rewrite valQ_shift by lia.
  replace (53 - d + (d - 53)) with 0 by lia. apply valQ_0.
Qed.

Lemma Zdigits2_lower (m k : Z) : 0 < m -> 2 ^ k <= m -> k < Zdigits2 m.
Proof.
  intros Hm H. destruct (Zdigits2_bounds m Hm) as [Hd Hb].
  destruct (Z.lt_ge_cases k (Zdigits2 m)) as [|Hge]; auto. exfalso.
  assert (2 ^ Zdigits2 m <= 2 ^ k) by (apply Z.pow_le_mono_r; lia). lia.
Qed.

Lemma Zdigits2_upper (m k : Z) : 0 < m -> m < 2 ^ k -> Zdigits2 m <= k.
Proof.
  intros Hm H. destruct (Zdigits2_bounds m Hm) as [Hd Hb].
  destruct (Z.le_gt_cases (Zdigits2 m) k) as [|Hgt]; auto. exfalso.
  assert (2 ^ k <= 2 ^ (Zdigits2 m - 1)) by (apply Z.pow_le_mono_r; lia). lia.
Qed.

(** [samplesPerBucket] is a positive finite double within the fraction
    [2 ^ - 53] of [len / buckets]. *)
Lemma samples_per_bucket_spec (L B : Z) :
  1 <= L <= INT_MAX -> 1 <= B <= INT_MAX ->
  exists (ms : positive) (es : Z),
    samples_per_bucket L B = S754_finite false ms es /\
    2 ^ 52 <= Zpos ms < 2 ^ 53 /\
    -83 <= es <= -21 /\
    (inject_Z (P53 * B) * valQ (Zpos ms) es <= inject_Z ((P53 + 1) * L))%Q /\
    (inject_Z ((P53 - 1) * L) <= inject_Z (P53 * B) * valQ (Zpos ms) es)%Q.
Proof.
  intros HL HB.
  destruct (f64_of_int_spec L HL) as (mL & dL & EL & HdL & HmL & HbL).
  destruct (f64_of_int_spec B HB) as (mB & dB & EB & HdB & HmB & HbB).
  unfold samples_per_bucket, f64_div. rewrite EL, EB. cbn [SFdiv xorb].
  assert (HdigL : Zdigits2 (Zpos mL) = 53) by (apply Zdigits2_unique; lia).
  assert (HdigB : Zdigits2 (Zpos mB) = 53) by (apply Zdigits2_unique; lia).
  destruct (SFdiv_core_binary_ok 53 1024 (Zpos mL) (dL - 53) (Zpos mB) (dB - 53))
    as (q & l & Ecore & Hloc); try lia.
  rewrite HdigL, HdigB in Ecore, Hloc.
  rewrite fexp_normal in Ecore, Hloc by (unfold emin; lia).
  set (e0 := dL - dB - 53).
  replace (Z.min (53 + (dL - 53) - (53 + (dB - 53)) - 53) (dL - 53 - (dB - 53)))
    with e0 in Ecore, Hloc by (unfold e0; lia).
  replace (dL - 53 - (dB - 53) - e0) with 53 in Hloc by (unfold e0; lia).
  rewrite Ecore.
  assert (Hq : 2 ^ 52 <= q < 2 ^ 54).
  { destruct Hloc as [[H1 H2] _].
    change (2 ^ 54) with (2 * 2 ^ 53). change (2 ^ 52) with 4503599627370496 in *.
    change (2 ^ 53) with 9007199254740992 in *. nia. }
  assert (Hq0 : 0 < q) by (change (2 ^ 52) with 4503599627370496 in Hq; lia).
  assert (Hdq : 53 <= Zdigits2 q <= 54).
  { pose proof (Zdigits2_lower q 52 Hq0 ltac:(lia)).
    pose proof (Zdigits2_upper q 54 Hq0 ltac:(lia)). lia. }
  destruct (binary_round_aux_normal 53 1024 ltac:(lia) false q e0 l
              (Zpos mL * 2 ^ 53) (Zpos mB) Hq0 ltac:(lia) Hloc)
    as (m & e & Eres & Hm & He & Hup & Hlo); try lia.
  { unfold emin, e0. lia. }
  rewrite Eres.
  replace (e <=? 1024 - 53) with true by (symmetry; apply Z.leb_le; unfold e0 in He; lia).
  exists (Z.to_pos m), e.
  assert (Hm0 : 0 < m) by (change (2 ^ (53 - 1)) with 4503599627370496 in Hm; lia).
  rewrite Z2Pos.id by lia.
  split; auto. split; [exact Hm|]. split; [unfold e0 in He; lia|].
  assert (Hval : (inject_Z B * valQ m e == valQ (m * 2 ^ (e - e0) * Zpos mB) (e0 + (dB - 53)))%Q).
  { rewrite HmB.
    replace (m * 2 ^ (e - e0) * (B * 2 ^ (53 - dB))) with (B * m * 2 ^ (e - e0) * 2 ^ (53 - dB)) by ring.
    rewrite !valQ_shift by lia.
    replace (53 - dB + (e0 + (dB - 53))) with e0 by lia.
    replace (e - e0 + e0) with e by lia.
    unfold valQ. rewrite inject_Z_mult. ring. }
  assert (HvalL : (inject_Z L == valQ (Zpos mL * 2 ^ 53) (e0 + (dB - 53)))%Q).
  { rewrite HmL.
    replace (L * 2 ^ (53 - dL) * 2 ^ 53) with (L * 2 ^ (53 - dL + 53))
      by (rewrite Z.pow_add_r by lia; ring).
    rewrite valQ_shift by lia.
    replace (53 - dL + 53 + (e0 + (dB - 53))) with 0 by (unfold e0; lia).
    symmetry. apply valQ_0. }
  change (2 ^ 53) with P53 in Hup, Hlo.
  split.
  - rewrite !inject_Z_mult, <- Qmult_assoc, Hval, HvalL, !valQ_scal.
    apply valQ_le. change (2 ^ 53) with P53. lia.
  - rewrite !inject_Z_mult, <- Qmult_assoc, Hval, HvalL, !valQ_scal.
    apply valQ_le. change (2 ^ 53) with P53. lia.
Qed.

(** Chaining the two relative error bounds. *)
Lemma chain_upper (z V S : Q) (p b B L : Q) :
  (0 < p -> 0 <= b -> 0 < B ->
   z <= V -> p * V <= (p + 1) * (b * S) -> (p * B) * S <= (p + 1) * L ->
   z * B * (p * p) <= (p + 1) * (p + 1) * b * L)%Q.
Proof.
  intros Hp Hb HB Hz HV HS.
  assert (H1 : (z * (p * (p * B)) <= V * (p * (p * B)))%Q).
  { apply Qmult_le_compat_r; auto. nra. }
  assert (H2 : ((p * V) * (p * B) <= (p + 1) * (b * S) * (p * B))%Q).
  { apply Qmult_le_compat_r; auto. nra. }
  assert (H3 : (((p + 1) * b) * ((p * B) * S) <= ((p + 1) * b) * ((p + 1) * L))%Q).
  { rewrite !(Qmult_comm ((p + 1) * b)). apply Qmult_le_compat_r; auto. nra. }
  lra.
Qed.

Lemma chain_lower (z1 V S : Q) (p b B L : Q) :
  (1 < p -> 0 <= b -> 0 < B ->
   V < z1 -> (p - 1) * (b * S) <= p * V -> (p - 1) * L <= (p * B) * S ->
   (p - 1) * (p - 1) * b * L < (p * p) * z1 * B)%Q.
Proof.
  intros Hp Hb HB Hz HV HS.
  assert (Hp0 : (0 < p)%Q) by lra.
  assert (HpB : (0 < p * B)%Q) by (apply Qmult_lt_0_compat; auto).
  assert (HppB : (0 < p * (p * B))%Q) by (apply Qmult_lt_0_compat; auto).
  assert (Hp1b : (0 <= (p - 1) * b)%Q) by (apply Qmult_le_0_compat; auto; lra).
  assert (H1 : (V * (p * (p * B)) < z1 * (p * (p * B)))%Q).
  { apply Qmult_lt_compat_r; auto. }
  assert (H2 : ((p - 1) * (b * S) * (p * B) <= (p * V) * (p * B))%Q).
  { apply Qmult_le_compat_r; auto. lra. }
  assert (H3 : (((p - 1) * b) * ((p - 1) * L) <= ((p - 1) * b) * ((p * B) * S))%Q).
  { rewrite !(Qmult_comm ((p - 1) * b)). apply Qmult_le_compat_r; auto. }
  lra.
Qed.

(** The truncated product [bucket * samplesPerBucket] is within two relative
    rounding errors and one truncation of [bucket * len / buckets]. *)
Lemma bucket_index_spec (L B b : Z) :
  1 <= L <= INT_MAX -> 1 <= B <= INT_MAX -> 0 <= b <= INT_MAX ->
  exists z,
    ftrunc (f64_mul (f64_of_int b) (samples_per_bucket L B)) = Some z /\
    0 <= z /\
    z * B * (P53 * P53) <= (P53 + 1) * (P53 + 1) * b * L /\
    (P53 - 1) * (P53 - 1) * b * L < P53 * P53 * (z + 1) * B.
Proof.
  intros HL HB Hb.
  destruct (samples_per_bucket_spec L B HL HB) as (ms & es & ES & Hms & Hes & Hup & Hlo).
  rewrite ES.
  destruct (Z.eq_dec b 0) as [->|Hb0].
  - exists 0. change (f64_of_int 0) with (S754_zero false).
    unfold f64_mul. cbn [SFmul ftrunc]. unfold P53. repeat split; lia.
  - destruct (f64_of_int_spec b ltac:(lia)) as (mb & db & Eb & Hdb & Hmb & Hbb).
    rewrite Eb. unfold f64_mul. cbn [SFmul xorb].
    set (ex := db - 53 + es).
    assert (Hprod : 2 ^ 104 <= Zpos (mb * ms) < 2 ^ 106).
    { rewrite Pos2Z.inj_mul.
      change (2 ^ 104) with (2 ^ 52 * 2 ^ 52). change (2 ^ 106) with (2 ^ 53 * 2 ^ 53).
      nia. }
    pose proof (Zdigits2_lower (Zpos (mb * ms)) 104 ltac:(lia) ltac:(lia)) as Hd1.
    pose proof (Zdigits2_upper (Zpos (mb * ms)) 106 ltac:(lia) ltac:(lia)) as Hd2.
    destruct (binary_round_aux_normal 53 1024 ltac:(lia) false (Zpos (mb * ms)) ex loc_Exact
                (Zpos (mb * ms)) 1 ltac:(lia) ltac:(lia))
      as (m & e & Eres & Hm & He & Hu & Hl); try lia.
    { unfold loc_ok. lia. }
    { unfold emin, ex. lia. }
    rewrite Eres.
    replace (e <=? 1024 - 53) with true by (symmetry; apply Z.leb_le; unfold ex in He; lia).
    assert (Hm0 : 0 < m) by (change (2 ^ (53 - 1)) with 4503599627370496 in Hm; lia).
    cbn [ftrunc].
    exists (Z.shiftl (Zpos (Z.to_pos m)) e).
    split; auto.
    destruct (shiftl_floor (Z.to_pos m) e) as [Hfl1 Hfl2].
    set (z := Z.shiftl (Zpos (Z.to_pos m)) e) in *.
    rewrite Z2Pos.id in Hfl1, Hfl2 by lia.
    assert (Hz : 0 <= z).
    { unfold z. apply Z.shiftl_nonneg. lia. }
    split; auto.
    (* values *)
    assert (EV : (valQ m e == valQ (m * 2 ^ (e - ex)) ex)%Q).
    { rewrite valQ_shift by lia. replace (e - ex + ex) with e by lia. reflexivity. }
    assert (EbS : (inject_Z b * valQ (Zpos ms) es == valQ (Zpos (mb * ms)) ex)%Q).
    { rewrite <- (f64_of_int_value b mb db) by auto.
      rewrite valQ_mul, Pos2Z.inj_mul. reflexivity. }
    change (2 ^ 53) with P53 in Hu, Hl.
    assert (HV1 : (inject_Z P53 * valQ m e <= (inject_Z P53 + 1) * (inject_Z b * valQ (Zpos ms) es))%Q).
    { rewrite EV, EbS. change 1%Q with (inject_Z 1). rewrite <- inject_Z_plus, !valQ_scal.
      apply valQ_le. lia. }
    assert (HV2 : ((inject_Z P53 - 1) * (inject_Z b * valQ (Zpos ms) es) <= inject_Z P53 * valQ m e)%Q).
    { rewrite EV, EbS. change 1%Q with (inject_Z 1).
      unfold Qminus. rewrite <- inject_Z_opp, <- inject_Z_plus, !valQ_scal.
      apply valQ_le. lia. }
    assert (Ep1 : (inject_Z (P53 + 1) == inject_Z P53 + 1)%Q)
      by (rewrite inject_Z_plus; reflexivity).
    assert (Em1 : (inject_Z (P53 - 1) == inject_Z P53 - 1)%Q)
      by (unfold Z.sub; rewrite inject_Z_plus, inject_Z_opp; reflexivity).
    rewrite !inject_Z_mult, Ep1 in Hup.
    rewrite !inject_Z_mult, Em1 in Hlo.
    assert (HpQ : (1 < inject_Z P53)%Q) by (change 1%Q with (inject_Z 1); rewrite <- Zlt_Qlt; unfold P53; lia).
    assert (HbQ : (0 <= inject_Z b)%Q) by (change 0%Q with (inject_Z 0); rewrite <- Zle_Qle; lia).
    assert (HBQ : (0 < inject_Z B)%Q) by (change 0%Q with (inject_Z 0); rewrite <- Zlt_Qlt; lia).
    split.
    + rewrite Zle_Qle. rewrite !inject_Z_mult, Ep1.
      apply (chain_upper _ (valQ m e) (valQ (Zpos ms) es)); auto; lra.
    + rewrite Zlt_Qlt. rewrite !inject_Z_mult, Em1.
      apply (chain_lower _ (valQ m e) (valQ (Zpos ms) es)); auto.
Qed.

Lemma index_upper (z b L B : Z) :
  1 <= L <= INT_MAX -> 1 <= B <= INT_MAX -> 0 <= b <= B -> 0 <= z ->
  z * B * (P53 * P53) <= (P53 + 1) * (P53 + 1) * b * L ->
  z <= L /\ (b < B -> z < L).
Proof.
  unfold INT_MAX, P53. intros HL HB Hb Hz H. split.
  - destruct (Z.le_gt_cases z L) as [|Hgt]; auto. exfalso.
    assert (H1 : (L + 1) * B * (9007199254740992 * 9007199254740992) <= z * B * (9007199254740992 * 9007199254740992)) by nia.
    assert (H2 : (9007199254740992 + 1) * (9007199254740992 + 1) * b * L
                 <= (9007199254740992 + 1) * (9007199254740992 + 1) * B * L) by nia.
    assert (H3 : 0 < 9007199254740992 * 9007199254740992 - (2 * 9007199254740992 + 1) * L) by lia.
    nia.
  - intros Hlt.
    destruct (Z.lt_ge_cases z L) as [|Hge]; auto. exfalso.
    assert (H1 : L * B * (9007199254740992 * 9007199254740992) <= z * B * (9007199254740992 * 9007199254740992)) by nia.
    assert (H2 : (9007199254740992 + 1) * (9007199254740992 + 1) * b * L
                 <= (9007199254740992 + 1) * (9007199254740992 + 1) * (B - 1) * L) by nia.
    assert (H3 : 0 < 9007199254740992 * 9007199254740992 - (2 * 9007199254740992 + 1) * (B - 1)) by lia.
    nia.
Qed.

Lemma index_order (z1 z2 b1 b2 L B : Z) :
  1 <= L -> 1 <= B -> 0 <= b1 < b2 -> b2 <= INT_MAX ->
  z1 * B * (P53 * P53) <= (P53 + 1) * (P53 + 1) * b1 * L ->
  (P53 - 1) * (P53 - 1) * b2 * L < P53 * P53 * (z2 + 1) * B ->
  z1 <= z2.
Proof.
  unfold INT_MAX, P53. intros HL HB Hb1 Hb2 H1 H2.
  assert (H3 : (9007199254740992 + 1) * (9007199254740992 + 1) * b1
               <= (9007199254740992 - 1) * (9007199254740992 - 1) * b2) by lia.
  assert (H4 : (9007199254740992 + 1) * (9007199254740992 + 1) * b1 * L
               <= (9007199254740992 - 1) * (9007199254740992 - 1) * b2 * L) by nia.
  assert (H5 : z1 * B * (9007199254740992 * 9007199254740992)
               < (z2 + 1) * B * (9007199254740992 * 9007199254740992)) by lia.
  destruct (Z.le_gt_cases z1 z2) as [|Hgt]; auto. exfalso.
  assert (z2 + 1 <= z1) by lia.
  assert ((z2 + 1) * B <= z1 * B) by nia.
  nia.
Qed.

Lemma bucket_start_spec (L B b : Z) :
  1 <= L <= INT_MAX -> 1 <= B <= INT_MAX -> 0 <= b <= B ->
  exists z,
    bucket_start (samples_per_bucket L B) b = Some z /\
    0 <= z <= L /\ (b < B -> z < L) /\ (b = 0 -> z = 0) /\
    z * B * (P53 * P53) <= (P53 + 1) * (P53 + 1) * b * L /\
    (P53 - 1) * (P53 - 1) * b * L < P53 * P53 * (z + 1) * B.
Proof.
  intros HL HB Hb.
  destruct (bucket_index_spec L B b HL HB ltac:(lia)) as (z & Ez & Hz & Hup & Hlo).
  destruct (index_upper z b L B HL HB Hb Hz Hup) as [HzL HzL'].
  exists z. unfold bucket_start, fptosi. rewrite Ez.
  replace (in_int32 z) with true.
  2:{ symmetry. unfold in_int32, INT_MIN, INT_MAX in *.
      apply andb_true_iff. split; apply Z.leb_le; lia. }
  repeat split; auto; try lia.
  intros ->. unfold P53 in Hup. nia.
Qed.

Lemma bucket_start_mono (L B b1 b2 z1 z2 : Z) :
  1 <= L <= INT_MAX -> 1 <= B <= INT_MAX -> 0 <= b1 <= b2 -> b2 <= B ->
  bucket_start (samples_per_bucket L B) b1 = Some z1 ->
  bucket_start (samples_per_bucket L B) b2 = Some z2 ->
  z1 <= z2.
Proof.
  intros HL HB Hb1 Hb2 E1 E2.
  destruct (Z.eq_dec b1 b2) as [->|Hne].
  { rewrite E1 in E2. injection E2 as ->. lia. }
  destruct (bucket_start_spec L B b1 HL HB ltac:(lia)) as (z1' & E1' & _ & _ & _ & Hup & _).
  destruct (bucket_start_spec L B b2 HL HB ltac:(lia)) as (z2' & E2' & _ & _ & _ & _ & Hlo).
  rewrite E1 in E1'. rewrite E2 in E2'. injection E1' as <-. injection E2' as <-.
  eapply index_order; eauto; lia.
Qed.

(** ** Scan ranges *)

Lemma bucket_raw_end_eq (spb : float) (b : Z) :
  0 <= b < INT_MAX -> bucket_raw_end spb b = bucket_start spb (b + 1).
Proof.
  intros H. unfold bucket_raw_end, bucket_start.
  rewrite wrap32_small by (unfold INT_MIN, INT_MAX in *; lia). reflexivity.
Qed.

Lemma adjust_end_eq (len s r : Z) :
  0 <= s < len -> len <= INT_MAX -> r <= len ->
  adjust_end len s r = if r <=? s then s + 1 else r.
Proof.
  intros Hs Hlen Hr. unfold adjust_end.
  destruct (Z.leb_spec r s).
  - rewrite wrap32_small by (unfold INT_MIN, INT_MAX in *; lia).
    destruct (Z.gtb_spec (s + 1) len); auto. lia.
  - destruct (Z.gtb_spec r len); auto. lia.
Qed.

(** The range of every bucket of a valid call: defined, non-empty, inside
    the sample buffer. *)
Lemma bucket_range_spec (L B b : Z) :
  1 <= L <= INT_MAX -> 1 <= B <= INT_MAX -> 0 <= b < B ->
  exists s r,
    bucket_start (samples_per_bucket L B) b = Some s /\
    bucket_start (samples_per_bucket L B) (b + 1) = Some r /\
    bucket_range L (samples_per_bucket L B) b = Some (s, if r <=? s then s + 1 else r) /\
    0 <= s < L /\ s <= r <= L /\ (b = 0 -> s = 0).
Proof.
  intros HL HB Hb.
  destruct (bucket_start_spec L B b HL HB ltac:(lia)) as (s & Es & Hs & HsL & Hs0 & _).
  destruct (bucket_start_spec L B (b + 1) HL HB ltac:(lia)) as (r & Er & Hr & _).
  pose proof (bucket_start_mono L B b (b + 1) s r HL HB ltac:(lia) ltac:(lia) Es Er) as Hsr.
  exists s, r. repeat split; auto; try lia.
  unfold bucket_range. rewrite Es, bucket_raw_end_eq, Er by lia.
  rewrite adjust_end_eq by lia. reflexivity.
Qed.

(** ** The scan *)

Lemma scan_spec (smp : list float) (n : nat) :
  forall (i : Z) (mn mx mn' mx' : float) (evs : list event),
    0 <= i -> i + Z.of_nat n <= INT_MAX ->
    scan smp n i mn mx = Some (mn', mx', evs) ->
    evs = map Read (zseq i n) /\
    (forall k, i <= k < i + Z.of_nat n -> exists v, load smp k = Some v).
Proof.
  induction n as [|n IH]; intros i mn mx mn' mx' evs Hi Hn H.
  - simpl in H. injection H as <- <- <-. split; auto. intros k Hk. lia.
  - cbn [scan] in H.
    destruct (load smp i) as [v|] eqn:Ev; try discriminate.
    rewrite wrap32_small in H by (unfold INT_MIN, INT_MAX in *; lia).
    destruct (scan smp n (i + 1) _ _) as [[[a c] e]|] eqn:Es; try discriminate.
    injection H as <- <- <-.
    apply IH in Es as [-> Hld]; try lia.
    split; auto.
    intros k Hk. destruct (Z.eq_dec k i) as [->|Hne]; eauto.
    apply Hld. lia.
Qed.

Lemma scan_defined (smp : list float) (n : nat) :
  forall (i : Z) (mn mx : float),
    0 <= i -> i + Z.of_nat n <= INT_MAX ->
    i + Z.of_nat n <= Z.of_nat (length smp) ->
    exists mn' mx' evs, scan smp n i mn mx = Some (mn', mx', evs).
Proof.
  induction n as [|n IH]; intros i mn mx Hi Hn Hlen.
  - simpl. eauto.
  - cbn [scan].
    destruct (load_defined smp i ltac:(lia)) as [v ->].
    rewrite wrap32_small by (unfold INT_MIN, INT_MAX in *; lia).
    destruct (IH (i + 1) (if f_lt v mn then v else mn) (if f_lt mx v then v else mx))
      as (a & c & e & ->); try lia.
    eauto.
Qed.

(** The scan only depends on the samples of its range. *)
Lemma scan_ext (smp1 smp2 : list float) (n : nat) :
  forall (i : Z) (mn mx : float),
    0 <= i -> i + Z.of_nat n <= INT_MAX ->
    (forall k, i <= k < i + Z.of_nat n -> load smp1 k = load smp2 k) ->
    scan smp1 n i mn mx = scan smp2 n i mn mx.
Proof.
  induction n as [|n IH]; intros i mn mx Hi Hn H; auto.
  cbn [scan]. rewrite <- (H i) by lia.
  destruct (load smp1 i) as [v|]; auto.
  rewrite wrap32_small by (unfold INT_MIN, INT_MAX in *; lia).
  rewrite IH; auto; try lia.
  intros k Hk. apply H. lia.
Qed.

(** A relation between the two bounds that every update preserves holds at
    the end of the scan. *)
Lemma scan_invariant (R : float -> float -> Prop) (smp : list float) (n : nat) :
  forall (i : Z) (mn mx mn' mx' : float) (evs : list event),
    0 <= i -> i + Z.of_nat n <= INT_MAX ->
    R mn mx ->
    (forall a c k v, R a c -> i <= k < i + Z.of_nat n -> load smp k = Some v ->
                     R (if f_lt v a then v else a) (if f_lt c v then v else c)) ->
    scan smp n i mn mx = Some (mn', mx', evs) ->
    R mn' mx'.
Proof.
  induction n as [|n IH]; intros i mn mx mn' mx' evs Hi Hn HR Hstep H.
  - simpl in H. injection H as <- <- <-. auto.
  - cbn [scan] in H.
    destruct (load smp i) as [v|] eqn:Ev; try discriminate.
    rewrite wrap32_small in H by (unfold INT_MIN, INT_MAX in *; lia).
    destruct (scan smp n (i + 1) _ _) as [[[a c] e]|] eqn:Es; try discriminate.
    injection H as <- <- <-.
    eapply IH in Es; eauto; try lia.
    + eapply Hstep; eauto. lia.
    + intros a0 c0 k v0 HR0 Hk Hv0. eapply Hstep; eauto. lia.
Qed.

(** ** The whole call *)

Lemma samples_ok_load (smp : list float) (len k : Z) (v : float) :
  samples_ok smp len = true -> 0 <= k < len -> load smp k = Some v ->
  sample_ok v = true.
Proof.
  unfold samples_ok, load. intros Hok Hk Hv.
  destruct (k <? 0) eqn:E; try discriminate.
  rewrite forallb_forall in Hok. apply Hok.
  apply (nth_error_In _ (Z.to_nat k)).
  rewrite nth_error_firstn.
  replace (Z.to_nat k <? Z.to_nat len)%nat with true; auto.
  symmetry. apply Nat.ltb_lt. lia.
Qed.

Lemma f_lt_nan_l (a : float) : f_lt S754_nan a = false.
Proof. reflexivity. Qed.

Lemma f_lt_nan_r (a : float) : f_lt a S754_nan = false.
Proof. destruct a; reflexivity. Qed.

Lemma f_lt_not_nan (a c : float) : f_lt a c = true -> is_nan a = false /\ is_nan c = false.
Proof.
  destruct a, c; try discriminate; auto.
Qed.

(** With scalable samples every bucket of a valid call has a defined
    result. *)
Lemma bucket_result_defined (smp : list float) (L B b : Z) :
  1 <= L <= INT_MAX -> 1 <= B <= INT_MAX -> 0 <= b < B ->
  L <= Z.of_nat (length smp) -> samples_ok smp L = true ->
  bucket_result smp L (samples_per_bucket L B) b <> None.
Proof.
  intros HL HB Hb Hlen Hok.
  destruct (bucket_range_spec L B b HL HB Hb) as (s & r & _ & _ & Er & Hs & Hr & _).
  unfold bucket_result, bucket_bounds. rewrite Er.
  set (e := if r <=? s then s + 1 else r).
  assert (He : s < e <= L) by (unfold e; destruct (Z.leb_spec r s); lia).
  destruct (scan_defined smp (Z.to_nat (e - s)) s f32_one f32_minus_one)
    as (mn & mx & rd & Esc); try lia.
  rewrite Esc.
  assert (HR : fptosi (f32_mul mn f32_32768) <> None /\ fptosi (f32_mul mx f32_32767) <> None).
  { apply (scan_invariant
             (fun a c => fptosi (f32_mul a f32_32768) <> None /\
                         fptosi (f32_mul c f32_32767) <> None)
             smp (Z.to_nat (e - s)) s f32_one f32_minus_one mn mx rd); auto; try lia.
    - split; discriminate.
    - intros a c k v [Ha Hc] Hk Hv.
      pose proof (samples_ok_load smp L k v Hok ltac:(lia) Hv) as Hsv.
      unfold sample_ok, scalable in Hsv.
      split.
      + destruct (f_lt v a) eqn:Elt; auto.
        apply f_lt_not_nan in Elt as [Hn _]. rewrite Hn in Hsv. simpl in Hsv.
        destruct (fptosi (f32_mul v f32_32768)); try discriminate.
      + destruct (f_lt c v) eqn:Elt; auto.
        apply f_lt_not_nan in Elt as [_ Hn]. rewrite Hn in Hsv. simpl in Hsv.
        destruct (fptosi (f32_mul v f32_32768)); try discriminate.
        destruct (fptosi (f32_mul v f32_32767)); try discriminate. }
  destruct HR as [H1 H2]. unfold scale_pair.
  destruct (fptosi (f32_mul mn f32_32768)); try congruence.
  destruct (fptosi (f32_mul mx f32_32767)); try congruence.
Qed.

Lemma compute_peaks_valid (smp : list float) (L B : Z) (out : list Z) :
  1 <= L -> 1 <= B ->
  compute_peaks (Some smp) L B (Some out) =
  match bucket_loop smp L (samples_per_bucket L B) (Z.to_nat B) 0 out with
  | None => None
  | Some (out', evs) => Some (Some out', evs)
  end.
Proof.
  intros HL HB. unfold compute_peaks.
  replace (L <=? 0) with false by (symmetry; apply Z.leb_gt; lia).
  replace (B <=? 0) with false by (symmetry; apply Z.leb_gt; lia).
  reflexivity.
Qed.

(** More than [MAX_BUCKETS] buckets: the index computation overflows. *)
Lemma compute_peaks_overflow (smp : list float) (L B : Z) (out : list Z) :
  1 <= L -> MAX_BUCKETS < B ->
  compute_peaks (Some smp) L B (Some out) = None.
Proof.
  intros HL HB. rewrite compute_peaks_valid by (unfold MAX_BUCKETS in *; lia).
  rewrite bucket_loop_overflow; auto; unfold MAX_BUCKETS in *; lia.
Qed.

(** What a defined run of a valid call has done. *)
Lemma compute_peaks_spec (smp : list float) (L B : Z) (out : list Z)
      (res : option (list Z)) (evs : list event) :
  1 <= L -> 1 <= B ->
  compute_peaks (Some smp) L B (Some out) = Some (res, evs) ->
  B <= MAX_BUCKETS /\
  exists out',
    res = Some out' /\
    length out' = length out /\
    2 * B <= Z.of_nat (length out) /\
    evs = bucket_events smp L (samples_per_bucket L B) (Z.to_nat B) 0 /\
    (forall j, 2 * B <= j -> load out' j = load out j) /\
    (forall b, 0 <= b < B ->
       exists v0 v1 rd,
         bucket_result smp L (samples_per_bucket L B) b = Some (v0, v1, rd) /\
         load out' (2 * b) = Some v0 /\ load out' (2 * b + 1) = Some v1).
Proof.
  intros HL HB H.
  destruct (Z.le_gt_cases B MAX_BUCKETS) as [Hmax|Hmax].
  2:{ rewrite compute_peaks_overflow in H by auto. discriminate. }
  split; auto.
  rewrite compute_peaks_valid in H by auto.
  destruct (bucket_loop _ _ _ _ _ _) as [[out' evs']|] eqn:El; try discriminate.
  injection H as <- <-.
  apply bucket_loop_spec in El as (Hlen & Hevs & Hsz & Hout & Hin); try lia.
  exists out'. repeat split; auto.
  - specialize (Hsz ltac:(lia)). lia.
  - intros j Hj. apply Hout. lia.
  - intros b Hb. apply Hin. lia.
Qed.

Lemma compute_peaks_defined (smp : list float) (L B : Z) (out : list Z) :
  1 <= L <= INT_MAX -> 1 <= B <= MAX_BUCKETS ->
  L <= Z.of_nat (length smp) -> 2 * B <= Z.of_nat (length out) ->
  samples_ok smp L = true ->
  exists out' evs, compute_peaks (Some smp) L B (Some out) = Some (Some out', evs).
Proof.
  intros HL HB Hls Hlo Hok.
  rewrite compute_peaks_valid by lia.
  destruct (bucket_loop_defined smp L (samples_per_bucket L B) (Z.to_nat B) 0 out)
    as (out' & evs & ->); try lia; eauto.
  intros b Hb. apply bucket_result_defined; auto; unfold MAX_BUCKETS, INT_MAX in *; lia.
Qed.

(** ** The access log *)

Lemma zseq_In (x lo : Z) (n : nat) : In x (zseq lo n) <-> lo <= x < lo + Z.of_nat n.
Proof.
  revert lo. induction n as [|n IH]; intros lo; cbn [zseq In].
  - lia.
  - rewrite IH. lia.
Qed.

Lemma zseq_app (lo : Z) (n k : nat) :
  zseq lo (n + k) = zseq lo n ++ zseq (lo + Z.of_nat n) k.
Proof.
  revert lo. induction n as [|n IH]; intros lo.
  - simpl. f_equal. lia.
  - cbn [zseq Nat.add app]. rewrite IH. do 3 f_equal. lia.
Qed.

Lemma write_indices_app (l1 l2 : list event) :
  write_indices (l1 ++ l2) = write_indices l1 ++ write_indices l2.
Proof. apply flat_map_app. Qed.

Lemma read_indices_app (l1 l2 : list event) :
  read_indices (l1 ++ l2) = read_indices l1 ++ read_indices l2.
Proof. apply flat_map_app. Qed.

Lemma written_values_app (l1 l2 : list event) :
  written_values (l1 ++ l2) = written_values l1 ++ written_values l2.
Proof. apply flat_map_app. Qed.

Lemma write_indices_reads (l : list Z) : write_indices (map Read l) = [].
Proof. induction l; simpl; auto. Qed.

Lemma written_values_reads (l : list Z) : written_values (map Read l) = [].
Proof. induction l; simpl; auto. Qed.

Lemma read_indices_reads (l : list Z) : read_indices (map Read l) = l.
Proof. induction l as [|x l IH]; simpl; auto. f_equal. exact IH. Qed.

(** The reads of a bucket are those of its scan range. *)
Lemma bucket_result_reads (smp : list float) (L B b v0 v1 : Z) (rd : list event) :
  1 <= L <= INT_MAX -> 1 <= B <= INT_MAX -> 0 <= b < B ->
  bucket_result smp L (samples_per_bucket L B) b = Some (v0, v1, rd) ->
  exists s e,
    bucket_range L (samples_per_bucket L B) b = Some (s, e) /\
    0 <= s < e /\ e <= L /\
    rd = map Read (zseq s (Z.to_nat (e - s))).
Proof.
  intros HL HB Hb H.
  destruct (bucket_range_spec L B b HL HB Hb) as (s & r & _ & _ & Er & Hs & Hr & _).
  unfold bucket_result, bucket_bounds in H. rewrite Er in H.
  set (e := if r <=? s then s + 1 else r) in *.
  assert (He : s < e <= L) by (unfold e; destruct (Z.leb_spec r s); lia).
  destruct (scan smp _ s f32_one f32_minus_one) as [[[mn mx] rd']|] eqn:Esc; try discriminate.
  destruct (scale_pair mn mx) as [[a c]|]; try discriminate.
  injection H as <- <- <-.
  apply scan_spec in Esc as [-> _]; try lia.
  exists s, e. repeat split; auto; lia.
Qed.

Lemma bucket_events_writes (smp : list float) (L B : Z) (n : nat) :
  forall b0 : Z,
    1 <= L <= INT_MAX -> 1 <= B <= INT_MAX -> 0 <= b0 -> b0 + Z.of_nat n <= B ->
    (forall b, b0 <= b < b0 + Z.of_nat n ->
               bucket_result smp L (samples_per_bucket L B) b <> None) ->
    write_indices (bucket_events smp L (samples_per_bucket L B) n b0)
    = zseq (2 * b0) (2 * n) /\
    Forall (fun i => 0 <= i < L)
           (read_indices (bucket_events smp L (samples_per_bucket L B) n b0)) /\
    Forall (fun v => -32768 <= v <= 32767)
           (written_values (bucket_events smp L (samples_per_bucket L B) n b0)).
Proof.
  induction n as [|n IH]; intros b0 HL HB Hb0 Hn Hres.
  - simpl. auto.
  - cbn [bucket_events].
    destruct (bucket_result smp L (samples_per_bucket L B) b0) as [[[v0 v1] rd]|] eqn:E.
    2:{ exfalso. apply (Hres b0); auto. lia. }
    destruct (bucket_result_reads smp L B b0 v0 v1 rd HL HB ltac:(lia) E)
      as (s & e & _ & Hs & He & ->).
    destruct (IH (b0 + 1) HL HB ltac:(lia) ltac:(lia)) as (IHw & IHr & IHv).
    { intros b Hb. apply Hres. lia. }
    assert (Hv : -32768 <= v0 <= 32767 /\ -32768 <= v1 <= 32767).
    { unfold bucket_result in E.
      destruct (bucket_bounds _ _ _ _) as [[[mn mx] rd']|]; try discriminate.
      unfold scale_pair in E.
      destruct (fptosi (f32_mul mn f32_32768)); try discriminate.
      destruct (fptosi (f32_mul mx f32_32767)); try discriminate.
      injection E as <- <- _. rewrite !wrap16_clamp16.
      split; apply clamp16_range. }
    rewrite !write_indices_app, !read_indices_app, !written_values_app.
    rewrite write_indices_reads, read_indices_reads, written_values_reads, IHw.
    split; [|split].
    + cbn [write_indices flat_map app].
      replace (2 * S n)%nat with (S (S (2 * n))) by lia.
      cbn [zseq]. f_equal; [lia|]. f_equal; [lia|]. f_equal. lia.
    + cbn [read_indices flat_map app]. rewrite app_nil_r.
      apply Forall_app. split.
      * apply Forall_forall. intros x Hx. apply zseq_In in Hx. lia.
      * exact IHr.
    + cbn [written_values flat_map app]. repeat constructor; try lia. exact IHv.
Qed.

(** ** Conversion to integer *)




Lemma fptosi_some (f : float) (z : Z) :
  fptosi f = Some z -> ftrunc f = Some z /\ INT_MIN <= z <= INT_MAX.
Proof.
  unfold fptosi. destruct (ftrunc f) as [t|]; try discriminate.
  destruct (in_int32 t) eqn:E; try discriminate.
  intros [= <-]. split; auto.
  unfold in_int32 in E. apply andb_true_iff in E as [E1 E2].
  apply Z.leb_le in E1, E2. lia.
Qed.

(** ** Buffers, extensionally *)

Lemma load_ext {A : Type} (l1 l2 : list A) :
  (forall j, load l1 j = load l2 j) -> l1 = l2.
Proof.
  intros H. apply nth_error_ext. intros n.
  specialize (H (Z.of_nat n)). unfold load in H.
  replace (Z.of_nat n <? 0) with false in H by (symmetry; apply Z.ltb_ge; lia).
  rewrite Nat2Z.id in H. exact H.
Qed.

Lemma firstn_load_ext {A : Type} (l1 l2 : list A) (n : Z) :
  (forall j, 0 <= j < n -> load l1 j = load l2 j) ->
  firstn (Z.to_nat n) l1 = firstn (Z.to_nat n) l2.
Proof.
  intros H. apply nth_error_ext. intros k. rewrite !nth_error_firstn.
  destruct (Nat.ltb_spec k (Z.to_nat n)); auto.
  specialize (H (Z.of_nat k) ltac:(lia)). unfold load in H.
  replace (Z.of_nat k <? 0) with false in H by (symmetry; apply Z.ltb_ge; lia).
  rewrite Nat2Z.id in H. exact H.
Qed.

(** ** One bucket of a defined run *)

Lemma bucket_result_inv (smp : list float) (L : Z) (spb : float) (b v0 v1 : Z)
      (rd : list event) :
  bucket_result smp L spb b = Some (v0, v1, rd) ->
  exists s e mn mx sMin sMax,
    bucket_range L spb b = Some (s, e) /\
    scan smp (Z.to_nat (e - s)) s f32_one f32_minus_one = Some (mn, mx, rd) /\
    fptosi (f32_mul mn f32_32768) = Some sMin /\
    fptosi (f32_mul mx f32_32767) = Some sMax /\
    v0 = clamp16 sMin /\ v1 = clamp16 sMax.
Proof.
  unfold bucket_result, bucket_bounds, scale_pair. intros H.
  destruct (bucket_range L spb b) as [[s e]|]; try discriminate.
  destruct (scan smp _ s f32_one f32_minus_one) as [[[mn mx] rd']|] eqn:Esc;
    try discriminate.
  destruct (fptosi (f32_mul mn f32_32768)) as [sMin|] eqn:E1; try discriminate.
  destruct (fptosi (f32_mul mx f32_32767)) as [sMax|] eqn:E2; try discriminate.
  injection H as <- <- <-. rewrite !wrap16_clamp16.
  exists s, e, mn, mx, sMin, sMax. repeat split; auto.
Qed.

(** ** The order of floats *)

Lemma SFcompare_fkey (a c : float) :
  match fkey a, fkey c with
  | Some ka, Some kc =>
      (SFcompare a c = Some Lt /\ key_lt ka kc) \/
      (SFcompare a c = Some Eq /\ key_le ka kc /\ key_le kc ka) \/
      (SFcompare a c = Some Gt /\ key_lt kc ka)
  | _, _ => SFcompare a c = None
  end.
Proof.
  destruct a as [sa|sa| |sa ma ea], c as [sc|sc| |sc mc ec];
    cbn [fkey SFcompare]; auto;
    try (destruct sa; cbn [key_lt key_le]; intuition lia);
    try (destruct sc; cbn [key_lt key_le]; intuition lia);
    try (destruct sa, sc; cbn [key_lt key_le]; intuition lia).
  destruct sa, sc; cbn [key_lt key_le]; try (intuition lia).
  - destruct (Z.compare_spec ea ec) as [->|H|H]; try (intuition lia).
    rewrite Pos.compare_cont_spec. cbn [Pos.switch_Eq].
    destruct (Pos.compare_spec ma mc) as [->|H|H]; cbn [CompOpp]; intuition lia.
  - destruct (Z.compare_spec ea ec) as [->|H|H]; try (intuition lia).
    rewrite Pos.compare_cont_spec. cbn [Pos.switch_Eq].
    destruct (Pos.compare_spec ma mc) as [->|H|H]; intuition lia.
Qed.

Lemma fkey_not_nan (f : float) : is_nan f = false -> exists k, fkey f = Some k.
Proof. destruct f; try discriminate; cbn [fkey]; eauto. Qed.

Lemma fkey_some_not_nan (f : float) (k : Z * Z * Z) : fkey f = Some k -> is_nan f = false.
Proof. destruct f; try discriminate; auto. Qed.

Lemma f_le_iff (a c : float) :
  f_le a c = true <->
  exists ka kc, fkey a = Some ka /\ fkey c = Some kc /\ key_le ka kc.
Proof.
  unfold f_le, SFleb. pose proof (SFcompare_fkey a c) as H.
  destruct (fkey a) as [[[a1 a2] a3]|], (fkey c) as [[[c1 c2] c3]|].
  - cbn [key_lt key_le] in H. split.
    + intros E. exists (a1, a2, a3), (c1, c2, c3). repeat split; auto.
      cbn [key_le].
      destruct H as [[H1 H2]|[[H1 [H2 H3]]|[H1 H2]]]; rewrite H1 in E;
        try discriminate; lia.
    + intros (ka & kc & [= <-] & [= <-] & Hle). cbn [key_le] in Hle.
      destruct H as [[H1 H2]|[[H1 [H2 H3]]|[H1 H2]]]; rewrite H1; auto. lia.
  - rewrite H. split; [discriminate|]. intros (ka & kc & _ & E & _). discriminate.
  - rewrite H. split; [discriminate|]. intros (ka & kc & E & _). discriminate.
  - rewrite H. split; [discriminate|]. intros (ka & kc & E & _). discriminate.
Qed.

Lemma f_lt_iff (a c : float) :
  f_lt a c = true <->
  exists ka kc, fkey a = Some ka /\ fkey c = Some kc /\ key_lt ka kc.
Proof.
  unfold f_lt, SFltb. pose proof (SFcompare_fkey a c) as H.
  destruct (fkey a) as [[[a1 a2] a3]|], (fkey c) as [[[c1 c2] c3]|].
  - cbn [key_lt key_le] in H. split.
    + intros E. exists (a1, a2, a3), (c1, c2, c3). repeat split; auto.
      cbn [key_lt].
      destruct H as [[H1 H2]|[[H1 [H2 H3]]|[H1 H2]]]; rewrite H1 in E;
        try discriminate; lia.
    + intros (ka & kc & [= <-] & [= <-] & Hlt). cbn [key_lt] in Hlt.
      destruct H as [[H1 H2]|[[H1 [H2 H3]]|[H1 H2]]]; rewrite H1; auto; lia.
  - rewrite H. split; [discriminate|]. intros (ka & kc & _ & E & _). discriminate.
  - rewrite H. split; [discriminate|]. intros (ka & kc & E & _). discriminate.
  - rewrite H. split; [discriminate|]. intros (ka & kc & E & _). discriminate.
Qed.

Lemma f_le_refl (a : float) : is_nan a = false -> f_le a a = true.
Proof.
  intros H. apply f_le_iff. destruct (fkey_not_nan a H) as [[[a1 a2] a3] E].
  exists (a1, a2, a3), (a1, a2, a3). repeat split; auto. cbn [key_le]. lia.
Qed.

Lemma f_le_trans (a c d : float) : f_le a c = true -> f_le c d = true -> f_le a d = true.
Proof.
  rewrite !f_le_iff.
  intros ([[a1 a2] a3] & [[c1 c2] c3] & Ea & Ec & H1)
         ([[c1' c2'] c3'] & [[d1 d2] d3] & Ec' & Ed & H2).
  rewrite Ec in Ec'. injection Ec' as <- <- <-.
  exists (a1, a2, a3), (d1, d2, d3). repeat split; auto.
  cbn [key_le] in *. lia.
Qed.

Lemma f_lt_le (a c : float) : f_lt a c = true -> f_le a c = true.
Proof.
  rewrite f_lt_iff, f_le_iff.
  intros ([[a1 a2] a3] & [[c1 c2] c3] & Ea & Ec & H).
  exists (a1, a2, a3), (c1, c2, c3). repeat split; auto.
  cbn [key_lt key_le] in *. lia.
Qed.

Lemma f_nlt_le (a c : float) :
  is_nan a = false -> is_nan c = false -> f_lt a c = false -> f_le c a = true.
Proof.
  intros Ha Hc H. apply f_le_iff.
  destruct (fkey_not_nan a Ha) as [[[a1 a2] a3] Ea].
  destruct (fkey_not_nan c Hc) as [[[c1 c2] c3] Ec].
  exists (c1, c2, c3), (a1, a2, a3). repeat split; auto.
  assert (Hn : ~ key_lt (a1, a2, a3) (c1, c2, c3)).
  { intros Hlt. assert (f_lt a c = true); [|congruence].
    apply f_lt_iff. eauto. }
  cbn [key_lt key_le] in *. lia.
Qed.

Lemma f_le_not_nan (a c : float) : f_le a c = true -> is_nan a = false /\ is_nan c = false.
Proof.
  rewrite f_le_iff. intros (ka & kc & Ea & Ec & _).
  split; eapply fkey_some_not_nan; eauto.
Qed.

(** One update of the two bounds keeps them ordered. *)
Lemma update_ordered (a c v : float) :
  f_le a c = true ->
  f_le (if f_lt v a then v else a) (if f_lt c v then v else c) = true.
Proof.
  intros H. destruct (f_le_not_nan a c H) as [Ha Hc].
  destruct (is_nan v) eqn:Hv.
  - destruct v; try discriminate. rewrite f_lt_nan_l, f_lt_nan_r. exact H.
  - destruct (f_lt v a) eqn:E1, (f_lt c v) eqn:E2.
    + apply f_le_refl. exact Hv.
    + apply f_le_trans with a; auto. apply f_lt_le. exact E1.
    + apply f_le_trans with c; auto. apply f_lt_le. exact E2.
    + exact H.
Qed.

(** The first sample that is not NaN orders the initial bounds. *)
Lemma update_initial (v : float) :
  is_nan v = false ->
  f_le (if f_lt v f32_one then v else f32_one)
       (if f_lt f32_minus_one v then v else f32_minus_one) = true.
Proof.
  intros Hv. destruct (f_lt v f32_one) eqn:E1, (f_lt f32_minus_one v) eqn:E2.
  - apply f_le_refl. exact Hv.
  - apply f_nlt_le; auto.
  - apply f_nlt_le; auto.
  - exfalso.
    assert (H1 : f_le f32_one v = true) by (apply f_nlt_le; auto).
    assert (H2 : f_le v f32_minus_one = true) by (apply f_nlt_le; auto).
    pose proof (f_le_trans _ _ _ H1 H2) as H. vm_compute in H. discriminate.
Qed.

Lemma scan_ordered (smp : list float) (n : nat) (i : Z) (mn mx mn' mx' : float)
      (evs : list event) :
  0 <= i -> i + Z.of_nat n <= INT_MAX ->
  f_le mn mx = true ->
  scan smp n i mn mx = Some (mn', mx', evs) ->
  f_le mn' mx' = true.
Proof.
  intros Hi Hn H Hs.
  apply (scan_invariant (fun a c => f_le a c = true) smp n i mn mx mn' mx' evs); auto.
  intros a c k v Hac _ _. apply update_ordered. exact Hac.
Qed.

Lemma scan_initial_ordered (smp : list float) (n : nat) :
  forall (i : Z) (mn' mx' : float) (evs : list event),
    0 <= i -> i + Z.of_nat n <= INT_MAX ->
    (exists k v, i <= k < i + Z.of_nat n /\ load smp k = Some v /\ is_nan v = false) ->
    scan smp n i f32_one f32_minus_one = Some (mn', mx', evs) ->
    f_le mn' mx' = true.
Proof.
  induction n as [|n IH]; intros i mn' mx' evs Hi Hn (k & v & Hk & Hv & Hnan) H.
  - lia.
  - cbn [scan] in H.
    destruct (load smp i) as [v0|] eqn:Ev0; try discriminate.
    rewrite wrap32_small in H by (unfold INT_MIN, INT_MAX in *; lia).
    destruct (scan smp n (i + 1) _ _) as [[[a c] e]|] eqn:Es; try discriminate.
    injection H as <- <- <-.
    destruct (is_nan v0) eqn:Hv0.
    + destruct v0; try discriminate.
      rewrite f_lt_nan_l, f_lt_nan_r in Es.
      apply IH in Es; auto; try lia.
      exists k, v. repeat split; auto; try lia.
      destruct (Z.eq_dec k i) as [->|Hne]; [|lia].
      rewrite Ev0 in Hv. injection Hv as <-. discriminate.
    + eapply scan_ordered in Es; eauto; try lia.
      apply update_initial. exact Hv0.
Qed.

(** ** Signs of the scaled bounds *)

Lemma binary_round_aux_sign (prec emax : Z) (sx : bool) (mx ex : Z) (lx : location) :
  binary_round_aux prec emax sx mx ex lx = S754_nan \/
  binary_round_aux prec emax sx mx ex lx = S754_zero sx \/
  binary_round_aux prec emax sx mx ex lx = S754_infinity sx \/
  exists m e, binary_round_aux prec emax sx mx ex lx = S754_finite sx m e.
Proof.
  unfold binary_round_aux.
  destruct (shr_fexp prec emax mx ex lx) as [mrs' e'].
  destruct (shr_fexp prec emax _ e' loc_Exact) as [mrs'' e''].
  destruct (shr_m mrs'') as [|m|m]; auto.
  destruct (e'' <=? emax - prec); [|auto].
  right. right. right. eauto.
Qed.

Lemma ftrunc_sign (s : bool) (f : float) (z : Z) :
  f = S754_nan \/ f = S754_zero s \/ f = S754_infinity s \/
  (exists m e, f = S754_finite s m e) ->
  ftrunc f = Some z ->
  if s then z <= 0 else 0 <= z.
Proof.
  intros [->|[->|[->|(m & e & ->)]]]; cbn [ftrunc]; try discriminate.
  - intros [= <-]. destruct s; lia.
  - intros [= <-].
    assert (0 <= Z.shiftl (Zpos m) e) by (apply Z.shiftl_nonneg; lia).
    destruct s; lia.
Qed.

(** A bound that is at most zero scales to an integer that is at most
    zero, and likewise on the other side. *)
Lemma scaled_nonpos (a : float) (mc : positive) (ec z : Z) :
  f_le a f32_zero = true ->
  fptosi (f32_mul a (S754_finite false mc ec)) = Some z ->
  z <= 0.
Proof.
  intros Hle H. apply fptosi_some in H as [H _].
  unfold f32_mul in H.
  destruct a as [s|s| |s m e]; cbn [SFmul ftrunc] in H; try discriminate.
  - injection H as <-. lia.
  - destruct s; [|vm_compute in Hle; discriminate].
    apply (ftrunc_sign true) in H; auto.
    cbn [xorb]. apply binary_round_aux_sign.
Qed.

Lemma scaled_nonneg (a : float) (mc : positive) (ec z : Z) :
  f_le f32_zero a = true ->
  fptosi (f32_mul a (S754_finite false mc ec)) = Some z ->
  0 <= z.
Proof.
  intros Hle H. apply fptosi_some in H as [H _].
  unfold f32_mul in H.
  destruct a as [s|s| |s m e]; cbn [SFmul ftrunc] in H; try discriminate.
  - injection H as <-. lia.
  - destruct s; [vm_compute in Hle; discriminate|].
    apply (ftrunc_sign false) in H; auto.
    cbn [xorb]. apply binary_round_aux_sign.
Qed.

(** ** Runs of a bucket range made of NaN samples *)

Lemma scan_all_nan (smp : list float) (n : nat) :
  forall (i : Z) (mn mx : float),
    0 <= i -> i + Z.of_nat n <= INT_MAX ->
    (forall k, i <= k < i + Z.of_nat n -> load smp k = Some S754_nan) ->
    scan smp n i mn mx = Some (mn, mx, map Read (zseq i n)).
Proof.
  induction n as [|n IH]; intros i mn mx Hi Hn Hnan; auto.
  cbn [scan]. rewrite (Hnan i) by lia.
  rewrite f_lt_nan_l, f_lt_nan_r.
  rewrite wrap32_small by (unfold INT_MIN, INT_MAX in *; lia).
  rewrite IH; auto; try lia.
  intros k Hk. apply Hnan. lia.
Qed.

Lemma well_formed_defined (smp : list float) (L B : Z) (out : list Z) :
  1 <= L <= INT_MAX -> 1 <= B ->
  well_formed_call smp L B out -> defined_run smp L B out.
Proof.
  intros HL HB (H1 & H2 & H3 & H4). apply compute_peaks_defined; auto.
Qed.

(** The inputs of the examples are well formed, so their runs are defined. *)
Example scenario1_well_formed : well_formed_call scenario1 6 2 [7; 7; 7; 7].
Proof.
  unfold well_formed_call, MAX_BUCKETS.
  repeat split; try (simpl; lia); reflexivity.
Qed.

Example out_of_range_well_formed :
  well_formed_call [f32_two; f32_minus_two] 2 2 [7; 7; 7; 7].
Proof.
  unfold well_formed_call, MAX_BUCKETS.
  repeat split; try (simpl; lia); reflexivity.
Qed.

Example nan_well_formed :
  well_formed_call [S754_nan; f32_half; S754_nan] 3 3 [7; 7; 7; 7; 7; 7].
Proof.
  unfold well_formed_call, MAX_BUCKETS.
  repeat split; try (simpl; lia); reflexivity.
Qed.

(** ** Bounds of a scan, and roundings that lose nothing *)

Lemma update_min_not_nan (v mn : float) :
  is_nan mn = false -> is_nan (if f_lt v mn then v else mn) = false.
Proof.
  intros H. destruct (f_lt v mn) eqn:E; auto.
  apply f_lt_not_nan in E. tauto.
Qed.

Lemma update_max_not_nan (v mx : float) :
  is_nan mx = false -> is_nan (if f_lt mx v then v else mx) = false.
Proof.
  intros H. destruct (f_lt mx v) eqn:E; auto.
  apply f_lt_not_nan in E. tauto.
Qed.

(** From bounds that are not NaN the scan returns the least and the
    greatest of the initial bound and the samples that are not NaN. *)
Lemma scan_bounds (smp : list float) (n : nat) :
  forall (i : Z) (mn mx mn' mx' : float) (evs : list event),
    0 <= i -> i + Z.of_nat n <= INT_MAX ->
    is_nan mn = false -> is_nan mx = false ->
    scan smp n i mn mx = Some (mn', mx', evs) ->
    (f_le mn' mn = true /\ f_le mx mx' = true) /\
    (forall k v, i <= k < i + Z.of_nat n -> load smp k = Some v -> is_nan v = false ->
                 f_le mn' v = true /\ f_le v mx' = true) /\
    (mn' = mn \/ exists k, i <= k < i + Z.of_nat n /\ load smp k = Some mn') /\
    (mx' = mx \/ exists k, i <= k < i + Z.of_nat n /\ load smp k = Some mx').
Proof.
  induction n as [|n IH]; intros i mn mx mn' mx' evs Hi Hn Hmn Hmx H.
  - simpl in H. injection H as <- <- <-.
    split; [split; apply f_le_refl; auto|].
    split; [intros k v Hk; lia|]. auto.
  - cbn [scan] in H.
    destruct (load smp i) as [v0|] eqn:Ev0; try discriminate.
    rewrite wrap32_small in H by (unfold INT_MIN, INT_MAX in *; lia).
    destruct (scan smp n (i + 1) _ _) as [[[a c] e]|] eqn:Es; try discriminate.
    injection H as <- <- <-.
    pose proof (update_min_not_nan v0 mn Hmn) as Hmn1.
    pose proof (update_max_not_nan v0 mx Hmx) as Hmx1.
    apply IH in Es as ((Ha & Hc) & Hall & Hamin & Hamax); auto; try lia.
    assert (Hstep1 : f_le (if f_lt v0 mn then v0 else mn) mn = true).
    { destruct (f_lt v0 mn) eqn:E; [apply f_lt_le; auto|apply f_le_refl; auto]. }
    assert (Hstep2 : f_le mx (if f_lt mx v0 then v0 else mx) = true).
    { destruct (f_lt mx v0) eqn:E; [apply f_lt_le; auto|apply f_le_refl; auto]. }
    split; [split; eapply f_le_trans; eauto|].
    split; [|split].
    + intros k v Hk Hv Hnan.
      destruct (Z.eq_dec k i) as [->|Hne]; [|apply (Hall k v); auto; lia].
      rewrite Ev0 in Hv. injection Hv as ->. split.
      * apply f_le_trans with (if f_lt v mn then v else mn); auto.
        destruct (f_lt v mn) eqn:E; [apply f_le_refl; auto|apply f_nlt_le; auto].
      * apply f_le_trans with (if f_lt mx v then v else mx); auto.
        destruct (f_lt mx v) eqn:E; [apply f_le_refl; auto|apply f_nlt_le; auto].
    + destruct Hamin as [->|(k & Hk & Hv)].
      * destruct (f_lt v0 mn); auto. right. exists i. split; auto. lia.
      * right. exists k. split; auto. lia.
    + destruct Hamax as [->|(k & Hk & Hv)].
      * destruct (f_lt mx v0); auto. right. exists i. split; auto. lia.
      * right. exists k. split; auto. lia.
Qed.

Lemma fexp_mono (prec emax a b : Z) : a <= b -> fexp prec emax a <= fexp prec emax b.
Proof. unfold fexp. lia. Qed.

Lemma pow2_split (a b : Z) : 0 <= b <= a -> 2 ^ a = 2 ^ b * 2 ^ (a - b).
Proof. intros H. rewrite <- Z.pow_add_r by lia. f_equal. lia. Qed.

Lemma shiftl_small (m : positive) (e : Z) :
  Zdigits2 (Zpos m) + e <= 31 -> 0 <= Z.shiftl (Zpos m) e < 2 ^ 31.
Proof.
  intros H.
  destruct (Zdigits2_bounds (Zpos m) ltac:(lia)) as [Hd Hb].
  destruct (Z.le_gt_cases 0 e) as [He|He].
  - rewrite Z.shiftl_mul_pow2 by lia.
    assert (0 < 2 ^ e) by (apply Z.pow_pos_nonneg; lia).
    assert (2 ^ Zdigits2 (Zpos m) * 2 ^ e <= 2 ^ 31).
    { rewrite <- Z.pow_add_r by lia. apply Z.pow_le_mono_r; lia. }
    nia.
  - rewrite Z.shiftl_div_pow2 by lia.
    assert (0 < 2 ^ (- e)) by (apply Z.pow_pos_nonneg; lia).
    split; [apply Z.div_pos; lia|].
    apply Z.div_lt_upper_bound; auto.
    assert (2 ^ Zdigits2 (Zpos m) <= 2 ^ (- e) * 2 ^ 31); [|lia].
    rewrite <- Z.pow_add_r by lia. apply Z.pow_le_mono_r; lia.
Qed.

Lemma Zdigits2_shift (c i : Z) : 0 < c -> 0 <= i -> Zdigits2 (c * 2 ^ i) = Zdigits2 c + i.
Proof.
  intros Hc Hi. destruct (Zdigits2_bounds c Hc) as [Hd Hb].
  assert (Hp : 0 < 2 ^ i) by (apply Z.pow_pos_nonneg; lia).
  apply Zdigits2_unique; try lia.
  replace (Zdigits2 c + i - 1) with (Zdigits2 c - 1 + i) by lia.
  rewrite !Z.pow_add_r by lia. nia.
Qed.

Lemma shr_nonpos (mrs : shr_record) (e n : Z) : n <= 0 -> shr mrs e n = (mrs, e).
Proof. intros H. destruct n as [|p|p]; try lia; reflexivity. Qed.

(** A mantissa whose low bits are zeros loses nothing in rounding. *)
Lemma binary_round_aux_trailing (prec emax : Z) (sx : bool) (c j ex N : Z) :
  0 < prec -> 0 < c ->
  N = Z.max 0 (fexp prec emax (Zdigits2 c + j + ex) - ex) -> N <= j ->
  binary_round_aux prec emax sx (c * 2 ^ j) ex loc_Exact
  = if ex + N <=? emax - prec
    then S754_finite sx (Z.to_pos (c * 2 ^ (j - N))) (ex + N)
    else S754_infinity sx.
Proof.
  intros Hprec Hc HN Hj.
  assert (HN0 : 0 <= N) by lia.
  assert (Hpj : 0 < 2 ^ j) by (apply Z.pow_pos_nonneg; lia).
  assert (HpN : 0 < 2 ^ N) by (apply Z.pow_pos_nonneg; lia).
  assert (Hpq : 0 < 2 ^ (j - N)) by (apply Z.pow_pos_nonneg; lia).
  set (q := c * 2 ^ (j - N)).
  assert (Hq : 0 < q) by (unfold q; nia).
  assert (Hmx : c * 2 ^ j = q * 2 ^ N).
  { unfold q. rewrite (pow2_split j N) by lia. ring. }
  unfold binary_round_aux, shr_fexp.
  rewrite Zdigits2_shift by lia.
  assert (Hloc : loc_ok (c * 2 ^ j) 1 (c * 2 ^ j) loc_Exact) by (unfold loc_ok; lia).
  destruct (shr_ok (c * 2 ^ j) 1 (shr_record_of_loc (c * 2 ^ j) loc_Exact) ex
              (fexp prec emax (Zdigits2 c + j + ex) - ex) ltac:(lia) ltac:(nia)
              (rec_ok_of_loc _ _ _ _ Hloc)) as [Hrec He'].
  destruct (shr (shr_record_of_loc (c * 2 ^ j) loc_Exact) ex
              (fexp prec emax (Zdigits2 c + j + ex) - ex)) as [mrs' e'].
  cbn [fst snd] in Hrec, He'. rewrite <- HN in Hrec, He'.
  rewrite Z.mul_1_r in Hrec. unfold rec_ok, loc_ok in Hrec.
  destruct Hrec as [Hb Hl].
  assert (Hm' : shr_m mrs' = q) by nia.
  assert (Hl' : loc_of_shr_record mrs' = loc_Exact).
  { destruct (loc_of_shr_record mrs'); auto. destruct Hl as [Hl _]. exfalso. nia. }
  rewrite Hl', Hm'. cbn [round_nearest_even].
  assert (Hdq : Zdigits2 q = Zdigits2 c + (j - N))
    by (unfold q; apply Zdigits2_shift; lia).
  rewrite Hdq, shr_nonpos.
  2:{ replace (Zdigits2 c + (j - N) + e') with (Zdigits2 c + j + ex) by lia. lia. }
  destruct (loc_of_rec_of q loc_Exact) as [_ ->].
  subst e'. clearbody q. destruct q as [|p|p]; try lia. reflexivity.
Qed.

(** ** The products with the two scale factors *)







(** The product by [32767.0f] is a binary32 product, rounded before it is
    truncated: for the sample [8388864 * 2 ^ - 24] (about 0.500015) the exact
    product is [16384 - 2 ^ - 16], which truncates to 16383, while the
    rounded product is 16384. *)
Lemma scaled_max_is_rounded :
  valid_binary 24 128 (S754_finite false 8388864 (-24)) = true /\
  fptosi (f32_mul (S754_finite false 8388864 (-24)) f32_32767) = Some 16384 /\
  is_trunc (fval (S754_finite false 8388864 (-24)) * (32767 # 1)) 16383.
Proof.
  split; [reflexivity|]. split; [vm_compute; reflexivity|].
  unfold is_trunc. split.
  - intros _. split; vm_compute; [discriminate|reflexivity].
  - intros H. exfalso. vm_compute in H. apply H. reflexivity.
Qed.

Example out_of_range_run :
  compute_peaks (Some [f32_two; f32_minus_two]) 2 2 (Some [7; 7; 7; 7])
  = Some (Some [32767; 32767; -32768; -32767],
          [Read 0; Write 0 32767; Write 1 32767; Read 1; Write 2 (-32768); Write 3 (-32767)]).
Proof. vm_compute. reflexivity. Qed.




Example out_of_range_bounded : samples_bounded [f32_two; f32_minus_two] 2 = true.
Proof. reflexivity. Qed.

(** ** NaN samples in a scan *)


(** Scanning [n1 + n2] samples is scanning [n1] and then [n2]. *)
Lemma scan_app (smp : list float) (n1 n2 : nat) :
  forall (i : Z) (mn mx : float),
    0 <= i -> i + Z.of_nat (n1 + n2) <= INT_MAX ->
    scan smp (n1 + n2) i mn mx =
    match scan smp n1 i mn mx with
    | None => None
    | Some (a, c, ev1) =>
        match scan smp n2 (i + Z.of_nat n1) a c with
        | None => None
        | Some (a', c', ev2) => Some (a', c', ev1 ++ ev2)
        end
    end.
Proof.
  induction n1 as [|n1 IH]; intros i mn mx Hi Hn.
  - cbn [Nat.add scan Z.of_nat]. rewrite Z.add_0_r.
    destruct (scan smp n2 i mn mx) as [[[a c] ev]|]; reflexivity.
  - cbn [Nat.add scan].
    destruct (load smp i) as [v|]; [|reflexivity].
    rewrite wrap32_small by (unfold INT_MIN, INT_MAX in *; lia).
    rewrite IH by lia.
    destruct (scan smp n1 (i + 1) _ _) as [[[a c] ev1]|]; [|reflexivity].
    replace (i + 1 + Z.of_nat n1) with (i + Z.of_nat (S n1)) by lia.
    destruct (scan smp n2 _ a c) as [[[a' c'] ev2]|]; reflexivity.
Qed.

(** A NaN sample anywhere in a scan is read and changes neither running
    bound: the scan is the scan of the samples before it followed by the
    scan of the samples after it, started from the bounds reached before. *)
Lemma scan_skips_nan (smp : list float) (n : nat) (i k : Z) (mn mx : float) :
  0 <= i -> i + Z.of_nat n <= INT_MAX -> i <= k < i + Z.of_nat n ->
  load smp k = Some S754_nan ->
  scan smp n i mn mx =
  match scan smp (Z.to_nat (k - i)) i mn mx with
  | None => None
  | Some (a, c, ev1) =>
      match scan smp (Z.to_nat (i + Z.of_nat n - k - 1)) (k + 1) a c with
      | None => None
      | Some (a', c', ev2) => Some (a', c', ev1 ++ Read k :: ev2)
      end
  end.
Proof.
  intros Hi Hn Hk Hnan.
  replace n with (Z.to_nat (k - i) + S (Z.to_nat (i + Z.of_nat n - k - 1)))%nat at 1 by lia.
  rewrite scan_app by lia.
  destruct (scan smp (Z.to_nat (k - i)) i mn mx) as [[[a c] ev1]|]; [|reflexivity].
  replace (i + Z.of_nat (Z.to_nat (k - i))) with k by lia.
  cbn [scan]. rewrite Hnan, f_lt_nan_l, f_lt_nan_r.
  rewrite wrap32_small by (unfold INT_MIN, INT_MAX in *; lia).
  destruct (scan smp _ (k + 1) a c) as [[[a' c'] ev2]|]; reflexivity.
Qed.

(** * The claims *)

(** C1: a call in which [samples] is null, [outMinMax] is null, [len <= 0]
    or [buckets <= 0] performs no access at all and returns with the output
    buffer exactly as it was; no error is signalled (the result is a normal
    return, not undefined behaviour). *)
Theorem compute_peaks_invalid_noop
        (samples : option (list float)) (len buckets : Z) (outMinMax : option (list Z)) :
  samples = None \/ outMinMax = None \/ len <= 0 \/ buckets <= 0 ->
  compute_peaks samples len buckets outMinMax = Some (outMinMax, []).
Proof.
  intros H. unfold compute_peaks.
  destruct samples as [smp|]; auto.
  destruct outMinMax as [out|]; auto.
  destruct H as [H|[H|[H|H]]]; try discriminate.
  - replace (len <=? 0) with true by (symmetry; apply Z.leb_le; lia). reflexivity.
  - replace (buckets <=? 0) with true by (symmetry; apply Z.leb_le; lia).
    rewrite orb_true_r. reflexivity.
Qed.

Lemma compute_peaks_invalid_noop_witness :
  (Some scenario1 = None \/ Some [7; 7; 7; 7] = None \/ 0 <= 0 \/ 2 <= 0) /\
  compute_peaks (Some scenario1) 0 2 (Some [7; 7; 7; 7]) = Some (Some [7; 7; 7; 7], []).
Proof.
  assert (H : Some scenario1 = None \/ Some [7; 7; 7; 7] = None \/ 0 <= 0 \/ 2 <= 0).
  { right. right. left. apply Z.le_refl. }
  split; [exact H|].
  exact (compute_peaks_invalid_noop (Some scenario1) 0 2 (Some [7; 7; 7; 7]) H).
Defined.

(** C2 as stated fails: with [buckets = 2 ^ 30 + 1] the index [bucket * 2]
    of the last bucket does not fit an [int]; wrapped, it is negative, and
    the store is outside the output buffer whatever its size. *)
Lemma compute_peaks_index_overflow :
  wrap32 (1073741824 * 2) = -2147483648 /\
  compute_peaks (Some [f32_zero]) 1 1073741825
                (Some (repeat 0 (Z.to_nat 2147483650))) = None.
Proof.
  split; [reflexivity|].
  apply compute_peaks_overflow; unfold MAX_BUCKETS; lia.
Qed.

(** C2 (amended): for a valid call whose bucket count is at most [2 ^ 30]
    (so that every index [bucket * 2 + 1] fits an [int]), the run is defined
    as soon as the buffers have [len] and [2 * buckets] entries and the
    samples' scaled bounds fit [int32_t]; a defined run writes
    [outMinMax[0]], [outMinMax[1]], ..., [outMinMax[2 * buckets - 1]] in
    this order, each exactly once and nothing else, and every sample index
    it reads lies in [0, len). *)
Theorem compute_peaks_accesses (smp : list float) (L B : Z) (out : list Z) :
  1 <= L <= INT_MAX -> 1 <= B <= MAX_BUCKETS ->
  (well_formed_call smp L B out -> defined_run smp L B out) /\
  (forall res evs,
      compute_peaks (Some smp) L B (Some out) = Some (res, evs) ->
      write_indices evs = zseq 0 (Z.to_nat (2 * B)) /\
      Forall (fun i => 0 <= i < L) (read_indices evs)).
Proof.
  intros HL HB. split.
  - apply well_formed_defined; auto. lia.
  - intros res evs H.
    apply compute_peaks_spec in H as (_ & out' & -> & _ & _ & -> & _ & Hin); try lia.
    destruct (bucket_events_writes smp L B (Z.to_nat B) 0) as (Hw & Hr & _);
      auto; try (unfold MAX_BUCKETS, INT_MAX in *; lia).
    { intros b Hb. destruct (Hin b ltac:(lia)) as (v0 & v1 & rd & -> & _). discriminate. }
    split; auto. rewrite Hw. f_equal. lia.
Qed.

Lemma compute_peaks_accesses_witness :
  (1 <= 6 <= INT_MAX /\ 1 <= 2 <= MAX_BUCKETS) /\
  (well_formed_call scenario1 6 2 [7; 7; 7; 7] -> defined_run scenario1 6 2 [7; 7; 7; 7]) /\
  (forall res evs,
      compute_peaks (Some scenario1) 6 2 (Some [7; 7; 7; 7]) = Some (res, evs) ->
      write_indices evs = zseq 0 (Z.to_nat (2 * 2)) /\
      Forall (fun i => 0 <= i < 6) (read_indices evs)).
Proof.
  assert (H1 : 1 <= 6 <= INT_MAX) by (unfold INT_MAX; lia).
  assert (H2 : 1 <= 2 <= MAX_BUCKETS) by (unfold MAX_BUCKETS; lia).
  split; [auto|].
  exact (compute_peaks_accesses scenario1 6 2 [7; 7; 7; 7] H1 H2).
Defined.

(** C3: on [samples = [0.0, 0.5, -0.5, 1.0, -1.0, 0.25]], [len = 6],
    [buckets = 2] the call stores [-16384, 16383, -32768, 32767], whatever
    the buffer held before; bucket 0 scans the indices [0, 3) and bucket 1
    the indices [3, 6). *)
Theorem compute_peaks_scenario1 (a b c d : Z) :
  compute_peaks (Some scenario1) 6 2 (Some [a; b; c; d])
  = Some (Some [-16384; 16383; -32768; 32767],
          [Read 0; Read 1; Read 2; Write 0 (-16384); Write 1 16383;
           Read 3; Read 4; Read 5; Write 2 (-32768); Write 3 32767]) /\
  bucket_range 6 (samples_per_bucket 6 2) 0 = Some (0, 3) /\
  bucket_range 6 (samples_per_bucket 6 2) 1 = Some (3, 6).
Proof.
  repeat split; vm_compute; reflexivity.
Qed.



(** C5 as stated fails: with [len = 2] and [buckets = 5] the first three
    buckets all scan [0, 1); ranges widened to one element overlap, so the
    ranges are not a partition into contiguous, non-overlapping pieces. *)
Lemma bucket_ranges_overlap :
  bucket_range 2 (samples_per_bucket 2 5) 0 = Some (0, 1) /\
  bucket_range 2 (samples_per_bucket 2 5) 1 = Some (0, 1) /\
  ~ (forall b, 0 <= b < 5 - 1 ->
       exists s e e',
         bucket_range 2 (samples_per_bucket 2 5) b = Some (s, e) /\
         bucket_range 2 (samples_per_bucket 2 5) (b + 1) = Some (e, e')).
Proof.
  assert (H0 : bucket_range 2 (samples_per_bucket 2 5) 0 = Some (0, 1))
    by (vm_compute; reflexivity).
  assert (H1 : bucket_range 2 (samples_per_bucket 2 5) 1 = Some (0, 1))
    by (vm_compute; reflexivity).
  split; [exact H0|]. split; [exact H1|].
  intros H. destruct (H 0 ltac:(lia)) as (s & e & e' & E0 & E1).
  change (0 + 1) with 1 in E1. rewrite H0 in E0. rewrite H1 in E1.
  injection E0 as <- <-. injection E1 as E _. discriminate.
Qed.

(** The rounding of [buckets * (len / buckets)] can also fall short of
    [len]: with [len = 15] and [buckets = 11] the last bucket scans
    [13, 14) and the sample of index 14 is never read. *)
Lemma bucket_ranges_miss_last_sample :
  bucket_range 15 (samples_per_bucket 15 11) 10 = Some (13, 14) /\
  forall out res evs,
    compute_peaks (Some (repeat f32_zero 15)) 15 11 (Some out) = Some (res, evs) ->
    ~ In 14 (read_indices evs).
Proof.
  split; [vm_compute; reflexivity|].
  intros out res evs H.
  apply compute_peaks_spec in H as (_ & o & _ & _ & _ & -> & _); try lia.
  vm_compute. intuition congruence.
Qed.

(** Rounding also breaks the balance of the lengths on large inputs: with
    [len = 1610612733] and [buckets = 536870916] two neighbouring buckets
    scan 2 and 4 samples. *)
Lemma bucket_ranges_uneven :
  bucket_range 1610612733 (samples_per_bucket 1610612733 536870916) 357913943
  = Some (1073741819, 1073741821) /\
  bucket_range 1610612733 (samples_per_bucket 1610612733 536870916) 357913944
  = Some (1073741821, 1073741825).
Proof.
  split; vm_compute; reflexivity.
Qed.

(** C5 (amended): for every valid call each bucket has a non-empty scan
    range inside [0, len); bucket 0 starts at index 0; the ranges come in
    non-decreasing order and leave no gap between neighbours: bucket
    [b + 1] starts where bucket [b] ends or, when bucket [b] had to be
    widened to one element, at the start of bucket [b] (the two then
    overlap). *)
Theorem bucket_ranges_ordered (L B b : Z) :
  1 <= L <= INT_MAX -> 1 <= B <= INT_MAX -> 0 <= b < B ->
  exists s e,
    bucket_range L (samples_per_bucket L B) b = Some (s, e) /\
    0 <= s < e /\ e <= L /\ (b = 0 -> s = 0) /\
    (b + 1 < B ->
     exists s' e',
       bucket_range L (samples_per_bucket L B) (b + 1) = Some (s', e') /\
       s <= s' /\ e <= e' /\ (s' = e \/ (s' = s /\ e = s + 1))).
Proof.
  intros HL HB Hb.
  destruct (bucket_range_spec L B b HL HB Hb) as (s & r & Es & Er & Hrange & Hs & Hr & H0).
  exists s, (if r <=? s then s + 1 else r).
  split; [exact Hrange|].
  split; [destruct (Z.leb_spec r s); lia|].
  split; [destruct (Z.leb_spec r s); lia|].
  split; [exact H0|].
  intros Hb1.
  destruct (bucket_range_spec L B (b + 1) HL HB ltac:(lia))
    as (s' & r' & Es' & Er' & Hrange' & Hs' & Hr' & _).
  rewrite Er in Es'. injection Es' as <-.
  exists r, (if r' <=? r then r + 1 else r').
  split; [exact Hrange'|].
  destruct (Z.leb_spec r s); destruct (Z.leb_spec r' r); lia.
Qed.

Lemma bucket_ranges_ordered_witness :
  (1 <= 2 <= INT_MAX /\ 1 <= 5 <= INT_MAX /\ 0 <= 2 < 5) /\
  exists s e,
    bucket_range 2 (samples_per_bucket 2 5) 2 = Some (s, e) /\
    0 <= s < e /\ e <= 2 /\ (2 = 0 -> s = 0) /\
    (2 + 1 < 5 ->
     exists s' e',
       bucket_range 2 (samples_per_bucket 2 5) (2 + 1) = Some (s', e') /\
       s <= s' /\ e <= e' /\ (s' = e \/ (s' = s /\ e = s + 1))).
Proof.
  assert (H1 : 1 <= 2 <= INT_MAX) by (unfold INT_MAX; lia).
  assert (H2 : 1 <= 5 <= INT_MAX) by (unfold INT_MAX; lia).
  assert (H3 : 0 <= 2 < 5) by lia.
  split; [auto|].
  exact (bucket_ranges_ordered 2 5 2 H1 H2 H3).
Defined.

(** C6 as stated fails: a bucket holding the single sample 0.5 stores
    [16384 = trunc (0.5 * 32768)] as its min and
    [16383 = trunc (0.5 * 32767)] as its max, and
    [16384 / 32768 > 16383 / 32767]. *)
Lemma compute_peaks_min_above_max :
  compute_peaks (Some [f32_half]) 1 1 (Some [7; 7])
  = Some (Some [16384; 16383], [Read 0; Write 0 16384; Write 1 16383]) /\
  bucket_range 1 (samples_per_bucket 1 1) 0 = Some (0, 1) /\
  ~ (inject_Z 16384 / inject_Z 32768 <= inject_Z 16383 / inject_Z 32767)%Q.
Proof.
  split; [vm_compute; reflexivity|].
  split; [vm_compute; reflexivity|].
  intros H. vm_compute in H. apply H. reflexivity.
Qed.

(** C6 (amended): for every valid call and every bucket whose scan range
    holds at least one sample that is not NaN, the bucket's floating-point
    bounds satisfy [minVal <= maxVal]; the stored integers are ordered,
    [min <= 0 <= max] and so [min / 32768 <= max / 32767], whenever
    [minVal <= 0 <= maxVal].  (When both bounds have the same sign,
    truncation with the two different factors may store a min above the
    max.) *)
Theorem compute_peaks_min_max_ordered (smp : list float) (L B : Z) (out : list Z)
        (b s e k : Z) (v : float) :
  1 <= L <= INT_MAX -> 1 <= B <= INT_MAX -> 0 <= b < B ->
  bucket_range L (samples_per_bucket L B) b = Some (s, e) ->
  s <= k < e -> load smp k = Some v -> is_nan v = false ->
  (well_formed_call smp L B out -> defined_run smp L B out) /\
  (forall out' evs,
      compute_peaks (Some smp) L B (Some out) = Some (Some out', evs) ->
      exists minVal maxVal reads vmin vmax,
        scan smp (Z.to_nat (e - s)) s f32_one f32_minus_one
        = Some (minVal, maxVal, reads) /\
        f_le minVal maxVal = true /\
        load out' (b * 2) = Some vmin /\ load out' (b * 2 + 1) = Some vmax /\
        (f_le minVal f32_zero = true -> f_le f32_zero maxVal = true ->
         vmin <= 0 <= vmax /\
         (inject_Z vmin / inject_Z 32768 <= inject_Z vmax / inject_Z 32767)%Q)).
Proof.
  intros HL HB Hb Hr Hk Hv Hnan. split.
  { apply well_formed_defined; auto. lia. }
  intros out' evs H.
  apply compute_peaks_spec in H as (_ & o & [= <-] & _ & _ & _ & _ & Hin); try lia.
  destruct (Hin b Hb) as (v0 & v1 & rd & Hres & H0 & H1).
  apply bucket_result_inv in Hres
    as (s' & e' & mn & mx & sMin & sMax & Hr' & Hsc & E1 & E2 & -> & ->).
  rewrite Hr in Hr'. injection Hr' as <- <-.
  destruct (bucket_range_spec L B b HL HB Hb) as (s' & r & _ & _ & Er & Hs & Hrr & _).
  rewrite Hr in Er. injection Er as <- He.
  assert (HeL : s < e <= L) by (subst e; destruct (Z.leb_spec r s); lia).
  exists mn, mx, rd, (clamp16 sMin), (clamp16 sMax).
  replace (b * 2) with (2 * b) by lia.
  split; [exact Hsc|].
  split.
  { apply (scan_initial_ordered smp (Z.to_nat (e - s)) s mn mx rd); auto; try lia.
    exists k, v. repeat split; auto; lia. }
  split; [exact H0|]. split; [exact H1|].
  intros Hmn Hmx.
  change f32_32768 with (S754_finite false 8388608 (-8)) in E1.
  change f32_32767 with (S754_finite false 16776704 (-9)) in E2.
  pose proof (scaled_nonpos _ _ _ _ Hmn E1) as Hz1.
  pose proof (scaled_nonneg _ _ _ _ Hmx E2) as Hz2.
  assert (Hc : clamp16 sMin <= 0 <= clamp16 sMax) by (unfold clamp16; lia).
  split; [exact Hc|].
  apply Qle_trans with 0%Q.
  - apply Qle_shift_div_r; [reflexivity|]. rewrite Qmult_0_l.
    change 0%Q with (inject_Z 0). rewrite <- Zle_Qle. lia.
  - apply Qle_shift_div_l; [reflexivity|]. rewrite Qmult_0_l.
    change 0%Q with (inject_Z 0). rewrite <- Zle_Qle. lia.
Qed.

Lemma compute_peaks_min_max_ordered_witness :
  (1 <= 6 <= INT_MAX /\ 1 <= 2 <= INT_MAX /\ 0 <= 0 < 2 /\
   bucket_range 6 (samples_per_bucket 6 2) 0 = Some (0, 3) /\
   0 <= 1 < 3 /\ load scenario1 1 = Some f32_half /\ is_nan f32_half = false) /\
  (well_formed_call scenario1 6 2 [7; 7; 7; 7] -> defined_run scenario1 6 2 [7; 7; 7; 7]) /\
  (forall out' evs,
      compute_peaks (Some scenario1) 6 2 (Some [7; 7; 7; 7]) = Some (Some out', evs) ->
      exists minVal maxVal reads vmin vmax,
        scan scenario1 (Z.to_nat (3 - 0)) 0 f32_one f32_minus_one
        = Some (minVal, maxVal, reads) /\
        f_le minVal maxVal = true /\
        load out' (0 * 2) = Some vmin /\ load out' (0 * 2 + 1) = Some vmax /\
        (f_le minVal f32_zero = true -> f_le f32_zero maxVal = true ->
         vmin <= 0 <= vmax /\
         (inject_Z vmin / inject_Z 32768 <= inject_Z vmax / inject_Z 32767)%Q)).
Proof.
  assert (H1 : 1 <= 6 <= INT_MAX) by (unfold INT_MAX; lia).
  assert (H2 : 1 <= 2 <= INT_MAX) by (unfold INT_MAX; lia).
  assert (H4 : 0 <= 0 < 2) by lia.
  assert (H5 : bucket_range 6 (samples_per_bucket 6 2) 0 = Some (0, 3))
    by (vm_compute; reflexivity).
  assert (H6 : 0 <= 1 < 3) by lia.
  assert (H7 : load scenario1 1 = Some f32_half) by reflexivity.
  assert (H8 : is_nan f32_half = false) by reflexivity.
  split; [auto 10|].
  exact (compute_peaks_min_max_ordered scenario1 6 2 [7; 7; 7; 7] 0 0 3 1 f32_half
           H1 H2 H4 H5 H6 H7 H8).
Defined.




(** C8: the result does not depend on what the output buffer held.  If the
    run on a buffer is defined, then the run with the same samples, [len]
    and [buckets] on any other buffer of at least [2 * buckets] entries is
    defined too, makes the same accesses and leaves the same values in
    [outMinMax[0 .. buckets * 2)]; in particular, running again on the
    buffer just filled leaves it unchanged. *)
Theorem compute_peaks_deterministic (smp : list float) (L B : Z) (out1 out2 : list Z) :
  1 <= L <= INT_MAX -> 1 <= B <= INT_MAX ->
  2 * B <= Z.of_nat (length out2) ->
  (well_formed_call smp L B out1 -> defined_run smp L B out1) /\
  (forall o1 evs,
      compute_peaks (Some smp) L B (Some out1) = Some (Some o1, evs) ->
      (exists o2,
          compute_peaks (Some smp) L B (Some out2) = Some (Some o2, evs) /\
          firstn (Z.to_nat (2 * B)) o2 = firstn (Z.to_nat (2 * B)) o1) /\
      compute_peaks (Some smp) L B (Some o1) = Some (Some o1, evs)).
Proof.
  intros HL HB Hlen. split.
  { apply well_formed_defined; auto. lia. }
  intros o1 evs H.
  apply compute_peaks_spec in H
    as (Hmax & o & [= <-] & Hl1 & Hsz & Hevs & Hrest & Hin); try lia.
  assert (Hrun : forall out, 2 * B <= Z.of_nat (length out) ->
            exists o', compute_peaks (Some smp) L B (Some out) = Some (Some o', evs) /\
                       (forall j, 0 <= j < 2 * B -> load o' j = load o1 j) /\
                       (forall j, 2 * B <= j -> load o' j = load out j)).
  { intros out Hout.
    destruct (bucket_loop_defined smp L (samples_per_bucket L B) (Z.to_nat B) 0 out)
      as (o' & evs' & El); try lia.
    { intros b Hb. destruct (Hin b ltac:(lia)) as (v0 & v1 & rd & -> & _). discriminate. }
    assert (E : compute_peaks (Some smp) L B (Some out) = Some (Some o', evs')).
    { rewrite compute_peaks_valid, El by lia. reflexivity. }
    pose proof E as E'.
    apply compute_peaks_spec in E'
      as (_ & o'' & [= <-] & _ & _ & Hevs' & Hrest' & Hin'); try lia.
    exists o'. split; [rewrite E, Hevs, Hevs'; reflexivity|]. split; auto.
    intros j Hj.
    destruct (Hin (j / 2)) as (v0 & v1 & rd & Hres & H0 & H1).
    { split; [apply Z.div_pos; lia|apply Z.div_lt_upper_bound; lia]. }
    destruct (Hin' (j / 2)) as (w0 & w1 & rd' & Hres' & H0' & H1').
    { split; [apply Z.div_pos; lia|apply Z.div_lt_upper_bound; lia]. }
    rewrite Hres in Hres'. injection Hres' as <- <- <-.
    pose proof (Z.div_mod j 2 ltac:(lia)) as Hdm.
    pose proof (Z.mod_pos_bound j 2 ltac:(lia)) as Hmb.
    destruct (Z.eq_dec (j mod 2) 0) as [Ej|Ej].
    - replace j with (2 * (j / 2)) by lia. congruence.
    - replace j with (2 * (j / 2) + 1) by lia. congruence. }
  split.
  - destruct (Hrun out2 Hlen) as (o2 & E & Hlow & _).
    exists o2. split; auto. apply firstn_load_ext. exact Hlow.
  - destruct (Hrun o1 ltac:(lia)) as (o' & E & Hlow & Hhigh).
    assert (o' = o1); [|congruence].
    apply load_ext. intros j.
    destruct (Z.lt_ge_cases j 0) as [Hneg|Hpos].
    + unfold load. replace (j <? 0) with true by (symmetry; apply Z.ltb_lt; lia).
      reflexivity.
    + destruct (Z.lt_ge_cases j (2 * B)); auto.
Qed.

Lemma compute_peaks_deterministic_witness :
  (1 <= 6 <= INT_MAX /\ 1 <= 2 <= INT_MAX /\
   2 * 2 <= Z.of_nat (length [1; 2; 3; 4; 5])) /\
  (well_formed_call scenario1 6 2 [7; 7; 7; 7] -> defined_run scenario1 6 2 [7; 7; 7; 7]) /\
  (forall o1 evs,
      compute_peaks (Some scenario1) 6 2 (Some [7; 7; 7; 7]) = Some (Some o1, evs) ->
      (exists o2,
          compute_peaks (Some scenario1) 6 2 (Some [1; 2; 3; 4; 5]) = Some (Some o2, evs) /\
          firstn (Z.to_nat (2 * 2)) o2 = firstn (Z.to_nat (2 * 2)) o1) /\
      compute_peaks (Some scenario1) 6 2 (Some o1) = Some (Some o1, evs)).
Proof.
  assert (H1 : 1 <= 6 <= INT_MAX) by (unfold INT_MAX; lia).
  assert (H2 : 1 <= 2 <= INT_MAX) by (unfold INT_MAX; lia).
  assert (H3 : 2 * 2 <= Z.of_nat (length [1; 2; 3; 4; 5])) by (simpl; lia).
  split; [auto|].
  exact (compute_peaks_deterministic scenario1 6 2 [7; 7; 7; 7] [1; 2; 3; 4; 5] H1 H2 H3).
Defined.

(** C9: the pair stored for a bucket depends only on [len], [buckets], the
    bucket and the samples of its scan range: two runs whose sample buffers
    agree on the range of bucket [b] store the same two entries at
    [outMinMax[b * 2]] and [outMinMax[b * 2 + 1]]. *)
Theorem compute_peaks_bucket_local (smp1 smp2 : list float) (L B : Z)
        (out1 out2 : list Z) (b s e : Z) :
  1 <= L <= INT_MAX -> 1 <= B <= INT_MAX -> 0 <= b < B ->
  bucket_range L (samples_per_bucket L B) b = Some (s, e) ->
  (forall i, s <= i < e -> load smp1 i = load smp2 i) ->
  (well_formed_call smp1 L B out1 -> defined_run smp1 L B out1) /\
  (well_formed_call smp2 L B out2 -> defined_run smp2 L B out2) /\
  (forall o1 o2 evs1 evs2,
      compute_peaks (Some smp1) L B (Some out1) = Some (Some o1, evs1) ->
      compute_peaks (Some smp2) L B (Some out2) = Some (Some o2, evs2) ->
      load o1 (b * 2) = load o2 (b * 2) /\ load o1 (b * 2 + 1) = load o2 (b * 2 + 1)).
Proof.
  intros HL HB Hb Hr Hagree.
  split; [apply well_formed_defined; auto; lia|].
  split; [apply well_formed_defined; auto; lia|].
  intros o1 o2 evs1 evs2 H1 H2.
  apply compute_peaks_spec in H1 as (_ & o & [= <-] & _ & _ & _ & _ & Hin1); try lia.
  apply compute_peaks_spec in H2 as (_ & o & [= <-] & _ & _ & _ & _ & Hin2); try lia.
  destruct (Hin1 b Hb) as (v0 & v1 & rd & Hres1 & H10 & H11).
  destruct (Hin2 b Hb) as (w0 & w1 & rd' & Hres2 & H20 & H21).
  destruct (bucket_range_spec L B b HL HB Hb) as (s' & r & _ & _ & Er & Hs & Hrr & _).
  rewrite Hr in Er. injection Er as <- ->.
  assert (He : s < (if r <=? s then s + 1 else r) <= L)
    by (destruct (Z.leb_spec r s); lia).
  assert (Heq : bucket_result smp1 L (samples_per_bucket L B) b
                = bucket_result smp2 L (samples_per_bucket L B) b).
  { unfold bucket_result, bucket_bounds. rewrite Hr.
    rewrite (scan_ext smp1 smp2); auto; try lia.
    intros k Hk. apply Hagree. lia. }
  rewrite Heq, Hres2 in Hres1. injection Hres1 as <- <- <-.
  replace (b * 2) with (2 * b) by lia. split; congruence.
Qed.

Lemma compute_peaks_bucket_local_witness :
  (1 <= 6 <= INT_MAX /\ 1 <= 2 <= INT_MAX /\ 0 <= 0 < 2 /\
   bucket_range 6 (samples_per_bucket 6 2) 0 = Some (0, 3) /\
   (forall i, 0 <= i < 3 -> load scenario1 i = load scenario1' i)) /\
  (well_formed_call scenario1 6 2 [7; 7; 7; 7] -> defined_run scenario1 6 2 [7; 7; 7; 7]) /\
  (well_formed_call scenario1' 6 2 [1; 2; 3; 4] -> defined_run scenario1' 6 2 [1; 2; 3; 4]) /\
  (forall o1 o2 evs1 evs2,
      compute_peaks (Some scenario1) 6 2 (Some [7; 7; 7; 7]) = Some (Some o1, evs1) ->
      compute_peaks (Some scenario1') 6 2 (Some [1; 2; 3; 4]) = Some (Some o2, evs2) ->
      load o1 (0 * 2) = load o2 (0 * 2) /\ load o1 (0 * 2 + 1) = load o2 (0 * 2 + 1)).
Proof.
  assert (H1 : 1 <= 6 <= INT_MAX) by (unfold INT_MAX; lia).
  assert (H2 : 1 <= 2 <= INT_MAX) by (unfold INT_MAX; lia).
  assert (H5 : 0 <= 0 < 2) by lia.
  assert (H6 : bucket_range 6 (samples_per_bucket 6 2) 0 = Some (0, 3))
    by (vm_compute; reflexivity).
  assert (H7 : forall i, 0 <= i < 3 -> load scenario1 i = load scenario1' i).
  { intros i Hi. assert (Hc : i = 0 \/ i = 1 \/ i = 2) by lia.
    destruct Hc as [->|[->| ->]]; reflexivity. }
  split; [auto 10|].
  exact (compute_peaks_bucket_local scenario1 scenario1' 6 2 [7; 7; 7; 7] [1; 2; 3; 4]
           0 0 3 H1 H2 H5 H6 H7).
Defined.

(** C10: a NaN sample changes neither bound (both comparisons with NaN are
    false): wherever it stands in a scan and whatever the running bounds
    are, the scan is that of the samples before it followed by that of the
    samples after it, with the bounds carried over unchanged.  A bucket whose
    scan range holds only NaN samples therefore keeps the bounds it starts
    from, the initial [minVal = 1.0f] and [maxVal = -1.0f], and stores the
    pair [(32767, -32767)]. *)
Theorem compute_peaks_nan_ignored (smp : list float) (L B : Z) (out : list Z)
        (b s e : Z) :
  1 <= L <= INT_MAX -> 1 <= B <= INT_MAX -> 0 <= b < B ->
  bucket_range L (samples_per_bucket L B) b = Some (s, e) ->
  (forall i, s <= i < e -> load smp i = Some S754_nan) ->
  (forall minVal maxVal,
      (if f_lt S754_nan minVal then S754_nan else minVal) = minVal /\
      (if f_lt maxVal S754_nan then S754_nan else maxVal) = maxVal) /\
  (forall (samples : list float) (n : nat) (i k : Z) (minVal maxVal : float),
      0 <= i -> i + Z.of_nat n <= INT_MAX -> i <= k < i + Z.of_nat n ->
      load samples k = Some S754_nan ->
      scan samples n i minVal maxVal =
      match scan samples (Z.to_nat (k - i)) i minVal maxVal with
      | None => None
      | Some (mn, mx, ev1) =>
          match scan samples (Z.to_nat (i + Z.of_nat n - k - 1)) (k + 1) mn mx with
          | None => None
          | Some (mn', mx', ev2) => Some (mn', mx', ev1 ++ Read k :: ev2)
          end
      end) /\
  (forall minVal maxVal,
      scan smp (Z.to_nat (e - s)) s minVal maxVal
      = Some (minVal, maxVal, map Read (zseq s (Z.to_nat (e - s))))) /\
  scan smp (Z.to_nat (e - s)) s f32_one f32_minus_one
  = Some (f32_one, f32_minus_one, map Read (zseq s (Z.to_nat (e - s)))) /\
  (well_formed_call smp L B out -> defined_run smp L B out) /\
  (forall out' evs,
      compute_peaks (Some smp) L B (Some out) = Some (Some out', evs) ->
      load out' (b * 2) = Some 32767 /\ load out' (b * 2 + 1) = Some (-32767)) /\
  (forall out' evs b' s' e' k,
      compute_peaks (Some smp) L B (Some out) = Some (Some out', evs) ->
      0 <= b' < B -> bucket_range L (samples_per_bucket L B) b' = Some (s', e') ->
      s' <= k < e' -> load smp k = Some S754_nan ->
      exists mn mx ev1 minVal maxVal ev2 scaledMin scaledMax,
        scan smp (Z.to_nat (k - s')) s' f32_one f32_minus_one = Some (mn, mx, ev1) /\
        scan smp (Z.to_nat (e' - k - 1)) (k + 1) mn mx = Some (minVal, maxVal, ev2) /\
        fptosi (f32_mul minVal f32_32768) = Some scaledMin /\
        fptosi (f32_mul maxVal f32_32767) = Some scaledMax /\
        load out' (b' * 2) = Some (Z.min 32767 (Z.max (-32768) scaledMin)) /\
        load out' (b' * 2 + 1) = Some (Z.min 32767 (Z.max (-32768) scaledMax))).
Proof.
  intros HL HB Hb Hr Hnan.
  split.
  { intros mn mx. rewrite f_lt_nan_l, f_lt_nan_r. auto. }
  split.
  { intros samples n i k mn mx. apply scan_skips_nan. }
  assert (Hmixed : forall out' evs b' s' e' k,
      compute_peaks (Some smp) L B (Some out) = Some (Some out', evs) ->
      0 <= b' < B -> bucket_range L (samples_per_bucket L B) b' = Some (s', e') ->
      s' <= k < e' -> load smp k = Some S754_nan ->
      exists mn mx ev1 minVal maxVal ev2 scaledMin scaledMax,
        scan smp (Z.to_nat (k - s')) s' f32_one f32_minus_one = Some (mn, mx, ev1) /\
        scan smp (Z.to_nat (e' - k - 1)) (k + 1) mn mx = Some (minVal, maxVal, ev2) /\
        fptosi (f32_mul minVal f32_32768) = Some scaledMin /\
        fptosi (f32_mul maxVal f32_32767) = Some scaledMax /\
        load out' (b' * 2) = Some (Z.min 32767 (Z.max (-32768) scaledMin)) /\
        load out' (b' * 2 + 1) = Some (Z.min 32767 (Z.max (-32768) scaledMax))).
  { intros out' evs b' s' e' k H Hb' Hr' Hk Hk_nan.
    apply compute_peaks_spec in H as (_ & o & [= <-] & _ & _ & _ & _ & Hin); try lia.
    destruct (Hin b' Hb') as (v0 & v1 & rd & Hres & H0 & H1).
    apply bucket_result_inv in Hres
      as (s1 & e1 & mn & mx & sMin & sMax & Hr1 & Hsc & E1 & E2 & -> & ->).
    rewrite Hr' in Hr1. injection Hr1 as <- <-.
    destruct (bucket_range_spec L B b' HL HB Hb') as (s2 & r2 & _ & _ & Er & Hs & Hrr & _).
    rewrite Hr' in Er. injection Er as <- He.
    assert (HeL : s' < e' <= L) by (subst e'; destruct (Z.leb_spec r2 s'); lia).
    rewrite (scan_skips_nan smp (Z.to_nat (e' - s')) s' k) in Hsc by (auto; lia).
    destruct (scan smp (Z.to_nat (k - s')) s' f32_one f32_minus_one)
      as [[[mn1 mx1] ev1]|] eqn:Sc1; try discriminate.
    replace (s' + Z.of_nat (Z.to_nat (e' - s')) - k - 1) with (e' - k - 1) in Hsc by lia.
    destruct (scan smp (Z.to_nat (e' - k - 1)) (k + 1) mn1 mx1)
      as [[[mn2 mx2] ev2]|] eqn:Sc2; try discriminate.
    injection Hsc as <- <- _.
    exists mn1, mx1, ev1, mn2, mx2, ev2, sMin, sMax.
    replace (b' * 2) with (2 * b') by lia.
    repeat split; auto. }
  destruct (bucket_range_spec L B b HL HB Hb) as (s' & r & _ & _ & Er & Hs & Hrr & _).
  rewrite Hr in Er. injection Er as <- He.
  assert (HeL : s < e <= L) by (subst e; destruct (Z.leb_spec r s); lia).
  assert (Hgen : forall mn mx,
             scan smp (Z.to_nat (e - s)) s mn mx
             = Some (mn, mx, map Read (zseq s (Z.to_nat (e - s))))).
  { intros mn mx. apply scan_all_nan; try lia. intros k Hk. apply Hnan. lia. }
  split; [exact Hgen|].
  split; [apply Hgen|].
  split; [apply well_formed_defined; auto; lia|].
  split; [|exact Hmixed].
  intros out' evs H.
  apply compute_peaks_spec in H as (_ & o & [= <-] & _ & _ & _ & _ & Hin); try lia.
  destruct (Hin b Hb) as (v0 & v1 & rd & Hres & H0 & H1).
  apply bucket_result_inv in Hres
    as (s' & e' & mn & mx & sMin & sMax & Hr' & Hsc & E1 & E2 & -> & ->).
  rewrite Hr in Hr'. injection Hr' as <- <-.
  rewrite Hgen in Hsc. injection Hsc as <- <- _.
  replace (b * 2) with (2 * b) by lia.
  vm_compute in E1, E2. injection E1 as <-. injection E2 as <-.
  split; assumption.
Qed.

Lemma compute_peaks_nan_ignored_witness :
  (1 <= 3 <= INT_MAX /\ 1 <= 3 <= INT_MAX /\ 0 <= 0 < 3 /\
   bucket_range 3 (samples_per_bucket 3 3) 0 = Some (0, 1) /\
   (forall i, 0 <= i < 1 -> load [S754_nan; f32_half; S754_nan] i = Some S754_nan)) /\
  (forall minVal maxVal,
      (if f_lt S754_nan minVal then S754_nan else minVal) = minVal /\
      (if f_lt maxVal S754_nan then S754_nan else maxVal) = maxVal) /\
  (forall (samples : list float) (n : nat) (i k : Z) (minVal maxVal : float),
      0 <= i -> i + Z.of_nat n <= INT_MAX -> i <= k < i + Z.of_nat n ->
      load samples k = Some S754_nan ->
      scan samples n i minVal maxVal =
      match scan samples (Z.to_nat (k - i)) i minVal maxVal with
      | None => None
      | Some (mn, mx, ev1) =>
          match scan samples (Z.to_nat (i + Z.of_nat n - k - 1)) (k + 1) mn mx with
          | None => None
          | Some (mn', mx', ev2) => Some (mn', mx', ev1 ++ Read k :: ev2)
          end
      end) /\
  (forall minVal maxVal,
      scan [S754_nan; f32_half; S754_nan] (Z.to_nat (1 - 0)) 0 minVal maxVal
      = Some (minVal, maxVal, map Read (zseq 0 (Z.to_nat (1 - 0))))) /\
  scan [S754_nan; f32_half; S754_nan] (Z.to_nat (1 - 0)) 0 f32_one f32_minus_one
  = Some (f32_one, f32_minus_one, map Read (zseq 0 (Z.to_nat (1 - 0)))) /\
  (well_formed_call [S754_nan; f32_half; S754_nan] 3 3 [7; 7; 7; 7; 7; 7] ->
   defined_run [S754_nan; f32_half; S754_nan] 3 3 [7; 7; 7; 7; 7; 7]) /\
  (forall out' evs,
      compute_peaks (Some [S754_nan; f32_half; S754_nan]) 3 3 (Some [7; 7; 7; 7; 7; 7])
      = Some (Some out', evs) ->
      load out' (0 * 2) = Some 32767 /\ load out' (0 * 2 + 1) = Some (-32767)) /\
  (forall out' evs b' s' e' k,
      compute_peaks (Some [S754_nan; f32_half; S754_nan]) 3 3 (Some [7; 7; 7; 7; 7; 7])
      = Some (Some out', evs) ->
      0 <= b' < 3 -> bucket_range 3 (samples_per_bucket 3 3) b' = Some (s', e') ->
      s' <= k < e' -> load [S754_nan; f32_half; S754_nan] k = Some S754_nan ->
      exists mn mx ev1 minVal maxVal ev2 scaledMin scaledMax,
        scan [S754_nan; f32_half; S754_nan] (Z.to_nat (k - s')) s' f32_one f32_minus_one
        = Some (mn, mx, ev1) /\
        scan [S754_nan; f32_half; S754_nan] (Z.to_nat (e' - k - 1)) (k + 1) mn mx
        = Some (minVal, maxVal, ev2) /\
        fptosi (f32_mul minVal f32_32768) = Some scaledMin /\
        fptosi (f32_mul maxVal f32_32767) = Some scaledMax /\
        load out' (b' * 2) = Some (Z.min 32767 (Z.max (-32768) scaledMin)) /\
        load out' (b' * 2 + 1) = Some (Z.min 32767 (Z.max (-32768) scaledMax))).
Proof.
  assert (H1 : 1 <= 3 <= INT_MAX) by (unfold INT_MAX; lia).
  assert (H4 : 0 <= 0 < 3) by lia.
  assert (H5 : bucket_range 3 (samples_per_bucket 3 3) 0 = Some (0, 1))
    by (vm_compute; reflexivity).
  assert (H6 : forall i, 0 <= i < 1 ->
                         load [S754_nan; f32_half; S754_nan] i = Some S754_nan).
  { intros i Hi. assert (Hc : i = 0) by lia. rewrite Hc. reflexivity. }
  split; [auto 10|].
  exact (compute_peaks_nan_ignored [S754_nan; f32_half; S754_nan] 3 3 [7; 7; 7; 7; 7; 7]
           0 0 1 H1 H1 H4 H5 H6).
Defined.

(** * Further properties of [compute_peaks] *)

(** ** The output buffer outside the stored pairs *)

(** X1: the call neither resizes the output buffer nor touches an entry from
    index [2 * buckets] on. *)
Theorem compute_peaks_frame (smp : list float) (L B : Z) (out out' : list Z)
        (evs : list event) :
  1 <= L -> 1 <= B ->
  compute_peaks (Some smp) L B (Some out) = Some (Some out', evs) ->
  length out' = length out /\
  (forall j, 2 * B <= j -> load out' j = load out j).
Proof.
  intros HL HB H.
  apply compute_peaks_spec in H as (_ & o & [= <-] & Hlen & _ & _ & Hrest & _); auto.
Qed.

Lemma compute_peaks_frame_witness :
  (1 <= 6 /\ 1 <= 2 /\
   compute_peaks (Some scenario1) 6 2 (Some [7; 7; 7; 7; 8; 9])
   = Some (Some [-16384; 16383; -32768; 32767; 8; 9], scenario1_events)) /\
  length [-16384; 16383; -32768; 32767; 8; 9] = length [7; 7; 7; 7; 8; 9] /\
  (forall j, 2 * 2 <= j ->
             load [-16384; 16383; -32768; 32767; 8; 9] j = load [7; 7; 7; 7; 8; 9] j).
Proof.
  assert (H1 : 1 <= 6) by lia.
  assert (H2 : 1 <= 2) by lia.
  assert (H3 : compute_peaks (Some scenario1) 6 2 (Some [7; 7; 7; 7; 8; 9])
               = Some (Some [-16384; 16383; -32768; 32767; 8; 9], scenario1_events))
    by (vm_compute; reflexivity).
  split; [auto|].
  exact (compute_peaks_frame scenario1 6 2 [7; 7; 7; 7; 8; 9] _ _ H1 H2 H3).
Defined.

(** X2: the size of the output buffer is not checked: on a buffer of fewer than
    [2 * buckets] entries a valid call stores out of bounds. *)
Theorem compute_peaks_short_output (smp : list float) (L B : Z) (out : list Z) :
  1 <= L -> 1 <= B ->
  Z.of_nat (length out) < 2 * B ->
  compute_peaks (Some smp) L B (Some out) = None.
Proof.
  intros HL HB Hlen.
  destruct (compute_peaks (Some smp) L B (Some out)) as [[res evs]|] eqn:E; auto.
  apply compute_peaks_spec in E as (_ & o & _ & _ & Hsz & _); auto. lia.
Qed.

Lemma compute_peaks_short_output_witness :
  (1 <= 6 /\ 1 <= 2 /\ Z.of_nat (length [7; 7; 7]) < 2 * 2) /\
  compute_peaks (Some scenario1) 6 2 (Some [7; 7; 7]) = None.
Proof.
  assert (H1 : 1 <= 6) by lia.
  assert (H2 : 1 <= 2) by lia.
  assert (H3 : Z.of_nat (length [7; 7; 7]) < 2 * 2) by (simpl; lia).
  split; [auto|].
  exact (compute_peaks_short_output scenario1 6 2 [7; 7; 7] H1 H2 H3).
Defined.

(** ** How much of the samples is scanned *)

Lemma index_lower (z L B : Z) :
  1 <= L <= INT_MAX -> 1 <= B ->
  (P53 - 1) * (P53 - 1) * B * L < P53 * P53 * (z + 1) * B ->
  L - 1 <= z.
Proof.
  unfold INT_MAX, P53. intros HL HB H.
  destruct (Z.le_gt_cases (L - 1) z) as [|Hgt]; auto. exfalso.
  assert (H1 : (9007199254740992 - 1) * (9007199254740992 - 1) * L
               < 9007199254740992 * 9007199254740992 * (z + 1)) by nia.
  lia.
Qed.

(** The last scan range ends at [len] or one sample before. *)
Lemma last_range_end (L B : Z) :
  1 <= L <= INT_MAX -> 1 <= B <= INT_MAX ->
  exists s e,
    bucket_range L (samples_per_bucket L B) (B - 1) = Some (s, e) /\
    0 <= s < e /\ L - 1 <= e <= L.
Proof.
  intros HL HB.
  destruct (bucket_range_spec L B (B - 1) HL HB ltac:(lia))
    as (s & r & Es & Er & Hrange & Hs & Hr & _).
  replace (B - 1 + 1) with B in Er by lia.
  destruct (bucket_start_spec L B B HL HB ltac:(lia)) as (z & Ez & _ & _ & _ & _ & Hlo).
  rewrite Er in Ez. injection Ez as <-.
  pose proof (index_lower r L B HL ltac:(lia) Hlo) as Hlow.
  exists s, (if r <=? s then s + 1 else r).
  split; [exact Hrange|].
  destruct (Z.leb_spec r s); lia.
Qed.

(** Every index below the end of a bucket's range lies in the range of that
    bucket or of an earlier one: the ranges leave no gap. *)
Lemma ranges_cover (L B : Z) (k : nat) :
  1 <= L <= INT_MAX -> 1 <= B <= INT_MAX -> Z.of_nat k < B ->
  forall i s e,
    0 <= i ->
    bucket_range L (samples_per_bucket L B) (Z.of_nat k) = Some (s, e) -> i < e ->
    exists b s' e',
      0 <= b <= Z.of_nat k /\
      bucket_range L (samples_per_bucket L B) b = Some (s', e') /\ s' <= i < e'.
Proof.
  intros HL HB. induction k as [|k IH]; intros Hk i s e Hi Hr He.
  - destruct (bucket_range_spec L B 0 HL HB ltac:(lia)) as (s0 & r0 & _ & _ & Hr0 & _ & _ & H0).
    change (Z.of_nat 0) with 0 in *. rewrite Hr in Hr0. injection Hr0 as -> _.
    exists 0, s0, e. rewrite H0 in * by reflexivity. repeat split; auto; lia.
  - destruct (Z.le_gt_cases s i) as [Hsi|Hsi].
    + exists (Z.of_nat (S k)), s, e. repeat split; auto; lia.
    + destruct (bucket_range_spec L B (Z.of_nat k) HL HB ltac:(lia))
        as (s0 & r0 & Es0 & Er0 & Hr0 & Hs0 & Hrr0 & _).
      destruct (bucket_range_spec L B (Z.of_nat (S k)) HL HB ltac:(lia))
        as (s1 & r1 & Es1 & _ & Hr1 & _).
      replace (Z.of_nat k + 1) with (Z.of_nat (S k)) in Er0 by lia.
      rewrite Er0 in Es1. injection Es1 as <-.
      rewrite Hr in Hr1. injection Hr1 as -> _.
      destruct (IH ltac:(lia) i s0 (if r0 <=? s0 then s0 + 1 else r0) Hi Hr0)
        as (b & s' & e' & Hb & Hrb & Hib).
      { destruct (Z.leb_spec r0 s0); lia. }
      exists b, s', e'. repeat split; auto; lia.
Qed.

Lemma bucket_events_reads_in (smp : list float) (L B : Z) (n : nat) :
  forall (b0 i : Z),
    1 <= L <= INT_MAX -> 1 <= B <= INT_MAX -> 0 <= b0 -> b0 + Z.of_nat n <= B ->
    (forall b, b0 <= b < b0 + Z.of_nat n ->
               bucket_result smp L (samples_per_bucket L B) b <> None) ->
    (exists b s e,
        b0 <= b < b0 + Z.of_nat n /\
        bucket_range L (samples_per_bucket L B) b = Some (s, e) /\ s <= i < e) ->
    In i (read_indices (bucket_events smp L (samples_per_bucket L B) n b0)).
Proof.
  induction n as [|n IH]; intros b0 i HL HB Hb0 Hn Hres (b & s & e & Hb & Hr & Hi).
  - lia.
  - cbn [bucket_events].
    destruct (bucket_result smp L (samples_per_bucket L B) b0) as [[[v0 v1] rd]|] eqn:E.
    2:{ exfalso. apply (Hres b0); auto. lia. }
    rewrite !read_indices_app. apply in_or_app.
    destruct (Z.eq_dec b b0) as [->|Hne].
    + left. apply in_or_app. left.
      destruct (bucket_result_reads smp L B b0 v0 v1 rd HL HB ltac:(lia) E)
        as (s' & e' & Hr' & _ & _ & ->).
      rewrite Hr in Hr'. injection Hr' as <- <-.
      rewrite read_indices_reads. apply zseq_In. lia.
    + right. apply IH; auto; try lia.
      * intros b' Hb'. apply Hres. lia.
      * exists b, s, e. repeat split; auto; lia.
Qed.

(** X3: the scan ranges reach the end of the samples up to one sample: the last
    range ends at [len] or at [len - 1], and a defined run reads every
    sample of index below [len - 1]. *)
Theorem compute_peaks_reads_all_but_last (smp : list float) (L B : Z) (out : list Z)
        (res : option (list Z)) (evs : list event) :
  1 <= L <= INT_MAX -> 1 <= B <= INT_MAX ->
  compute_peaks (Some smp) L B (Some out) = Some (res, evs) ->
  (exists s e,
      bucket_range L (samples_per_bucket L B) (B - 1) = Some (s, e) /\
      L - 1 <= e <= L) /\
  (forall i, 0 <= i < L - 1 -> In i (read_indices evs)).
Proof.
  intros HL HB H.
  destruct (last_range_end L B HL HB) as (s & e & Hr & Hs & He).
  split; [exists s, e; auto|].
  intros i Hi.
  apply compute_peaks_spec in H as (_ & o & _ & _ & _ & -> & _ & Hin); try lia.
  apply bucket_events_reads_in; auto; try lia.
  - intros b Hb. destruct (Hin b ltac:(lia)) as (v0 & v1 & rd & -> & _). discriminate.
  - destruct (ranges_cover L B (Z.to_nat (B - 1)) HL HB ltac:(lia) i s e) as
        (b & s' & e' & Hb & Hrb & Hib); try lia.
    { rewrite Z2Nat.id by lia. exact Hr. }
    exists b, s', e'. repeat split; auto; lia.
Qed.

Lemma compute_peaks_reads_all_but_last_witness :
  (1 <= 15 <= INT_MAX /\ 1 <= 11 <= INT_MAX /\
   compute_peaks (Some (repeat f32_zero 15)) 15 11 (Some (repeat 7 22))
   = Some (Some (repeat 0 22),
           bucket_events (repeat f32_zero 15) 15 (samples_per_bucket 15 11) 11 0)) /\
  (exists s e,
      bucket_range 15 (samples_per_bucket 15 11) (11 - 1) = Some (s, e) /\
      15 - 1 <= e <= 15) /\
  (forall i, 0 <= i < 15 - 1 ->
             In i (read_indices
                     (bucket_events (repeat f32_zero 15) 15 (samples_per_bucket 15 11) 11 0))).
Proof.
  assert (H1 : 1 <= 15 <= INT_MAX) by (unfold INT_MAX; lia).
  assert (H2 : 1 <= 11 <= INT_MAX) by (unfold INT_MAX; lia).
  assert (H3 : compute_peaks (Some (repeat f32_zero 15)) 15 11 (Some (repeat 7 22))
               = Some (Some (repeat 0 22),
                       bucket_events (repeat f32_zero 15) 15 (samples_per_bucket 15 11) 11 0))
    by (vm_compute; reflexivity).
  split; [auto|].
  exact (compute_peaks_reads_all_but_last (repeat f32_zero 15) 15 11 (repeat 7 22) _ _
           H1 H2 H3).
Defined.

(** X4: the size of the sample buffer is not checked either: when the buffer
    lacks two or more of the [len] samples announced, a valid call reads
    out of bounds. *)
Theorem compute_peaks_short_samples (smp : list float) (L B : Z) (out : list Z) :
  2 <= L <= INT_MAX -> 1 <= B <= INT_MAX ->
  Z.of_nat (length smp) <= L - 2 ->
  compute_peaks (Some smp) L B (Some out) = None.
Proof.
  intros HL HB Hlen.
  destruct (compute_peaks (Some smp) L B (Some out)) as [[res evs]|] eqn:E; auto.
  exfalso.
  apply compute_peaks_spec in E as (_ & o & _ & _ & _ & _ & _ & Hin); try lia.
  destruct (last_range_end L B ltac:(lia) HB) as (s & e & Hr & Hs & He).
  destruct (ranges_cover L B (Z.to_nat (B - 1)) ltac:(lia) HB ltac:(lia) (L - 2) s e)
    as (b & s' & e' & Hb & Hrb & Hib); try lia.
  { rewrite Z2Nat.id by lia. exact Hr. }
  destruct (Hin b ltac:(lia)) as (v0 & v1 & rd & Hres & _).
  apply bucket_result_inv in Hres as (s1 & e1 & mn & mx & _ & _ & Hr1 & Hsc & _).
  rewrite Hrb in Hr1. injection Hr1 as <- <-.
  destruct (bucket_range_spec L B b ltac:(lia) HB ltac:(lia))
    as (s2 & r2 & _ & _ & Hr2 & Hs2 & Hrr2 & _).
  rewrite Hrb in Hr2. injection Hr2 as <- He'.
  assert (HeL : e' <= L) by (subst e'; destruct (Z.leb_spec r2 s'); lia).
  apply scan_spec in Hsc as [_ Hld]; try lia.
  destruct (Hld (L - 2) ltac:(lia)) as [v Hv].
  apply load_some in Hv. lia.
Qed.

Lemma compute_peaks_short_samples_witness :
  (2 <= 6 <= INT_MAX /\ 1 <= 2 <= INT_MAX /\
   Z.of_nat (length [f32_zero; f32_half; f32_minus_half; f32_one]) <= 6 - 2) /\
  compute_peaks (Some [f32_zero; f32_half; f32_minus_half; f32_one]) 6 2
                (Some [7; 7; 7; 7]) = None.
Proof.
  assert (H1 : 2 <= 6 <= INT_MAX) by (unfold INT_MAX; lia).
  assert (H2 : 1 <= 2 <= INT_MAX) by (unfold INT_MAX; lia).
  assert (H3 : Z.of_nat (length [f32_zero; f32_half; f32_minus_half; f32_one]) <= 6 - 2)
    by (simpl; lia).
  split; [auto|].
  exact (compute_peaks_short_samples [f32_zero; f32_half; f32_minus_half; f32_one] 6 2
           [7; 7; 7; 7] H1 H2 H3).
Defined.

(** ** What the scan computes *)

(** X5: the bounds of a bucket: [minVal] is the least of [1.0f] and the samples
    of the range that are not NaN, [maxVal] the greatest of [-1.0f] and
    these samples.  In particular [minVal <= 1.0f] and [maxVal >= -1.0f]
    whatever the samples are: a range of samples all above [1.0f] still has
    [minVal = 1.0f]. *)
Theorem scan_extrema (smp : list float) (n : nat) (i : Z) (minVal maxVal : float)
        (evs : list event) :
  0 <= i -> i + Z.of_nat n <= INT_MAX ->
  scan smp n i f32_one f32_minus_one = Some (minVal, maxVal, evs) ->
  (f_le minVal f32_one = true /\ f_le f32_minus_one maxVal = true) /\
  (forall k v, i <= k < i + Z.of_nat n -> load smp k = Some v -> is_nan v = false ->
               f_le minVal v = true /\ f_le v maxVal = true) /\
  (minVal = f32_one \/ exists k, i <= k < i + Z.of_nat n /\ load smp k = Some minVal) /\
  (maxVal = f32_minus_one \/
   exists k, i <= k < i + Z.of_nat n /\ load smp k = Some maxVal).
Proof.
  intros Hi Hn H. apply (scan_bounds smp n i f32_one f32_minus_one minVal maxVal evs); auto.
Qed.

Lemma scan_extrema_witness :
  (0 <= 0 /\ 0 + Z.of_nat 2 <= INT_MAX /\
   scan [f32_two; f32_half] 2 0 f32_one f32_minus_one
   = Some (f32_half, f32_two, [Read 0; Read 1])) /\
  (f_le f32_half f32_one = true /\ f_le f32_minus_one f32_two = true) /\
  (forall k v, 0 <= k < 0 + Z.of_nat 2 -> load [f32_two; f32_half] k = Some v ->
               is_nan v = false ->
               f_le f32_half v = true /\ f_le v f32_two = true) /\
  (f32_half = f32_one \/
   exists k, 0 <= k < 0 + Z.of_nat 2 /\ load [f32_two; f32_half] k = Some f32_half) /\
  (f32_two = f32_minus_one \/
   exists k, 0 <= k < 0 + Z.of_nat 2 /\ load [f32_two; f32_half] k = Some f32_two).
Proof.
  assert (H1 : 0 <= 0) by lia.
  assert (H2 : 0 + Z.of_nat 2 <= INT_MAX) by (unfold INT_MAX; simpl; lia).
  assert (H3 : scan [f32_two; f32_half] 2 0 f32_one f32_minus_one
               = Some (f32_half, f32_two, [Read 0; Read 1]))
    by (vm_compute; reflexivity).
  split; [auto|].
  exact (scan_extrema [f32_two; f32_half] 2 0 f32_half f32_two _ H1 H2 H3).
Defined.

(** ** Particular samples *)

Lemma f_le_plus_infinity (x : float) :
  f_le (S754_infinity false) x = true -> x = S754_infinity false.
Proof.
  destruct x as [s|s| |s m e]; try discriminate.
  destruct s; [discriminate|reflexivity].
Qed.

Lemma f_le_minus_infinity (x : float) :
  f_le x (S754_infinity true) = true -> x = S754_infinity true.
Proof.
  destruct x as [s|s| |s m e]; try discriminate;
    destruct s; try discriminate; reflexivity.
Qed.

(** X6: an infinite sample in the scan range of a bucket becomes one of its
    bounds, whose scaled value has no [int32_t] conversion: the call is
    undefined. *)
Theorem compute_peaks_infinite_sample (smp : list float) (L B : Z) (out : list Z)
        (b s e k : Z) (sg : bool) :
  1 <= L <= INT_MAX -> 1 <= B <= INT_MAX -> 0 <= b < B ->
  bucket_range L (samples_per_bucket L B) b = Some (s, e) ->
  s <= k < e -> load smp k = Some (S754_infinity sg) ->
  compute_peaks (Some smp) L B (Some out) = None.
Proof.
  intros HL HB Hb Hr Hk Hv.
  destruct (compute_peaks (Some smp) L B (Some out)) as [[res evs]|] eqn:E; auto.
  exfalso.
  apply compute_peaks_spec in E as (_ & o & _ & _ & _ & _ & _ & Hin); try lia.
  destruct (Hin b Hb) as (v0 & v1 & rd & Hres & _).
  apply bucket_result_inv in Hres as (s1 & e1 & mn & mx & sMin & sMax & Hr1 & Hsc & E1 & E2 & _).
  rewrite Hr in Hr1. injection Hr1 as <- <-.
  destruct (bucket_range_spec L B b HL HB Hb) as (s2 & r2 & _ & _ & Hr2 & Hs2 & Hrr2 & _).
  rewrite Hr in Hr2. injection Hr2 as <- He.
  assert (HeL : e <= L) by (subst e; destruct (Z.leb_spec r2 s); lia).
  apply scan_bounds in Hsc as (_ & Hall & _); try lia; try reflexivity.
  destruct (Hall k (S754_infinity sg)) as [Hmn Hmx]; auto; try lia.
  destruct sg.
  - apply f_le_minus_infinity in Hmn. subst mn. vm_compute in E1. discriminate.
  - apply f_le_plus_infinity in Hmx. subst mx. vm_compute in E2. discriminate.
Qed.

Lemma compute_peaks_infinite_sample_witness :
  (1 <= 2 <= INT_MAX /\ 1 <= 1 <= INT_MAX /\ 0 <= 0 < 1 /\
   bucket_range 2 (samples_per_bucket 2 1) 0 = Some (0, 2) /\
   0 <= 1 < 2 /\ load [f32_half; S754_infinity false] 1 = Some (S754_infinity false)) /\
  compute_peaks (Some [f32_half; S754_infinity false]) 2 1 (Some [7; 7]) = None.
Proof.
  assert (H1 : 1 <= 2 <= INT_MAX) by (unfold INT_MAX; lia).
  assert (H2 : 1 <= 1 <= INT_MAX) by (unfold INT_MAX; lia).
  assert (H3 : 0 <= 0 < 1) by lia.
  assert (H4 : bucket_range 2 (samples_per_bucket 2 1) 0 = Some (0, 2))
    by (vm_compute; reflexivity).
  assert (H5 : 0 <= 1 < 2) by lia.
  assert (H6 : load [f32_half; S754_infinity false] 1 = Some (S754_infinity false))
    by reflexivity.
  split; [auto 10|].
  exact (compute_peaks_infinite_sample [f32_half; S754_infinity false] 2 1 [7; 7]
           0 0 2 1 false H1 H2 H3 H4 H5 H6).
Defined.

(** X7: silence gives a flat envelope: a bucket whose scan range holds only
    zeros (of either sign) stores the pair [(0, 0)]. *)
Theorem compute_peaks_silence (smp : list float) (L B : Z) (out out' : list Z)
        (evs : list event) (b s e : Z) :
  1 <= L <= INT_MAX -> 1 <= B <= INT_MAX -> 0 <= b < B ->
  compute_peaks (Some smp) L B (Some out) = Some (Some out', evs) ->
  bucket_range L (samples_per_bucket L B) b = Some (s, e) ->
  (forall k, s <= k < e -> exists sg, load smp k = Some (S754_zero sg)) ->
  load out' (b * 2) = Some 0 /\ load out' (b * 2 + 1) = Some 0.
Proof.
  intros HL HB Hb H Hr Hzero.
  apply compute_peaks_spec in H as (_ & o & [= <-] & _ & _ & _ & _ & Hin); try lia.
  destruct (Hin b Hb) as (v0 & v1 & rd & Hres & H0 & H1).
  apply bucket_result_inv in Hres
    as (s1 & e1 & mn & mx & sMin & sMax & Hr1 & Hsc & E1 & E2 & -> & ->).
  rewrite Hr in Hr1. injection Hr1 as <- <-.
  destruct (bucket_range_spec L B b HL HB Hb) as (s2 & r2 & _ & _ & Hr2 & Hs2 & Hrr2 & _).
  rewrite Hr in Hr2. injection Hr2 as <- He.
  assert (HeL : s < e <= L) by (subst e; destruct (Z.leb_spec r2 s); lia).
  apply scan_bounds in Hsc as (_ & Hall & Hamin & Hamax); try lia; try reflexivity.
  destruct (Hzero s ltac:(lia)) as [sg0 Hs0].
  destruct (Hall s (S754_zero sg0)) as [Hmn Hmx]; auto; try lia.
  assert (Zmn : exists sg, mn = S754_zero sg).
  { destruct Hamin as [->|(k & Hk & Hv)].
    - destruct sg0; vm_compute in Hmn; discriminate.
    - destruct (Hzero k ltac:(lia)) as [sg Hsg]. rewrite Hsg in Hv.
      injection Hv as <-. eauto. }
  assert (Zmx : exists sg, mx = S754_zero sg).
  { destruct Hamax as [->|(k & Hk & Hv)].
    - destruct sg0; vm_compute in Hmx; discriminate.
    - destruct (Hzero k ltac:(lia)) as [sg Hsg]. rewrite Hsg in Hv.
      injection Hv as <-. eauto. }
  destruct Zmn as [sg1 ->]. destruct Zmx as [sg2 ->].
  replace (b * 2) with (2 * b) by lia.
  destruct sg1; vm_compute in E1; injection E1 as <-;
    destruct sg2; vm_compute in E2; injection E2 as <-; split; assumption.
Qed.

Lemma compute_peaks_silence_witness :
  (1 <= 3 <= INT_MAX /\ 1 <= 2 <= INT_MAX /\ 0 <= 0 < 2 /\
   compute_peaks (Some [S754_zero false; S754_zero true; f32_half]) 3 2 (Some [7; 7; 7; 7])
   = Some (Some [0; 0; 0; 16383],
           [Read 0; Write 0 0; Write 1 0; Read 1; Read 2; Write 2 0; Write 3 16383]) /\
   bucket_range 3 (samples_per_bucket 3 2) 0 = Some (0, 1) /\
   (forall k, 0 <= k < 1 ->
              exists sg, load [S754_zero false; S754_zero true; f32_half] k
                         = Some (S754_zero sg))) /\
  load [0; 0; 0; 16383] (0 * 2) = Some 0 /\ load [0; 0; 0; 16383] (0 * 2 + 1) = Some 0.
Proof.
  assert (H1 : 1 <= 3 <= INT_MAX) by (unfold INT_MAX; lia).
  assert (H2 : 1 <= 2 <= INT_MAX) by (unfold INT_MAX; lia).
  assert (H3 : 0 <= 0 < 2) by lia.
  assert (H4 : compute_peaks (Some [S754_zero false; S754_zero true; f32_half]) 3 2
                             (Some [7; 7; 7; 7])
               = Some (Some [0; 0; 0; 16383],
                       [Read 0; Write 0 0; Write 1 0; Read 1; Read 2;
                        Write 2 0; Write 3 16383]))
    by (vm_compute; reflexivity).
  assert (H5 : bucket_range 3 (samples_per_bucket 3 2) 0 = Some (0, 1))
    by (vm_compute; reflexivity).
  assert (H6 : forall k, 0 <= k < 1 ->
                 exists sg, load [S754_zero false; S754_zero true; f32_half] k
                            = Some (S754_zero sg)).
  { intros k Hk. assert (Hc : k = 0) by lia. rewrite Hc. exists false. reflexivity. }
  split; [auto 10|].
  exact (compute_peaks_silence [S754_zero false; S754_zero true; f32_half] 3 2
           [7; 7; 7; 7] _ _ 0 0 1 H1 H2 H3 H4 H5 H6).
Defined.

(** ** Samples outside [[0, len)] *)

Lemma bucket_result_ext (smp1 smp2 : list float) (L B b : Z) :
  1 <= L <= INT_MAX -> 1 <= B <= INT_MAX -> 0 <= b < B ->
  (forall i, 0 <= i < L -> load smp1 i = load smp2 i) ->
  bucket_result smp1 L (samples_per_bucket L B) b
  = bucket_result smp2 L (samples_per_bucket L B) b.
Proof.
  intros HL HB Hb Hagree.
  destruct (bucket_range_spec L B b HL HB Hb) as (s & r & _ & _ & Er & Hs & Hrr & _).
  assert (He : s < (if r <=? s then s + 1 else r) <= L)
    by (destruct (Z.leb_spec r s); lia).
  unfold bucket_result, bucket_bounds. rewrite Er.
  rewrite (scan_ext smp1 smp2); auto; try lia.
  intros k Hk. apply Hagree. lia.
Qed.

Lemma bucket_loop_ext (smp1 smp2 : list float) (len : Z) (spb : float) (n : nat) :
  forall (b0 : Z) (out : list Z),
    0 <= b0 -> b0 + Z.of_nat n <= INT_MAX ->
    (forall b, b0 <= b < b0 + Z.of_nat n ->
               bucket_result smp1 len spb b = bucket_result smp2 len spb b) ->
    bucket_loop smp1 len spb n b0 out = bucket_loop smp2 len spb n b0 out.
Proof.
  induction n as [|n IH]; intros b0 out Hb0 Hn H; auto.
  cbn [bucket_loop]. rewrite !bucket_body_eq, (H b0) by lia.
  destruct (bucket_result smp2 len spb b0) as [[[v0 v1] rd]|]; auto.
  destruct (store out _ v0) as [out0|]; auto.
  destruct (store out0 _ v1) as [out1|]; auto.
  rewrite wrap32_small by (unfold INT_MIN, INT_MAX in *; lia).
  rewrite IH; auto; try lia.
  intros b Hb. apply H. lia.
Qed.

(** X8: nothing beyond [samples[len - 1]] takes part: two sample buffers that
    agree on the indices [0 .. len - 1] give the same outcome in every
    respect, the final buffer, the log of accesses, or undefinedness. *)
Theorem compute_peaks_ignores_tail (smp1 smp2 : list float) (L B : Z) (out : list Z) :
  L <= INT_MAX -> B <= INT_MAX ->
  (forall i, 0 <= i < L -> load smp1 i = load smp2 i) ->
  compute_peaks (Some smp1) L B (Some out) = compute_peaks (Some smp2) L B (Some out).
Proof.
  intros HL HB Hagree.
  destruct (Z.le_gt_cases L 0) as [HL0|HL0].
  { unfold compute_peaks.
    replace (L <=? 0) with true by (symmetry; apply Z.leb_le; lia). reflexivity. }
  destruct (Z.le_gt_cases B 0) as [HB0|HB0].
  { unfold compute_peaks.
    replace (B <=? 0) with true by (symmetry; apply Z.leb_le; lia).
    rewrite orb_true_r. reflexivity. }
  rewrite !compute_peaks_valid by lia.
  rewrite (bucket_loop_ext smp1 smp2); auto; try lia.
  intros b Hb. apply bucket_result_ext; auto; lia.
Qed.

Lemma compute_peaks_ignores_tail_witness :
  (6 <= INT_MAX /\ 2 <= INT_MAX /\
   (forall i, 0 <= i < 6 -> load scenario1 i = load (scenario1 ++ [f32_two; S754_nan]) i)) /\
  compute_peaks (Some scenario1) 6 2 (Some [7; 7; 7; 7])
  = compute_peaks (Some (scenario1 ++ [f32_two; S754_nan])) 6 2 (Some [7; 7; 7; 7]).
Proof.
  assert (H1 : 6 <= INT_MAX) by (unfold INT_MAX; lia).
  assert (H2 : 2 <= INT_MAX) by (unfold INT_MAX; lia).
  assert (H3 : forall i, 0 <= i < 6 ->
                 load scenario1 i = load (scenario1 ++ [f32_two; S754_nan]) i).
  { intros i Hi.
    assert (Hc : i = 0 \/ i = 1 \/ i = 2 \/ i = 3 \/ i = 4 \/ i = 5) by lia.
    destruct Hc as [->|[->|[->|[->|[->| ->]]]]]; reflexivity. }
  split; [auto|].
  exact (compute_peaks_ignores_tail scenario1 (scenario1 ++ [f32_two; S754_nan]) 6 2
           [7; 7; 7; 7] H1 H2 H3).
Defined.

(** ** More buckets than samples *)

(** X9: with a single sample every bucket scans the range [[0, 1)], so a
    defined run stores the same pair for every bucket. *)
Theorem compute_peaks_single_sample (smp : list float) (B : Z) (out out' : list Z)
        (evs : list event) (b : Z) :
  1 <= B <= INT_MAX -> 0 <= b < B ->
  compute_peaks (Some smp) 1 B (Some out) = Some (Some out', evs) ->
  bucket_range 1 (samples_per_bucket 1 B) b = Some (0, 1) /\
  load out' (b * 2) = load out' 0 /\ load out' (b * 2 + 1) = load out' 1.
Proof.
  intros HB Hb H.
  assert (HL : 1 <= 1 <= INT_MAX) by (unfold INT_MAX; lia).
  assert (Hrange : forall c, 0 <= c < B ->
            bucket_range 1 (samples_per_bucket 1 B) c = Some (0, 1)).
  { intros c Hc.
    destruct (bucket_range_spec 1 B c HL HB Hc) as (s & r & _ & _ & Er & Hs & Hrr & _).
    rewrite Er. assert (s = 0) by lia. subst s.
    destruct (Z.leb_spec r 0); f_equal; f_equal; lia. }
  split; [apply Hrange; lia|].
  apply compute_peaks_spec in H as (_ & o & [= <-] & _ & _ & _ & _ & Hin); try lia.
  destruct (Hin b Hb) as (v0 & v1 & rd & Hres & H0 & H1).
  destruct (Hin 0 ltac:(lia)) as (w0 & w1 & rd' & Hres' & H0' & H1').
  assert (Heq : bucket_result smp 1 (samples_per_bucket 1 B) b
                = bucket_result smp 1 (samples_per_bucket 1 B) 0).
  { unfold bucket_result, bucket_bounds. rewrite !Hrange by lia. reflexivity. }
  rewrite Heq, Hres' in Hres. injection Hres as <- <- <-.
  replace (b * 2) with (2 * b) by lia.
  change (2 * 0) with 0 in H0'. change (2 * 0 + 1) with 1 in H1'.
  split; congruence.
Qed.

Lemma compute_peaks_single_sample_witness :
  (1 <= 3 <= INT_MAX /\ 0 <= 2 < 3 /\
   compute_peaks (Some [f32_quarter]) 1 3 (Some [7; 7; 7; 7; 7; 7])
   = Some (Some [8192; 8191; 8192; 8191; 8192; 8191],
           [Read 0; Write 0 8192; Write 1 8191; Read 0; Write 2 8192; Write 3 8191;
            Read 0; Write 4 8192; Write 5 8191])) /\
  bucket_range 1 (samples_per_bucket 1 3) 2 = Some (0, 1) /\
  load [8192; 8191; 8192; 8191; 8192; 8191] (2 * 2)
  = load [8192; 8191; 8192; 8191; 8192; 8191] 0 /\
  load [8192; 8191; 8192; 8191; 8192; 8191] (2 * 2 + 1)
  = load [8192; 8191; 8192; 8191; 8192; 8191] 1.
Proof.
  assert (H1 : 1 <= 3 <= INT_MAX) by (unfold INT_MAX; lia).
  assert (H2 : 0 <= 2 < 3) by lia.
  assert (H3 : compute_peaks (Some [f32_quarter]) 1 3 (Some [7; 7; 7; 7; 7; 7])
               = Some (Some [8192; 8191; 8192; 8191; 8192; 8191],
                       [Read 0; Write 0 8192; Write 1 8191; Read 0; Write 2 8192;
                        Write 3 8191; Read 0; Write 4 8192; Write 5 8191]))
    by (vm_compute; reflexivity).
  split; [auto|].
  exact (compute_peaks_single_sample [f32_quarter] 3 [7; 7; 7; 7; 7; 7] _ _ 2 H1 H2 H3).
Defined.

(** ** Normalized samples *)

(** Rounding a small value: when the exact value [mx * 2 ^ ex] is below
    [2 ^ K], the result is a zero or has a value below [2 ^ (K + 1)]. *)
Lemma binary_round_aux_small (prec emax : Z) (sx : bool) (mx ex K : Z) :
  0 < prec -> 0 < mx -> Zdigits2 mx + ex <= K -> emin prec emax <= K ->
  binary_round_aux prec emax sx mx ex loc_Exact = S754_zero sx \/
  exists (m : positive) (e : Z),
    binary_round_aux prec emax sx mx ex loc_Exact
    = (if e <=? emax - prec then S754_finite sx m e else S754_infinity sx) /\
    e <= Z.max ex (fexp prec emax (K + 1)) /\
    Zdigits2 (Zpos m) + e <= K + 1.
Proof.
  intros Hprec Hmx HK Hemin.
  destruct (Zdigits2_bounds mx Hmx) as [Hdpos Hdb].
  unfold binary_round_aux, shr_fexp.
  set (d := Zdigits2 mx) in *.
  set (n1 := fexp prec emax (d + ex) - ex).
  assert (Hloc : loc_ok mx 1 mx loc_Exact) by (unfold loc_ok; lia).
  destruct (shr_ok mx 1 (shr_record_of_loc mx loc_Exact) ex n1 ltac:(lia) ltac:(lia)
              (rec_ok_of_loc _ _ _ _ Hloc)) as [Hrec He'].
  destruct (shr (shr_record_of_loc mx loc_Exact) ex n1) as [mrs' e'].
  cbn [fst snd] in Hrec, He'.
  set (N1 := Z.max 0 n1) in *.
  assert (HN1 : 0 <= N1) by (unfold N1; lia).
  assert (Hp1 : 0 < 2 ^ N1) by (apply Z.pow_pos_nonneg; lia).
  rewrite Z.mul_1_r in Hrec.
  pose proof (round_nearest_even_ok mx (2 ^ N1) mrs' Hp1 Hrec) as Hr.
  cbv zeta in Hr.
  set (m1 := round_nearest_even (shr_m mrs') (loc_of_shr_record mrs')) in *.
  destruct Hr as (Hm1 & Herr & _).
  destruct Hrec as [Hb' _].
  set (m' := shr_m mrs') in *.
  assert (Hm'0 : 0 <= m') by nia.
  assert (He'le : e' <= Z.max ex (fexp prec emax (K + 1))).
  { pose proof (fexp_mono prec emax (d + ex) (K + 1) ltac:(lia)). unfold N1, n1 in *. lia. }
  assert (Hd1 : 0 < m1 -> Zdigits2 m1 + e' <= K + 1).
  { intros Hpos.
    assert (Zdigits2 m1 <= K + 1 - e'); [|lia].
    apply Zdigits2_upper; auto.
    destruct (Z.le_gt_cases N1 d) as [Hle|Hgt].
    - rewrite (pow2_split d N1) in Hdb by lia.
      assert (0 < 2 ^ (d - N1)) by (apply Z.pow_pos_nonneg; lia).
      assert (m1 <= 2 ^ (d - N1)) by nia.
      assert (2 ^ (d - N1) < 2 ^ (K + 1 - e')); [|lia].
      apply Z.pow_lt_mono_r; lia.
    - assert (2 ^ d < 2 ^ N1) by (apply Z.pow_lt_mono_r; lia).
      assert (m1 <= 1) by nia.
      assert (e' = emin prec emax).
      { unfold N1, n1, fexp in *. lia. }
      assert (2 ^ 1 <= 2 ^ (K + 1 - e')) by (apply Z.pow_le_mono_r; lia).
      change (2 ^ 1) with 2 in *. lia. }
  set (n2 := fexp prec emax (Zdigits2 m1 + e') - e').
  assert (Hloc1 : loc_ok m1 1 m1 loc_Exact) by (unfold loc_ok; lia).
  destruct (shr_ok m1 1 (shr_record_of_loc m1 loc_Exact) e' n2 ltac:(lia) ltac:(lia)
              (rec_ok_of_loc _ _ _ _ Hloc1)) as [Hrec2 He''].
  destruct (shr (shr_record_of_loc m1 loc_Exact) e' n2) as [mrs'' e''].
  cbn [fst snd] in Hrec2, He''.
  set (N2 := Z.max 0 n2) in *.
  assert (HN2 : 0 <= N2) by (unfold N2; lia).
  assert (Hp2 : 0 < 2 ^ N2) by (apply Z.pow_pos_nonneg; lia).
  rewrite Z.mul_1_r in Hrec2.
  destruct Hrec2 as [Hb2 _].
  set (m2 := shr_m mrs'') in *.
  assert (Hm20 : 0 <= m2) by nia.
  clearbody m2.
  destruct m2 as [|p|p]; try lia; [left; reflexivity|right].
  assert (Hm1pos : 0 < m1) by nia.
  specialize (Hd1 Hm1pos).
  destruct (Zdigits2_bounds m1 Hm1pos) as [Hd1pos Hd1b].
  exists p, e''. split; [reflexivity|]. split.
  - pose proof (fexp_mono prec emax (Zdigits2 m1 + e') (K + 1) ltac:(lia)).
    unfold N2, n2 in *. lia.
  - assert (Zdigits2 (Zpos p) <= K + 1 - e''); [|lia].
    apply Zdigits2_upper; try lia.
    destruct (Z.le_gt_cases N2 (Zdigits2 m1)) as [Hle|Hgt].
    + rewrite (pow2_split (Zdigits2 m1) N2) in Hd1b by lia.
      assert (Zpos p < 2 ^ (Zdigits2 m1 - N2)) by nia.
      assert (2 ^ (Zdigits2 m1 - N2) <= 2 ^ (K + 1 - e'')); [|lia].
      apply Z.pow_le_mono_r; lia.
    + assert (2 ^ Zdigits2 m1 < 2 ^ N2) by (apply Z.pow_lt_mono_r; lia).
      nia.
Qed.

Lemma Zdigits2_mul (a c : positive) :
  Zdigits2 (Zpos (a * c)) <= Zdigits2 (Zpos a) + Zdigits2 (Zpos c).
Proof.
  destruct (Zdigits2_bounds (Zpos a) ltac:(lia)) as [Ha Hab].
  destruct (Zdigits2_bounds (Zpos c) ltac:(lia)) as [Hc Hcb].
  apply Zdigits2_upper; try lia.
  rewrite Z.pow_add_r, Pos2Z.inj_mul by lia. nia.
Qed.

(** The scaled value of a finite sample below [2 ^ 14] in magnitude has an
    [int32_t] conversion. *)
Lemma scaled_defined (s : bool) (m mc : positive) (e ec : Z) :
  Zdigits2 (Zpos m) + e + (Zdigits2 (Zpos mc) + ec) <= 30 -> e + ec <= 104 ->
  exists z, fptosi (f32_mul (S754_finite s m e) (S754_finite false mc ec)) = Some z.
Proof.
  intros Hd He. unfold f32_mul. cbn [SFmul].
  pose proof (Zdigits2_mul m mc) as Hmul.
  destruct (binary_round_aux_small 24 128 (xorb s false) (Zpos (m * mc)) (e + ec) 30)
    as [->|(m' & e' & -> & He' & Hd')]; try lia.
  - unfold emin. lia.
  - exists 0. reflexivity.
  - assert (Hle : e' <= 104) by (unfold fexp, emin in He'; lia).
    replace (e' <=? 128 - 24) with true by (symmetry; apply Z.leb_le; lia).
    pose proof (shiftl_small m' e' ltac:(lia)) as Hs.
    unfold fptosi. cbn [ftrunc].
    change (2 ^ 31) with 2147483648 in Hs.
    destruct (xorb s false); eexists; unfold in_int32, INT_MIN, INT_MAX.
    + replace (_ && _) with true; [reflexivity|].
      symmetry. apply andb_true_iff. split; apply Z.leb_le; lia.
    + replace (_ && _) with true; [reflexivity|].
      symmetry. apply andb_true_iff. split; apply Z.leb_le; lia.
Qed.

Lemma normalized_sample_ok (v : float) : normalized v = true -> sample_ok v = true.
Proof.
  unfold normalized, sample_ok. intros H.
  apply orb_true_iff in H as [H|H]; [rewrite H; reflexivity|].
  apply andb_true_iff in H as [H Hhi]. apply andb_true_iff in H as [Hv Hlo].
  apply orb_true_iff. right.
  destruct v as [s|s| |s m e].
  - destruct s; reflexivity.
  - destruct s; vm_compute in Hlo, Hhi; discriminate.
  - discriminate.
  - cbn [valid_binary] in Hv. unfold bounded, canonical_mantissa in Hv.
    apply andb_true_iff in Hv as [Hc He].
    apply Z.leb_le in He. apply Z.eqb_eq in Hc.
    change (Zpos (digits2_pos m)) with (Zdigits2 (Zpos m)) in Hc.
    assert (Hd : Zdigits2 (Zpos m) + e <= 1).
    { apply f_le_iff in Hlo as (ka & kc & Ea & Ec & Hlo).
      apply f_le_iff in Hhi as (ka' & kc' & Ea' & Ec' & Hhi).
      assert (Hm : e < -23 \/ (e = -23 /\ Zpos m <= 8388608)).
      { destruct s.
        - vm_compute in Ea. injection Ea as <-. cbn [fkey] in Ec. injection Ec as <-.
          cbn [key_le] in Hlo. lia.
        - vm_compute in Ec'. injection Ec' as <-. cbn [fkey] in Ea'. injection Ea' as <-.
          cbn [key_le] in Hhi. lia. }
      unfold fexp, emin in Hc.
      destruct Hm as [Hm|[-> Hm]]; [lia|].
      assert (Zdigits2 (Zpos m) <= 24); [|lia].
      apply Zdigits2_upper; try lia. }
    unfold scalable.
    destruct (scaled_defined s m 8388608 e (-8)) as [z1 E1].
    { change (Zdigits2 (Zpos 8388608)) with 24. lia. }
    { lia. }
    destruct (scaled_defined s m 16776704 e (-9)) as [z2 E2].
    { change (Zdigits2 (Zpos 16776704)) with 24. lia. }
    { lia. }
    change f32_32768 with (S754_finite false 8388608 (-8)).
    change f32_32767 with (S754_finite false 16776704 (-9)).
    rewrite E1, E2. reflexivity.
Qed.

Lemma samples_normalized_ok (smp : list float) (len : Z) :
  samples_normalized smp len = true -> samples_ok smp len = true.
Proof.
  unfold samples_normalized, samples_ok. rewrite !forallb_forall.
  intros H v Hv. apply normalized_sample_ok. auto.
Qed.

(** X10: normalized input is safe: when every sample of [[0, len)] is a NaN or
    lies between [-1.0f] and [1.0f], the buffers are as large as the
    interface requires and there are at most [MAX_BUCKETS] buckets, the call
    returns normally. *)
Theorem compute_peaks_normalized_defined (smp : list float) (L B : Z) (out : list Z) :
  1 <= L <= INT_MAX -> 1 <= B <= MAX_BUCKETS ->
  L <= Z.of_nat (length smp) -> 2 * B <= Z.of_nat (length out) ->
  samples_normalized smp L = true ->
  exists out' evs, compute_peaks (Some smp) L B (Some out) = Some (Some out', evs).
Proof.
  intros HL HB Hls Hlo Hn.
  apply compute_peaks_defined; auto.
  apply samples_normalized_ok; auto.
Qed.

Lemma compute_peaks_normalized_defined_witness :
  (1 <= 6 <= INT_MAX /\ 1 <= 2 <= MAX_BUCKETS /\
   6 <= Z.of_nat (length scenario1) /\ 2 * 2 <= Z.of_nat (length [7; 7; 7; 7]) /\
   samples_normalized scenario1 6 = true) /\
  exists out' evs,
    compute_peaks (Some scenario1) 6 2 (Some [7; 7; 7; 7]) = Some (Some out', evs).
Proof.
  assert (H1 : 1 <= 6 <= INT_MAX) by (unfold INT_MAX; lia).
  assert (H2 : 1 <= 2 <= MAX_BUCKETS) by (unfold MAX_BUCKETS; lia).
  assert (H3 : 6 <= Z.of_nat (length scenario1)) by (simpl; lia).
  assert (H4 : 2 * 2 <= Z.of_nat (length [7; 7; 7; 7])) by (simpl; lia).
  assert (H5 : samples_normalized scenario1 6 = true) by (vm_compute; reflexivity).
  split; [auto 10|].
  exact (compute_peaks_normalized_defined scenario1 6 2 [7; 7; 7; 7] H1 H2 H3 H4 H5).
Defined.

(** ** An even split *)

Lemma f64_of_int_digits (n : Z) :
  1 <= n <= INT_MAX ->
  f64_of_int n
  = S754_finite false (Z.to_pos (n * 2 ^ (53 - Zdigits2 n))) (Zdigits2 n - 53) /\
  1 <= Zdigits2 n <= 31.
Proof.
  unfold INT_MAX. intros Hn.
  destruct (Zdigits2_bounds n ltac:(lia)) as [Hdpos Hb].
  assert (Hd : Zdigits2 n <= 31).
  { apply Zdigits2_upper; [lia|]. change (2 ^ 31) with 2147483648. lia. }
  split; [|lia].
  unfold f64_of_int. rewrite binary_normalize_pos; auto; try lia.
  unfold emin. lia.
Qed.

(** The product of two integers that fits an [int] is computed exactly. *)
Lemma f64_mul_exact (a c : Z) :
  1 <= a -> 1 <= c -> a * c <= INT_MAX ->
  f64_mul (f64_of_int a) (f64_of_int c) = f64_of_int (a * c).
Proof.
  intros Ha Hc Hac.
  destruct (f64_of_int_digits a ltac:(nia)) as [-> Hda].
  destruct (f64_of_int_digits c ltac:(nia)) as [-> Hdc].
  destruct (f64_of_int_digits (a * c) ltac:(nia)) as [-> Hdac].
  set (da := Zdigits2 a) in *. set (dc := Zdigits2 c) in *.
  set (dac := Zdigits2 (a * c)) in *.
  destruct (Zdigits2_bounds a ltac:(lia)) as [_ Hba].
  destruct (Zdigits2_bounds c ltac:(lia)) as [_ Hbc].
  fold da in Hba. fold dc in Hbc.
  assert (Hlow : da + dc - 2 < dac).
  { apply Zdigits2_lower; try nia.
    replace (da + dc - 2) with ((da - 1) + (dc - 1)) by lia.
    rewrite Z.pow_add_r by lia.
    assert (0 < 2 ^ (da - 1)) by (apply Z.pow_pos_nonneg; lia).
    assert (0 < 2 ^ (dc - 1)) by (apply Z.pow_pos_nonneg; lia).
    nia. }
  assert (Hpa : 0 < 2 ^ (53 - da)) by (apply Z.pow_pos_nonneg; lia).
  assert (Hpc : 0 < 2 ^ (53 - dc)) by (apply Z.pow_pos_nonneg; lia).
  unfold f64_mul. cbn [SFmul xorb].
  rewrite Pos2Z.inj_mul, !Z2Pos.id by nia.
  replace (a * 2 ^ (53 - da) * (c * 2 ^ (53 - dc)))
    with (a * c * 2 ^ (106 - da - dc)).
  2:{ replace (106 - da - dc) with ((53 - da) + (53 - dc)) by lia.
      rewrite Z.pow_add_r by lia. ring. }
  rewrite (binary_round_aux_trailing 53 1024 false (a * c) (106 - da - dc)
             (da - 53 + (dc - 53)) (53 + dac - da - dc)); try lia.
  - replace (da - 53 + (dc - 53) + (53 + dac - da - dc)) with (dac - 53) by lia.
    replace (106 - da - dc - (53 + dac - da - dc)) with (53 - dac) by lia.
    replace (dac - 53 <=? 1024 - 53) with true by (symmetry; apply Z.leb_le; lia).
    reflexivity.
  - fold dac. unfold fexp, emin. lia.
Qed.

(** When [buckets] divides [len], the quotient is computed exactly. *)
Lemma samples_per_bucket_exact (k B : Z) :
  1 <= k -> 1 <= B -> k * B <= INT_MAX ->
  samples_per_bucket (k * B) B = f64_of_int k.
Proof.
  intros Hk HB HL. unfold samples_per_bucket.
  destruct (f64_of_int_digits k ltac:(nia)) as [-> Hdk].
  destruct (f64_of_int_digits B ltac:(nia)) as [-> HdB].
  destruct (f64_of_int_digits (k * B) ltac:(nia)) as [-> HdL].
  set (dk := Zdigits2 k) in *. set (dB := Zdigits2 B) in *.
  set (dL := Zdigits2 (k * B)) in *.
  destruct (Zdigits2_bounds k ltac:(lia)) as [_ Hbk].
  destruct (Zdigits2_bounds B ltac:(lia)) as [_ HbB].
  fold dk in Hbk. fold dB in HbB.
  assert (Hup : dL <= dk + dB).
  { apply Zdigits2_upper; try nia. rewrite Z.pow_add_r by lia. nia. }
  assert (Hlow : dk + dB - 2 < dL).
  { apply Zdigits2_lower; try nia.
    replace (dk + dB - 2) with ((dk - 1) + (dB - 1)) by lia.
    rewrite Z.pow_add_r by lia.
    assert (0 < 2 ^ (dk - 1)) by (apply Z.pow_pos_nonneg; lia).
    assert (0 < 2 ^ (dB - 1)) by (apply Z.pow_pos_nonneg; lia).
    nia. }
  assert (HpL : 0 < 2 ^ (53 - dL)) by (apply Z.pow_pos_nonneg; lia).
  assert (HpB : 0 < 2 ^ (53 - dB)) by (apply Z.pow_pos_nonneg; lia).
  set (m1 := k * B * 2 ^ (53 - dL)). set (m2 := B * 2 ^ (53 - dB)).
  assert (Hm1 : 0 < m1) by (unfold m1; nia).
  assert (Hm2 : 0 < m2) by (unfold m2; nia).
  assert (Hd1 : Zdigits2 m1 = 53).
  { unfold m1. rewrite Zdigits2_shift by nia. fold dL. lia. }
  assert (Hd2 : Zdigits2 m2 = 53).
  { unfold m2. rewrite Zdigits2_shift by nia. fold dB. lia. }
  unfold f64_div. cbn [SFdiv xorb]. rewrite !Z2Pos.id by nia. fold m1 m2.
  destruct (SFdiv_core_binary_ok 53 1024 m1 (dL - 53) m2 (dB - 53) Hm1 Hm2)
    as (q & l & -> & Hloc).
  cbv zeta in Hloc. rewrite Hd1, Hd2 in *.
  replace (Z.min (fexp 53 1024 (53 + (dL - 53) - (53 + (dB - 53)))) (dL - 53 - (dB - 53)))
    with (dL - dB - 53) in * by (unfold fexp, emin; lia).
  replace (dL - 53 - (dB - 53) - (dL - dB - 53)) with 53 in Hloc by lia.
  set (J := 53 + dB - dL).
  assert (Hnum : m1 * 2 ^ 53 = k * 2 ^ J * m2).
  { unfold m1, m2, J.
    replace (k * 2 ^ (53 + dB - dL) * (B * 2 ^ (53 - dB)))
      with (k * B * (2 ^ (53 + dB - dL) * 2 ^ (53 - dB))) by ring.
    rewrite <- !Z.pow_add_r by lia. rewrite <- !Z.mul_assoc, <- Z.pow_add_r by lia.
    do 3 f_equal. lia. }
  destruct Hloc as [Hb Hl]. rewrite Hnum in Hb, Hl.
  assert (Hq : q = k * 2 ^ J) by nia.
  assert (Hl' : l = loc_Exact).
  { destruct l; auto. destruct Hl as [Hl _]. exfalso. apply Hl. rewrite Hq. ring. }
  rewrite Hq, Hl'.
  rewrite (binary_round_aux_trailing 53 1024 false k J (dL - dB - 53) (dk + dB - dL));
    try lia.
  - replace (dL - dB - 53 + (dk + dB - dL)) with (dk - 53) by lia.
    replace (J - (dk + dB - dL)) with (53 - dk) by (unfold J; lia).
    replace (dk - 53 <=? 1024 - 53) with true by (symmetry; apply Z.leb_le; lia).
    reflexivity.
  - fold dk. unfold J, fexp, emin. lia.
Qed.

Lemma fptosi_f64_of_int (n : Z) : 0 <= n <= INT_MAX -> fptosi (f64_of_int n) = Some n.
Proof.
  intros Hn. destruct (Z.eq_dec n 0) as [->|Hne]; [reflexivity|].
  destruct (f64_of_int_digits n ltac:(lia)) as [-> Hd].
  assert (Hp : 0 < 2 ^ (53 - Zdigits2 n)) by (apply Z.pow_pos_nonneg; lia).
  unfold fptosi. cbn [ftrunc]. rewrite Z2Pos.id by nia.
  rewrite Z.shiftl_div_pow2 by lia.
  replace (- (Zdigits2 n - 53)) with (53 - Zdigits2 n) by lia.
  rewrite Z.div_mul by lia.
  unfold in_int32, INT_MIN, INT_MAX in *.
  replace (_ && _) with true; [reflexivity|].
  symmetry. apply andb_true_iff. split; apply Z.leb_le; lia.
Qed.

Lemma bucket_start_exact (k b : Z) :
  1 <= k <= INT_MAX -> 0 <= b -> b * k <= INT_MAX ->
  bucket_start (f64_of_int k) b = Some (b * k).
Proof.
  intros Hk Hb Hbk. unfold bucket_start.
  destruct (Z.eq_dec b 0) as [->|Hne].
  - destruct (f64_of_int_digits k ltac:(lia)) as [-> _]. reflexivity.
  - rewrite f64_mul_exact by lia. apply fptosi_f64_of_int. nia.
Qed.

Lemma bucket_range_exact (k B b : Z) :
  1 <= k -> 1 <= B -> k * B <= INT_MAX -> 0 <= b < B ->
  bucket_range (k * B) (samples_per_bucket (k * B) B) b = Some (b * k, (b + 1) * k).
Proof.
  intros Hk HB HL Hb.
  rewrite samples_per_bucket_exact by auto.
  unfold bucket_range.
  rewrite bucket_raw_end_eq by (unfold INT_MAX in *; nia).
  rewrite !bucket_start_exact by nia.
  rewrite adjust_end_eq by nia.
  destruct (Z.leb_spec ((b + 1) * k) (b * k)); [nia|reflexivity].
Qed.

Lemma bucket_events_reads_exact (smp : list float) (k B : Z) (n : nat) :
  forall b0 : Z,
    1 <= k -> 1 <= B -> k * B <= INT_MAX -> 0 <= b0 -> b0 + Z.of_nat n <= B ->
    (forall b, b0 <= b < b0 + Z.of_nat n ->
               bucket_result smp (k * B) (samples_per_bucket (k * B) B) b <> None) ->
    read_indices (bucket_events smp (k * B) (samples_per_bucket (k * B) B) n b0)
    = zseq (b0 * k) (n * Z.to_nat k).
Proof.
  induction n as [|n IH]; intros b0 Hk HB HL Hb0 Hn Hres; [reflexivity|].
  cbn [bucket_events].
  destruct (bucket_result smp (k * B) (samples_per_bucket (k * B) B) b0)
    as [[[v0 v1] rd]|] eqn:E.
  2:{ exfalso. apply (Hres b0); auto. lia. }
  destruct (bucket_result_reads smp (k * B) B b0 v0 v1 rd ltac:(nia) ltac:(nia)
              ltac:(lia) E) as (s & e & Hr & _ & _ & ->).
  rewrite bucket_range_exact in Hr by (auto; lia). injection Hr as <- <-.
  rewrite !read_indices_app, read_indices_reads.
  cbn [read_indices flat_map app]. rewrite app_nil_r.
  rewrite IH; auto; try lia.
  2:{ intros b Hb. apply Hres. lia. }
  replace (Z.to_nat ((b0 + 1) * k - b0 * k)) with (Z.to_nat k) by (f_equal; lia).
  cbn [Nat.mul]. rewrite zseq_app. do 2 f_equal. lia.
Qed.

(** X11: an even split: when [len = k * buckets], the quotient and the products
    of the index computation are exact, and bucket [b] scans exactly the
    block [[b * k, (b + 1) * k)]. *)
Theorem bucket_ranges_divisible (k B b : Z) :
  1 <= k -> 1 <= B -> k * B <= INT_MAX -> 0 <= b < B ->
  bucket_range (k * B) (samples_per_bucket (k * B) B) b = Some (b * k, (b + 1) * k).
Proof.
  intros Hk HB HL Hb.
  assert (Hend : (b + 1) * k <= k * B) by nia.
  rewrite samples_per_bucket_exact by auto.
  unfold bucket_range.
  rewrite bucket_raw_end_eq by (unfold INT_MAX in *; nia).
  rewrite (bucket_start_exact k b), (bucket_start_exact k (b + 1)) by nia.
  rewrite adjust_end_eq by nia.
  destruct (Z.leb_spec ((b + 1) * k) (b * k)); [nia|reflexivity].
Qed.

Lemma bucket_ranges_divisible_witness :
  (1 <= 3 /\ 1 <= 2 /\ 3 * 2 <= INT_MAX /\ 0 <= 1 < 2) /\
  bucket_range (3 * 2) (samples_per_bucket (3 * 2) 2) 1 = Some (1 * 3, (1 + 1) * 3).
Proof.
  assert (H1 : 1 <= 3) by lia.
  assert (H2 : 1 <= 2) by lia.
  assert (H3 : 3 * 2 <= INT_MAX) by (unfold INT_MAX; lia).
  assert (H4 : 0 <= 1 < 2) by lia.
  split; [auto|].
  exact (bucket_ranges_divisible 3 2 1 H1 H2 H3 H4).
Defined.

(** X12: with an even split, a defined run reads every sample of [[0, len)]
    exactly once, in increasing order. *)
Theorem compute_peaks_even_split_reads (smp : list float) (k B : Z) (out : list Z)
        (res : option (list Z)) (evs : list event) :
  1 <= k -> 1 <= B -> k * B <= INT_MAX ->
  compute_peaks (Some smp) (k * B) B (Some out) = Some (res, evs) ->
  read_indices evs = zseq 0 (Z.to_nat (k * B)).
Proof.
  intros Hk HB HL H.
  apply compute_peaks_spec in H as (_ & o & _ & _ & _ & -> & _ & Hin); try nia.
  rewrite bucket_events_reads_exact; auto; try lia.
  - f_equal. rewrite <- Z2Nat.inj_mul by lia. f_equal. lia.
  - intros b Hb. destruct (Hin b ltac:(lia)) as (v0 & v1 & rd & -> & _). discriminate.
Qed.

Lemma compute_peaks_even_split_reads_witness :
  (1 <= 3 /\ 1 <= 2 /\ 3 * 2 <= INT_MAX /\
   compute_peaks (Some scenario1) (3 * 2) 2 (Some [7; 7; 7; 7])
   = Some (Some [-16384; 16383; -32768; 32767], scenario1_events)) /\
  read_indices scenario1_events = zseq 0 (Z.to_nat (3 * 2)).
Proof.
  assert (H1 : 1 <= 3) by lia.
  assert (H2 : 1 <= 2) by lia.
  assert (H3 : 3 * 2 <= INT_MAX) by (unfold INT_MAX; lia).
  assert (H4 : compute_peaks (Some scenario1) (3 * 2) 2 (Some [7; 7; 7; 7])
               = Some (Some [-16384; 16383; -32768; 32767], scenario1_events))
    by (vm_compute; reflexivity).
  split; [auto|].
  exact (compute_peaks_even_split_reads scenario1 3 2 [7; 7; 7; 7] _ _ H1 H2 H3 H4).
Defined.

(** ** Clipping *)

(** A binary32 value of magnitude at least one has a full mantissa and an
    exponent of at least [-23]. *)
Lemma at_least_one (s : bool) (m : positive) (e : Z) :
  valid_binary 24 128 (S754_finite s m e) = true ->
  f_le f32_one (S754_finite false m e) = true ->
  8388608 <= Zpos m < 16777216 /\ -23 <= e.
Proof.
  intros Hv Hle. cbn [valid_binary] in Hv. unfold bounded, canonical_mantissa in Hv.
  apply andb_true_iff in Hv as [Hc _]. apply Z.eqb_eq in Hc.
  change (Zpos (digits2_pos m)) with (Zdigits2 (Zpos m)) in Hc.
  apply f_le_iff in Hle as (ka & kc & Ea & Ec & Hle).
  vm_compute in Ea. injection Ea as <-. cbn [fkey] in Ec. injection Ec as <-.
  cbn [key_le] in Hle.
  destruct (Zdigits2_bounds (Zpos m) ltac:(lia)) as [Hd Hb].
  assert (He : -23 <= e) by lia.
  assert (Hd24 : Zdigits2 (Zpos m) = 24) by (unfold fexp, emin in Hc; lia).
  rewrite Hd24 in Hb. change (2 ^ (24 - 1)) with 8388608 in Hb.
  change (2 ^ 24) with 16777216 in Hb. lia.
Qed.

Lemma shiftl_lower (m e : Z) :
  8388608 <= m -> -8 <= e -> 32768 <= Z.shiftl m e.
Proof.
  intros Hm He. destruct (Z.le_gt_cases 0 e) as [H0|H0].
  - rewrite Z.shiftl_mul_pow2 by lia.
    assert (0 < 2 ^ e) by (apply Z.pow_pos_nonneg; lia). nia.
  - rewrite Z.shiftl_div_pow2 by lia.
    assert (0 < 2 ^ (- e)) by (apply Z.pow_pos_nonneg; lia).
    apply Z.div_le_lower_bound; auto.
    assert (2 ^ (- e) <= 2 ^ 8) by (apply Z.pow_le_mono_r; lia).
    change (2 ^ 8) with 256 in *. lia.
Qed.

(** [maxVal >= 1.0f]: the scaled value is at least 32767. *)
Lemma scaled_max_saturates (m : positive) (e z : Z) :
  8388608 <= Zpos m < 16777216 -> -23 <= e ->
  fptosi (f32_mul (S754_finite false m e) f32_32767) = Some z -> 32767 <= z.
Proof.
  intros Hm He H.
  change f32_32767 with (S754_finite false 16776704 (-9)) in H.
  unfold f32_mul in H. cbn [SFmul xorb] in H.
  set (P := Zpos (m * 16776704)) in *.
  assert (HP : P = Zpos m * 16776704) by (unfold P; lia).
  assert (Hlo : 46 < Zdigits2 P).
  { apply Zdigits2_lower; lia. }
  assert (Hloc : loc_ok P 1 P loc_Exact) by (unfold loc_ok; lia).
  destruct (binary_round_aux_normal 24 128 ltac:(lia) false P (e + -9) loc_Exact P 1)
    as (m' & e' & Hres & Hm' & He' & _ & Hlow); try lia; try exact Hloc.
  { unfold emin. lia. }
  rewrite Hres in H.
  destruct (e' <=? 128 - 24); [|discriminate].
  unfold fptosi in H. cbn [ftrunc] in H.
  destruct (in_int32 _); try discriminate. injection H as <-.
  change (2 ^ (24 - 1)) with 8388608 in Hm'. change (2 ^ 24) with 16777216 in *.
  rewrite Z2Pos.id by lia.
  destruct (Z.le_gt_cases (-8) e') as [H8|H8].
  - pose proof (shiftl_lower m' e' ltac:(lia) H8). lia.
  - assert (e' = -9) by lia. assert (e = -23) by lia. subst e' e.
    change (-9 - (-23 + -9)) with 23 in Hlow. change (2 ^ 23) with 8388608 in Hlow.
    rewrite Z.shiftl_div_pow2 by lia. change (2 ^ (- -9)) with 512.
    apply Z.div_le_lower_bound; lia.
Qed.

(** [minVal <= -1.0f]: the scaled value is at most -32768. *)
Lemma scaled_min_saturates (m : positive) (e z : Z) :
  8388608 <= Zpos m < 16777216 -> -23 <= e ->
  fptosi (f32_mul (S754_finite true m e) f32_32768) = Some z -> z <= -32768.
Proof.
  intros Hm He H.
  change f32_32768 with (S754_finite false 8388608 (-8)) in H.
  unfold f32_mul in H. cbn [SFmul xorb] in H.
  set (P := Zpos (m * 8388608)) in *.
  assert (HP : P = Zpos m * 8388608) by (unfold P; lia).
  assert (Hlo : 46 < Zdigits2 P).
  { apply Zdigits2_lower; lia. }
  assert (Hloc : loc_ok P 1 P loc_Exact) by (unfold loc_ok; lia).
  destruct (binary_round_aux_normal 24 128 ltac:(lia) true P (e + -8) loc_Exact P 1)
    as (m' & e' & Hres & Hm' & He' & _ & _); try lia; try exact Hloc.
  { unfold emin. lia. }
  rewrite Hres in H.
  destruct (e' <=? 128 - 24); [|discriminate].
  unfold fptosi in H. cbn [ftrunc] in H.
  destruct (in_int32 _); try discriminate. injection H as <-.
  change (2 ^ (24 - 1)) with 8388608 in Hm'.
  rewrite Z2Pos.id by lia.
  pose proof (shiftl_lower m' e' ltac:(lia) ltac:(lia)). lia.
Qed.

(** X13: clipping saturates: in a defined run over binary32 samples, a bucket
    whose scan range holds a sample of at least [1.0f] stores the maximum
    32767, and one whose range holds a sample of at most [-1.0f] stores the
    minimum -32768. *)
Theorem compute_peaks_saturation (smp : list float) (L B : Z) (out out' : list Z)
        (evs : list event) (b s e k : Z) (v : float) :
  1 <= L <= INT_MAX -> 1 <= B <= INT_MAX -> 0 <= b < B ->
  compute_peaks (Some smp) L B (Some out) = Some (Some out', evs) ->
  bucket_range L (samples_per_bucket L B) b = Some (s, e) ->
  (forall i w, s <= i < e -> load smp i = Some w -> valid_binary 24 128 w = true) ->
  s <= k < e -> load smp k = Some v ->
  (f_le f32_one v = true -> load out' (b * 2 + 1) = Some 32767) /\
  (f_le v f32_minus_one = true -> load out' (b * 2) = Some (-32768)).
Proof.
  intros HL HB Hb H Hr Hvalid Hk Hv.
  apply compute_peaks_spec in H as (_ & o & [= <-] & _ & _ & _ & _ & Hin); try lia.
  destruct (Hin b Hb) as (v0 & v1 & rd & Hres & H0 & H1).
  apply bucket_result_inv in Hres
    as (s1 & e1 & mn & mx & sMin & sMax & Hr1 & Hsc & E1 & E2 & -> & ->).
  rewrite Hr in Hr1. injection Hr1 as <- <-.
  destruct (bucket_range_spec L B b HL HB Hb) as (s2 & r2 & _ & _ & Hr2 & Hs2 & Hrr2 & _).
  rewrite Hr in Hr2. injection Hr2 as <- He.
  assert (HeL : s < e <= L) by (subst e; destruct (Z.leb_spec r2 s); lia).
  apply scan_bounds in Hsc as (_ & Hall & Hamin & Hamax); try lia; try reflexivity.
  replace (b * 2) with (2 * b) by lia.
  split; intros Hle.
  - destruct (f_le_not_nan _ _ Hle) as [_ Hnan].
    destruct (Hall k v ltac:(lia) Hv Hnan) as [_ Hmx].
    pose proof (f_le_trans _ _ _ Hle Hmx) as H1mx.
    destruct Hamax as [->|(k' & Hk' & Hv')]; [vm_compute in H1mx; discriminate|].
    pose proof (Hvalid k' mx ltac:(lia) Hv') as Hval.
    destruct mx as [sg|sg| |sg m e0].
    + vm_compute in H1mx. discriminate.
    + destruct sg; [vm_compute in H1mx; discriminate|vm_compute in E2; discriminate].
    + discriminate.
    + destruct sg; [vm_compute in H1mx; discriminate|].
      destruct (at_least_one false m e0 Hval H1mx) as [Hm He0].
      pose proof (scaled_max_saturates m e0 sMax Hm He0 E2) as Hz.
      rewrite H1. f_equal. unfold clamp16. lia.
  - destruct (f_le_not_nan _ _ Hle) as [Hnan _].
    destruct (Hall k v ltac:(lia) Hv Hnan) as [Hmn _].
    pose proof (f_le_trans _ _ _ Hmn Hle) as Hmn1.
    destruct Hamin as [->|(k' & Hk' & Hv')]; [vm_compute in Hmn1; discriminate|].
    pose proof (Hvalid k' mn ltac:(lia) Hv') as Hval.
    destruct mn as [sg|sg| |sg m e0].
    + vm_compute in Hmn1. discriminate.
    + destruct sg; [vm_compute in E1; discriminate|vm_compute in Hmn1; discriminate].
    + discriminate.
    + destruct sg; [|vm_compute in Hmn1; discriminate].
      assert (H1mn : f_le f32_one (S754_finite false m e0) = true).
      { apply f_le_iff in Hmn1 as (ka & kc & Ea & Ec & Hk1).
        cbn [fkey] in Ea. injection Ea as <-. vm_compute in Ec. injection Ec as <-.
        apply f_le_iff. eexists. eexists.
        split; [vm_compute; reflexivity|]. split; [reflexivity|].
        cbn [key_le] in *. lia. }
      destruct (at_least_one true m e0 Hval H1mn) as [Hm He0].
      pose proof (scaled_min_saturates m e0 sMin Hm He0 E1) as Hz.
      rewrite H0. f_equal. unfold clamp16. lia.
Qed.

Lemma compute_peaks_saturation_witness :
  (1 <= 2 <= INT_MAX /\ 1 <= 1 <= INT_MAX /\ 0 <= 0 < 1 /\
   compute_peaks (Some [f32_two; f32_minus_two]) 2 1 (Some [7; 7])
   = Some (Some [-32768; 32767], [Read 0; Read 1; Write 0 (-32768); Write 1 32767]) /\
   bucket_range 2 (samples_per_bucket 2 1) 0 = Some (0, 2) /\
   (forall i w, 0 <= i < 2 -> load [f32_two; f32_minus_two] i = Some w ->
                valid_binary 24 128 w = true) /\
   0 <= 0 < 2 /\ load [f32_two; f32_minus_two] 0 = Some f32_two) /\
  (f_le f32_one f32_two = true -> load [-32768; 32767] (0 * 2 + 1) = Some 32767) /\
  (f_le f32_two f32_minus_one = true -> load [-32768; 32767] (0 * 2) = Some (-32768)).
Proof.
  assert (H1 : 1 <= 2 <= INT_MAX) by (unfold INT_MAX; lia).
  assert (H2 : 1 <= 1 <= INT_MAX) by (unfold INT_MAX; lia).
  assert (H3 : 0 <= 0 < 1) by lia.
  assert (H4 : compute_peaks (Some [f32_two; f32_minus_two]) 2 1 (Some [7; 7])
               = Some (Some [-32768; 32767],
                       [Read 0; Read 1; Write 0 (-32768); Write 1 32767]))
    by (vm_compute; reflexivity).
  assert (H5 : bucket_range 2 (samples_per_bucket 2 1) 0 = Some (0, 2))
    by (vm_compute; reflexivity).
  assert (H6 : forall i w, 0 <= i < 2 -> load [f32_two; f32_minus_two] i = Some w ->
                 valid_binary 24 128 w = true).
  { intros i w Hi. assert (Hc : i = 0 \/ i = 1) by lia.
    destruct Hc as [->| ->]; intros [= <-]; reflexivity. }
  assert (H7 : 0 <= 0 < 2) by lia.
  assert (H8 : load [f32_two; f32_minus_two] 0 = Some f32_two) by reflexivity.
  split; [auto 10|].
  exact (compute_peaks_saturation [f32_two; f32_minus_two] 2 1 [7; 7] _ _ 0 0 2 0 f32_two
           H1 H2 H3 H4 H5 H6 H7 H8).
Defined.

(** ** The number of reads *)

Lemma zseq_length (lo : Z) (n : nat) : length (zseq lo n) = n.
Proof. revert lo. induction n as [|n IH]; intros lo; simpl; auto. Qed.

Lemma bucket_events_reads_length (smp : list float) (L B : Z) (n : nat) :
  forall (b0 s0 sn : Z),
    1 <= L <= INT_MAX -> 1 <= B <= INT_MAX -> 0 <= b0 -> b0 + Z.of_nat n <= B ->
    (forall b, b0 <= b < b0 + Z.of_nat n ->
               bucket_result smp L (samples_per_bucket L B) b <> None) ->
    bucket_start (samples_per_bucket L B) b0 = Some s0 ->
    bucket_start (samples_per_bucket L B) (b0 + Z.of_nat n) = Some sn ->
    Z.of_nat n
    <= Z.of_nat (length (read_indices (bucket_events smp L (samples_per_bucket L B) n b0)))
    <= sn - s0 + Z.of_nat n.
Proof.
  induction n as [|n IH]; intros b0 s0 sn HL HB Hb0 Hn Hres Hs0 Hsn.
  - rewrite Z.add_0_r in Hsn. rewrite Hs0 in Hsn. injection Hsn as <-. simpl. lia.
  - cbn [bucket_events].
    destruct (bucket_result smp L (samples_per_bucket L B) b0) as [[[v0 v1] rd]|] eqn:E.
    2:{ exfalso. apply (Hres b0); auto. lia. }
    destruct (bucket_result_reads smp L B b0 v0 v1 rd HL HB ltac:(lia) E)
      as (s & e & Hr & Hse & HeL & ->).
    destruct (bucket_range_spec L B b0 HL HB ltac:(lia))
      as (s' & r & Es & Er & Hr' & Hs' & Hrr & _).
    rewrite Hr in Hr'. injection Hr' as <- He.
    rewrite Hs0 in Es. injection Es as <-.
    rewrite !read_indices_app, read_indices_reads.
    cbn [read_indices flat_map app]. rewrite !length_app, zseq_length.
    cbn [length].
    specialize (IH (b0 + 1) r sn HL HB ltac:(lia) ltac:(lia)).
    replace (b0 + 1 + Z.of_nat n) with (b0 + Z.of_nat (S n)) in IH by lia.
    specialize (IH ltac:(intros b Hb; apply Hres; lia) Er Hsn).
    assert (He' : e - s0 <= r - s0 + 1) by (subst e; destruct (Z.leb_spec r s0); lia).
    lia.
Qed.

(** X14: the cost is linear: a defined run reads at least one sample for every
    bucket and at most [len + buckets] samples in all. *)
Theorem compute_peaks_read_count (smp : list float) (L B : Z) (out : list Z)
        (res : option (list Z)) (evs : list event) :
  1 <= L <= INT_MAX -> 1 <= B <= INT_MAX ->
  compute_peaks (Some smp) L B (Some out) = Some (res, evs) ->
  B <= Z.of_nat (length (read_indices evs)) <= L + B.
Proof.
  intros HL HB H.
  apply compute_peaks_spec in H as (_ & o & _ & _ & _ & -> & _ & Hin); try lia.
  destruct (bucket_start_spec L B 0 HL HB ltac:(lia)) as (s0 & Es0 & Hs0 & _).
  destruct (bucket_start_spec L B B HL HB ltac:(lia)) as (sn & Esn & Hsn & _).
  pose proof (bucket_events_reads_length smp L B (Z.to_nat B) 0 s0 sn HL HB
                ltac:(lia) ltac:(lia)) as Hlen.
  rewrite Z.add_0_l, Z2Nat.id in Hlen by lia.
  specialize (Hlen ltac:(intros b Hb; destruct (Hin b ltac:(lia)) as (v0 & v1 & rd & -> & _);
                         discriminate) Es0 Esn).
  lia.
Qed.

Lemma compute_peaks_read_count_witness :
  (1 <= 2 <= INT_MAX /\ 1 <= 5 <= INT_MAX /\
   compute_peaks (Some [f32_half; f32_quarter]) 2 5 (Some (repeat 7 10))
   = Some (Some [16384; 16383; 16384; 16383; 16384; 16383; 8192; 8191; 8192; 8191],
           bucket_events [f32_half; f32_quarter] 2 (samples_per_bucket 2 5) 5 0)) /\
  5 <= Z.of_nat (length (read_indices
                           (bucket_events [f32_half; f32_quarter] 2
                                          (samples_per_bucket 2 5) 5 0))) <= 2 + 5.
Proof.
  assert (H1 : 1 <= 2 <= INT_MAX) by (unfold INT_MAX; lia).
  assert (H2 : 1 <= 5 <= INT_MAX) by (unfold INT_MAX; lia).
  assert (H3 : compute_peaks (Some [f32_half; f32_quarter]) 2 5 (Some (repeat 7 10))
               = Some (Some [16384; 16383; 16384; 16383; 16384; 16383;
                             8192; 8191; 8192; 8191],
                       bucket_events [f32_half; f32_quarter] 2 (samples_per_bucket 2 5) 5 0))
    by (vm_compute; reflexivity).
  split; [auto|].
  exact (compute_peaks_read_count [f32_half; f32_quarter] 2 5 (repeat 7 10) _ _ H1 H2 H3).
Defined.
